(** * PJRT C API client adapter (xla/pjrt/pjrt_c_api_client.cc)

    A shallow embedding of the adapter that drives an accelerator plugin
    through the PJRT function table, and the properties of it that the
    specification states.

    The plugin is outside the repository.  Every entry point of its function
    table is a field of the record [PJRT_Api]: a function from the argument
    record the adapter fills in to what the plugin reports.  The adapter's
    side is modelled in full: each method is a computation in the monad [M],
    which threads a [World] holding the sequence of plugin entry points
    invoked so far, the completion callbacks the plugin holds, the promises
    resolved and the host callbacks run. *)

From Stdlib Require Import ZArith NArith List Bool Lia.
From stdpp Require Import base option list gmap strings.

Local Open Scope string_scope.
Local Open Scope list_scope.

(** ** Status and results *)

(** absl::StatusCode *)
Inductive StatusCode : Type :=
| kOk | kCancelled | kUnknown | kInvalidArgument | kDeadlineExceeded
| kNotFound | kAlreadyExists | kPermissionDenied | kResourceExhausted
| kFailedPrecondition | kAborted | kOutOfRange | kUnimplemented
| kInternal | kUnavailable | kDataLoss | kUnauthenticated.

#[global] Instance StatusCode_eq_dec : EqDecision StatusCode.
Proof. solve_decision. Defined.

(** xla::Status, when it is not OK: a code and a message. *)
Record Status : Type := MkStatus { code : StatusCode; message : string }.

#[global] Instance Status_eq_dec : EqDecision Status.
Proof. solve_decision. Defined.

(** xla/util.h *)
Definition Unimplemented (msg : string) : Status := MkStatus kUnimplemented msg.
Definition InvalidArgument (msg : string) : Status := MkStatus kInvalidArgument msg.

(** xla::StatusOr<A> *)
Inductive StatusOr (A : Type) : Type :=
| IsOk (a : A)
| NotOk (s : Status).
Arguments IsOk {A} a.
Arguments NotOk {A} s.

(** PJRT_Error_Code of the plugin ABI (pjrt_c_api.h); the plugin's error
    object carries one of them and a message. *)
Inductive PJRT_Error_Code : Type :=
| PJRT_Error_Code_CANCELLED | PJRT_Error_Code_UNKNOWN
| PJRT_Error_Code_INVALID_ARGUMENT | PJRT_Error_Code_DEADLINE_EXCEEDED
| PJRT_Error_Code_NOT_FOUND | PJRT_Error_Code_ALREADY_EXISTS
| PJRT_Error_Code_PERMISSION_DENIED | PJRT_Error_Code_RESOURCE_EXHAUSTED
| PJRT_Error_Code_FAILED_PRECONDITION | PJRT_Error_Code_ABORTED
| PJRT_Error_Code_OUT_OF_RANGE | PJRT_Error_Code_UNIMPLEMENTED
| PJRT_Error_Code_INTERNAL | PJRT_Error_Code_UNAVAILABLE
| PJRT_Error_Code_DATA_LOSS | PJRT_Error_Code_UNAUTHENTICATED.

#[global] Instance PJRT_Error_Code_eq_dec : EqDecision PJRT_Error_Code.
Proof. solve_decision. Defined.

Record PJRT_Error : Type :=
  MkError { GetErrorCode : PJRT_Error_Code; GetErrorMessage : string }.

(** What an entry point of the function table reports: a null error
    pointer and the output fields it filled in, or an error object. *)
Inductive PjrtResult (A : Type) : Type :=
| PjrtOk (out : A)
| PjrtErr (e : PJRT_Error).
Arguments PjrtOk {A} out.
Arguments PjrtErr {A} e.

(** Modelled from the spec: pjrt::PjrtErrorCodeToStatusCode and
    pjrt::PjrtErrorToStatus, of the ABI Error Bridge (pjrt_c_api_helpers.h),
    convert the plugin's error codes into the host's error representation:
    the ABI's codes are absl's, one for one, and the message is carried
    over. *)
Definition PjrtErrorCodeToStatusCode (c : PJRT_Error_Code) : StatusCode :=
  match c with
  | PJRT_Error_Code_CANCELLED => kCancelled
  | PJRT_Error_Code_UNKNOWN => kUnknown
  | PJRT_Error_Code_INVALID_ARGUMENT => kInvalidArgument
  | PJRT_Error_Code_DEADLINE_EXCEEDED => kDeadlineExceeded
  | PJRT_Error_Code_NOT_FOUND => kNotFound
  | PJRT_Error_Code_ALREADY_EXISTS => kAlreadyExists
  | PJRT_Error_Code_PERMISSION_DENIED => kPermissionDenied
  | PJRT_Error_Code_RESOURCE_EXHAUSTED => kResourceExhausted
  | PJRT_Error_Code_FAILED_PRECONDITION => kFailedPrecondition
  | PJRT_Error_Code_ABORTED => kAborted
  | PJRT_Error_Code_OUT_OF_RANGE => kOutOfRange
  | PJRT_Error_Code_UNIMPLEMENTED => kUnimplemented
  | PJRT_Error_Code_INTERNAL => kInternal
  | PJRT_Error_Code_UNAVAILABLE => kUnavailable
  | PJRT_Error_Code_DATA_LOSS => kDataLoss
  | PJRT_Error_Code_UNAUTHENTICATED => kUnauthenticated
  end.

Definition PjrtErrorToStatus (e : PJRT_Error) : Status :=
  MkStatus (PjrtErrorCodeToStatusCode (GetErrorCode e)) (GetErrorMessage e).

(** How a call ends that does not return: a failed CHECK, LOG(FATAL), or
    behaviour the language leaves undefined. *)
Inductive Crash : Type := CheckFailed | LogFatal | UndefinedBehaviour.

Inductive Outcome (A : Type) : Type :=
| Value (a : A)
| Error (s : Status)
| Crashed (c : Crash).
Arguments Value {A} a.
Arguments Error {A} s.
Arguments Crashed {A} c.

(** ** Handles, integers *)

(** Opaque plugin handles (PJRT_Client*, PJRT_Device*, ...) and addresses
    of adapter objects are numbers; two pointers are equal when the
    numbers are. *)
Definition PJRT_Client := N.
Definition PJRT_Device := N.
Definition PJRT_Memory := N.
Definition PJRT_Buffer := N.
Definition PJRT_Event := N.
Definition PJRT_Executable := N.
Definition PJRT_LoadedExecutable := N.
Definition PJRT_DeviceDescription := N.
Definition PJRT_TopologyDescription := N.

(** Conversion of a size_t to int and back, as at the call of
    Convert2DCBuffersToCppBuffers (its inner_size parameter is an int,
    compared with a size_t counter). *)
Definition INT_MAX : Z := 2147483647.
Definition size_t_to_int (n : Z) : Z := (n + 2 ^ 31) mod 2 ^ 32 - 2 ^ 31.
Definition int_to_size_t (i : Z) : Z := i mod 2 ^ 64.

(** ** Host data *)

(** xla::PrimitiveType and PJRT_Buffer_Type by their numeric value. *)
Definition PrimitiveType := Z.
Definition PJRT_Buffer_Type := Z.
Definition PJRT_HostBufferSemantics := Z.

(** Modelled from the spec: PjRtClient::HostBufferSemantics
    (pjrt_client.h).  The adapter accepts three semantics, which it names;
    [kOtherSemantics] stands for any other requested semantics, by the
    value of the enumeration. *)
Inductive HostBufferSemantics : Type :=
| kImmutableOnlyDuringCall
| kImmutableUntilTransferCompletes
| kZeroCopy
| kOtherSemantics (raw : Z).

#[global] Instance HostBufferSemantics_eq_dec : EqDecision HostBufferSemantics.
Proof. solve_decision. Defined.

(** Helpers of pjrt_c_api_helpers.h that the adapter calls and that are
    declared outside this translation unit.  The adapter only passes
    their results on, or returns their error. *)
Class PjrtHelpers : Type := {
  Layout : Type;
  BufferMemoryLayoutData : Type;
  ConvertToBufferMemoryLayoutData : Layout -> StatusOr BufferMemoryLayoutData;
  ConvertToPjRtBufferType : PrimitiveType -> PJRT_Buffer_Type;
  ConvertToPjRtHostBufferSemantics : HostBufferSemantics -> PJRT_HostBufferSemantics;
}.

Section Adapter.
Context {helpers : PjrtHelpers}.

(** xla::Shape as far as the adapter reads it. *)
Record Shape : Type := MkShape {
  element_type : PrimitiveType;
  dimensions : list Z;
  layout : option Layout;
}.

(** xla::Literal: a shape and the bytes of its buffer.  A pointer to host
    memory (untyped_data, the data argument of BufferFromHostBuffer) is
    represented by the bytes it points to. *)
Record Literal : Type := MkLiteral {
  shape : Shape;
  untyped_data : list Byte.byte;
}.

(** std::function<void()> values handed to the adapter: the closure of
    CopyToDevice that owns the intermediate literal, or a caller's. *)
Inductive HostCallback : Type :=
| FreesLiteral (literal : Literal)
| UserCallback (id : N).

(** Promises of PjRtFuture<Status>, by allocation number. *)
Definition Promise := N.

(** The std::function<void(PJRT_Error* )> closures the adapter allocates
    and registers with PJRT_Event_OnReady as user_arg. *)
Inductive OnReadyCallback : Type :=
| DoneWithHostBuffer (on_done_with_host_buffer : HostCallback)
| TrackPromise (promise : Promise).

(** ** Argument records of the function table

    A pointer and a count are one list. *)

Record PJRT_Client_BufferFromHostBuffer_Args : Type := {
  bfh_client : PJRT_Client;
  bfh_data : list Byte.byte;
  bfh_type : PJRT_Buffer_Type;
  bfh_dims : list Z;
  bfh_byte_strides : option (list Z);
  bfh_device_layout : option BufferMemoryLayoutData;
  bfh_host_buffer_semantics : PJRT_HostBufferSemantics;
  bfh_device : option PJRT_Device;
  bfh_memory : option PJRT_Memory;
}.

Record PJRT_Client_CreateViewOfDeviceBuffer_Args : Type := {
  cv_client : PJRT_Client;
  cv_device_buffer_ptr : N;
  cv_dims : list Z;
  cv_element_type : PJRT_Buffer_Type;
  cv_layout : option BufferMemoryLayoutData;
  cv_on_delete_callback : option HostCallback;
  cv_device : PJRT_Device;
  cv_stream : Z;
}.

(** PJRT_SendCallbackInfo / PJRT_RecvCallbackInfo: the channel and, as
    user_arg, the address of the slot of send_callback_functions
    (recv_callback_functions) that holds the C++ callback. *)
Record PJRT_CallbackInfo : Type := {
  info_channel_id : Z;
  info_user_arg : nat;
}.

Record PJRT_ExecuteOptions : Type := {
  opt_launch_id : Z;
  opt_send_callbacks : list (list PJRT_CallbackInfo);
  opt_recv_callbacks : list (list PJRT_CallbackInfo);
  num_send_ops : nat;
  num_recv_ops : nat;
}.

Record PJRT_LoadedExecutable_Execute_Args : Type := {
  ex_executable : PJRT_LoadedExecutable;
  ex_options : PJRT_ExecuteOptions;
  ex_num_devices : nat;
  ex_num_args : nat;
  ex_argument_lists : list (list PJRT_Buffer);
  ex_output_lists : list (list PJRT_Buffer);
  ex_device_complete_events : option (list PJRT_Event);
  ex_execute_device : option PJRT_Device;
}.

(** What PJRT_LoadedExecutable_Execute writes through the pointers of its
    argument record: the buffer at output_lists[i][j] and the event at
    device_complete_events[i]. *)
Record ExecuteOutputs : Type := {
  written_output : nat -> nat -> PJRT_Buffer;
  written_event : nat -> PJRT_Event;
}.

(** xla::PjRtValueType and PJRT_NamedValue; a float by its bits. *)
Inductive PjRtValueType : Type :=
| StringValue (s : string)
| Int64Value (i : Z)
| Int64ListValue (l : list Z)
| FloatValue (bits : Z)
| BoolValue (b : bool).

Definition PJRT_NamedValue : Type := string * PjRtValueType.

(** The members kv_get_callback, kv_get_user_arg, kv_put_callback and
    kv_put_user_arg of PJRT_Client_Create_Args.  GetCApiClient declares
    the struct without an initializer and assigns the four members only
    when it has both callbacks, each named here by a number; otherwise
    the plugin is handed members that nobody has assigned. *)
Inductive KeyValueCallbackArgs : Type :=
| kv_assigned (kv_get kv_put : N)
| kv_unassigned.

Record PJRT_Client_Create_Args : Type := {
  cr_create_options : list PJRT_NamedValue;
  cr_kv_callbacks : KeyValueCallbackArgs;
}.

(** ** The function table *)

Record PJRT_Api : Type := {
  minor_version : Z;
  PJRT_Client_Create : PJRT_Client_Create_Args -> PjrtResult PJRT_Client;
  PJRT_Client_Devices : PJRT_Client -> PjrtResult (list PJRT_Device);
  PJRT_Client_AddressableDevices : PJRT_Client -> PjrtResult (list PJRT_Device);
  PJRT_Client_AddressableMemories : PJRT_Client -> PjrtResult (list PJRT_Memory);
  PJRT_Device_AddressableMemories : PJRT_Device -> PjrtResult (list PJRT_Memory);
  PJRT_Memory_AddressableByDevices : PJRT_Memory -> PjrtResult (list PJRT_Device);
  PJRT_DeviceDescription_Attributes :
    PJRT_DeviceDescription -> PjrtResult (list PJRT_NamedValue);
  PJRT_TopologyDescription_Attributes :
    PJRT_TopologyDescription -> PjrtResult (list PJRT_NamedValue);
  PJRT_Client_BufferFromHostBuffer :
    PJRT_Client_BufferFromHostBuffer_Args -> PjrtResult (PJRT_Buffer * PJRT_Event);
  PJRT_Client_CreateViewOfDeviceBuffer :
    PJRT_Client_CreateViewOfDeviceBuffer_Args -> PjrtResult PJRT_Buffer;
  PJRT_Buffer_UnsafePointer : PJRT_Buffer -> PjrtResult Z;
  PJRT_Buffer_CopyToDevice : PJRT_Buffer -> PJRT_Device -> PjrtResult PJRT_Buffer;
  PJRT_Buffer_CopyToMemory : PJRT_Buffer -> PJRT_Memory -> PjrtResult PJRT_Buffer;
  PJRT_Buffer_ReadyEvent : PJRT_Buffer -> PjrtResult PJRT_Event;
  PJRT_Event_OnReady : PJRT_Event -> PjrtResult unit;
  PJRT_Executable_NumOutputs : PJRT_Executable -> PjrtResult N;
  PJRT_LoadedExecutable_Execute :
    PJRT_LoadedExecutable_Execute_Args -> PjrtResult ExecuteOutputs;
}.

(** An invocation of an entry point, with the arguments passed. *)
Inductive PluginCall : Type :=
| Call_Client_Create (args : PJRT_Client_Create_Args)
| Call_Client_Devices (client : PJRT_Client)
| Call_Client_AddressableDevices (client : PJRT_Client)
| Call_Client_AddressableMemories (client : PJRT_Client)
| Call_Device_AddressableMemories (device : PJRT_Device)
| Call_Memory_AddressableByDevices (memory : PJRT_Memory)
| Call_DeviceDescription_Attributes (device_description : PJRT_DeviceDescription)
| Call_TopologyDescription_Attributes (topology : PJRT_TopologyDescription)
| Call_Client_BufferFromHostBuffer (args : PJRT_Client_BufferFromHostBuffer_Args)
| Call_Client_CreateViewOfDeviceBuffer (args : PJRT_Client_CreateViewOfDeviceBuffer_Args)
| Call_Buffer_UnsafePointer (buffer : PJRT_Buffer)
| Call_Buffer_CopyToDevice (buffer : PJRT_Buffer) (dst_device : PJRT_Device)
| Call_Buffer_CopyToMemory (buffer : PJRT_Buffer) (dst_memory : PJRT_Memory)
| Call_Buffer_ReadyEvent (buffer : PJRT_Buffer)
| Call_Event_OnReady (event : PJRT_Event) (user_arg : OnReadyCallback)
| Call_Executable_NumOutputs (executable : PJRT_Executable)
| Call_LoadedExecutable_Execute (args : PJRT_LoadedExecutable_Execute_Args).

(** ** The world *)

(** What running a completion callback does on the host. *)
Inductive HostEvent : Type :=
| Invoked (callback : HostCallback)
| Destroyed (callback : HostCallback).

Record World : Type := MkWorld {
  (** entry points invoked, oldest first *)
  plugin_calls : list PluginCall;
  (** callbacks the plugin holds, waiting for their event *)
  on_ready_callbacks : list (PJRT_Event * OnReadyCallback);
  (** events that have completed, with the error they completed with *)
  completed_events : list (PJRT_Event * option PJRT_Error);
  (** calls of Promise::Set, oldest first *)
  promise_sets : list (Promise * Status);
  (** allocation counter of promises *)
  next_promise : Promise;
  (** host callbacks run and closures destroyed, oldest first *)
  host_log : list HostEvent;
  (** allocation counter of adapter objects *)
  next_address : N;
}.

Definition M (A : Type) : Type := World -> Outcome A * World.

#[global] Instance M_ret : MRet M := fun A a w => (Value a, w).

#[global] Instance M_bind : MBind M := fun A B f m w =>
  match m w with
  | (Value a, w') => f a w'
  | (Error s, w') => (Error s, w')
  | (Crashed c, w') => (Crashed c, w')
  end.

Definition fail {A} (s : Status) : M A := fun w => (Error s, w).
Definition crash {A} (c : Crash) : M A := fun w => (Crashed c, w).

(** TF_ASSIGN_OR_RETURN on a helper's result. *)
Definition lift_statusor {A} (r : StatusOr A) : M A :=
  match r with
  | IsOk a => mret a
  | NotOk s => fail s
  end.

Definition read {A} (f : World -> A) : M A := fun w => (Value (f w), w).
Definition update (f : World -> World) : M unit := fun w => (Value tt, f w).

Definition record_call (c : PluginCall) (w : World) : World :=
  MkWorld (plugin_calls w ++ [c]) (on_ready_callbacks w) (completed_events w)
          (promise_sets w) (next_promise w) (host_log w) (next_address w).

Definition log_call (c : PluginCall) : M unit := update (record_call c).

(** Invoke an entry point: the call is recorded and the plugin's report
    returned. *)
Definition invoke {A} (c : PluginCall) (r : PjrtResult A) : M (PjrtResult A) :=
  _ ← log_call c; mret r.

(** RETURN_STATUS_IF_PJRT_ERROR(expr, c_api) *)
Definition RETURN_STATUS_IF_PJRT_ERROR {A} (r : PjrtResult A) : M A :=
  match r with
  | PjrtOk out => mret out
  | PjrtErr e => fail (PjrtErrorToStatus e)
  end.

(** pjrt::LogFatalIfPjrtError(expr, c_api) *)
Definition LogFatalIfPjrtError {A} (r : PjrtResult A) : M A :=
  match r with
  | PjrtOk out => mret out
  | PjrtErr _ => crash LogFatal
  end.

(** ** Completion events *)

(** pjrt::PjrtErrorToStatus on a possibly null error pointer. *)
Definition OkStatus : Status := MkStatus kOk "".
Definition PjrtErrorPtrToStatus (error : option PJRT_Error) : Status :=
  match error with
  | None => OkStatus
  | Some e => PjrtErrorToStatus e
  end.

(** The bodies of the two closures, followed by the delete of the closure
    that the C trampoline does.  The closure of
    BufferFromHostBufferInternalImpl releases the error and calls
    on_done_with_host_buffer; the closure of MakePromiseTrackEvent sets
    the promise to the status of the error. *)
Definition run_on_ready (cb : OnReadyCallback) (error : option PJRT_Error)
    (w : World) : World :=
  match cb with
  | DoneWithHostBuffer f =>
      MkWorld (plugin_calls w) (on_ready_callbacks w) (completed_events w)
              (promise_sets w) (next_promise w)
              (host_log w ++ [Invoked f; Destroyed f]) (next_address w)
  | TrackPromise p =>
      MkWorld (plugin_calls w) (on_ready_callbacks w) (completed_events w)
              (promise_sets w ++ [(p, PjrtErrorPtrToStatus error)])
              (next_promise w) (host_log w) (next_address w)
  end.

Definition event_status (event : PJRT_Event) (w : World)
    : option (option PJRT_Error) :=
  snd <$> List.find (fun c => N.eqb (fst c) event) (completed_events w).

Definition add_on_ready_callback (event : PJRT_Event) (cb : OnReadyCallback)
    (w : World) : World :=
  MkWorld (plugin_calls w) (on_ready_callbacks w ++ [(event, cb)])
          (completed_events w) (promise_sets w) (next_promise w) (host_log w)
          (next_address w).

(** Modelled from the spec: the plugin's Event, which the adapter reaches
    through api->PJRT_Event_OnReady(&args), here with args.event = event
    and args.user_arg = cb.  An Event is a fire-once primitive: a callback
    registered on it is invoked once, with the error the event completed
    with, when the event completes, or promptly if it has completed
    already; a registration the plugin rejects with an error never invokes
    the callback. *)
Definition Event_OnReady (api : PJRT_Api) (event : PJRT_Event)
    (cb : OnReadyCallback) : M (PjrtResult unit) :=
  r ← invoke (Call_Event_OnReady event cb) (PJRT_Event_OnReady api event);
  match r with
  | PjrtErr e => mret (PjrtErr e)
  | PjrtOk _ =>
      completed ← read (event_status event);
      _ ← update (match completed with
                  | Some error => run_on_ready cb error
                  | None => add_on_ready_callback event cb
                  end);
      mret (PjrtOk tt)
  end.

(** Running the closures of a completed event. *)
Definition run_all (error : option PJRT_Error)
    (cs : list (PJRT_Event * OnReadyCallback)) (w : World) : World :=
  fold_left (fun w' c => run_on_ready (snd c) error w') cs w.

(** Modelled from the spec: the plugin completes [event] with [error].
    Every callback waiting on it runs, in registration order, and is
    forgotten.  An event that has completed does not complete again. *)
Definition event_completes (event : PJRT_Event) (error : option PJRT_Error)
    (w : World) : World :=
  match event_status event w with
  | Some _ => w
  | None =>
      let waiting :=
        List.filter (fun c => N.eqb (fst c) event) (on_ready_callbacks w) in
      let others :=
        List.filter (fun c => negb (N.eqb (fst c) event)) (on_ready_callbacks w) in
      run_all error waiting
        (MkWorld (plugin_calls w) others
                 (completed_events w ++ [(event, error)])
                 (promise_sets w) (next_promise w) (host_log w)
                 (next_address w))
  end.

(** ** Client, device, memory space and buffer objects *)

(** A PjRtCApiTopologyDescription: the plugin handle and the attributes
    read from the plugin at construction. *)
Record PjRtCApiTopologyDescription : Type := {
  c_topology_ : PJRT_TopologyDescription;
  topology_attributes_ : gmap string PjRtValueType;
}.

(** A PjRtCApiClient: its address and the members its constructor
    initializes.  Its device and memory-space containers are in
    [ClientGraph] below. *)
Record PjRtCApiClient : Type := {
  this_client : N;
  c_api_ : PJRT_Api;
  c_client_ : PJRT_Client;
  kv_callback_data_ : option (N * N);
  topo_desc_ : StatusOr PjRtCApiTopologyDescription;
  platform_version_ : string;
  platform_name_ : string;
  platform_id_ : N;
}.

(** A PjRtDevice* / PjRtMemorySpace* argument: the client() of the object
    and its plugin handle. *)
Record PjRtDevice : Type := {
  device_client : PjRtCApiClient;
  c_device : PJRT_Device;
}.

Record PjRtMemorySpace : Type := {
  memory_client : PjRtCApiClient;
  c_memory : PJRT_Memory;
}.

Record PjRtCApiBuffer : Type := MkBuffer {
  client_ : PjRtCApiClient;
  buffer_ : PJRT_Buffer;
  readiness_event_ : option PJRT_Event;
  readiness_promise_ : option Promise;
}.

(** PjRtCApiBuffer::PjRtCApiBuffer(client, buffer) *)
Definition new_PjRtCApiBuffer (client : PjRtCApiClient) (buffer : PJRT_Buffer)
    : PjRtCApiBuffer :=
  MkBuffer client buffer None None.

(** Pointer equality of two clients. *)
Definition same_client (a b : PjRtCApiClient) : bool :=
  N.eqb (this_client a) (this_client b).

(** ** PjRtCApiClient *)

Definition UnsafeBufferPointer_message (buffer_platform call_platform : string)
    : string :=
  "buffer passed to PjRtCApiClient::UnsafeBufferPointer() is from a "
  ++ "different client than that of the function call. Buffer's client "
  ++ "platform: '" ++ buffer_platform
  ++ "', function call's client platform: '" ++ call_platform ++ "'.".

Definition UnsafeBufferPointer (this : PjRtCApiClient) (buffer : PjRtCApiBuffer)
    : M Z :=
  if negb (same_client (client_ buffer) this) then
    fail (InvalidArgument
            (UnsafeBufferPointer_message (platform_name_ (client_ buffer))
                                         (platform_name_ this)))
  else
    r ← invoke (Call_Buffer_UnsafePointer (buffer_ buffer))
               (PJRT_Buffer_UnsafePointer (c_api_ this) (buffer_ buffer));
    RETURN_STATUS_IF_PJRT_ERROR r.

Definition BufferFromHostBuffer_unsupported : string :=
  "PJRT C API does not support HostBufferSemantics other than "
  ++ "HostBufferSemantics::kImmutableOnlyDuringCall, "
  ++ "HostBufferSemantics::kZeroCopy and "
  ++ "HostBufferSemantics::kImmutableUntilTransferCompletes.".

(** pjrt::ConvertToBufferMemoryLayoutData on an optional layout, with
    TF_ASSIGN_OR_RETURN. *)
Definition convert_layout (l : option Layout) : M (option BufferMemoryLayoutData) :=
  match l with
  | Some cpp_layout =>
      c_layout_data ← lift_statusor (ConvertToBufferMemoryLayoutData cpp_layout);
      mret (Some c_layout_data)
  | None => mret None
  end.

Definition BufferFromHostBufferInternalImpl (this : PjRtCApiClient)
    (data : list Byte.byte) (type : PrimitiveType) (dims : list Z)
    (byte_strides : option (list Z))
    (host_buffer_semantics : HostBufferSemantics)
    (on_done_with_host_buffer : option HostCallback)
    (device_or_memory : PjRtDevice + PjRtMemorySpace)
    (device_layout : option Layout) : M PjRtCApiBuffer :=
  if bool_decide (host_buffer_semantics ≠ kImmutableOnlyDuringCall)
     && bool_decide (host_buffer_semantics ≠ kZeroCopy)
     && bool_decide (host_buffer_semantics ≠ kImmutableUntilTransferCompletes)
  then fail (Unimplemented BufferFromHostBuffer_unsupported)
  else
    c_layout_data ← convert_layout device_layout;
    let args := {|
      bfh_client := c_client_ this;
      bfh_data := data;
      bfh_type := ConvertToPjRtBufferType type;
      bfh_dims := dims;
      bfh_byte_strides := byte_strides;
      bfh_device_layout := c_layout_data;
      bfh_host_buffer_semantics :=
        ConvertToPjRtHostBufferSemantics host_buffer_semantics;
      bfh_device :=
        match device_or_memory with inl d => Some (c_device d) | inr _ => None end;
      bfh_memory :=
        match device_or_memory with inl _ => None | inr m => Some (c_memory m) end;
    |} in
    r ← invoke (Call_Client_BufferFromHostBuffer args)
               (PJRT_Client_BufferFromHostBuffer (c_api_ this) args);
    out ← RETURN_STATUS_IF_PJRT_ERROR r;
    let buffer := new_PjRtCApiBuffer this (fst out) in
    let event := snd out in
    match on_done_with_host_buffer with
    | Some f =>
        r' ← Event_OnReady (c_api_ this) event (DoneWithHostBuffer f);
        _ ← RETURN_STATUS_IF_PJRT_ERROR r';
        mret buffer
    | None => mret buffer
    end.

(** The overloads of BufferFromHostBuffer: to a memory space with a device
    layout, to a device with a device layout, to a device. *)
Definition BufferFromHostBuffer_memory (this : PjRtCApiClient)
    data type dims byte_strides host_buffer_semantics on_done_with_host_buffer
    (memory_space : PjRtMemorySpace) (device_layout : option Layout) :=
  BufferFromHostBufferInternalImpl this data type dims byte_strides
    host_buffer_semantics on_done_with_host_buffer (inr memory_space)
    device_layout.

Definition BufferFromHostBuffer_device_layout (this : PjRtCApiClient)
    data type dims byte_strides host_buffer_semantics on_done_with_host_buffer
    (device : PjRtDevice) (device_layout : option Layout) :=
  BufferFromHostBufferInternalImpl this data type dims byte_strides
    host_buffer_semantics on_done_with_host_buffer (inl device) device_layout.

Definition BufferFromHostBuffer (this : PjRtCApiClient)
    data type dims byte_strides host_buffer_semantics on_done_with_host_buffer
    (device : PjRtDevice) :=
  BufferFromHostBufferInternalImpl this data type dims byte_strides
    host_buffer_semantics on_done_with_host_buffer (inl device) None.

Definition CreateViewOfDeviceBuffer_unsupported : string :=
  "The plugin does not support CreateViewOfDeviceBuffer".

Definition CreateViewOfDeviceBuffer (this : PjRtCApiClient) (device_ptr : N)
    (shape : Shape) (device : PjRtDevice)
    (on_delete_callback : option HostCallback) (stream : option Z)
    : M PjRtCApiBuffer :=
  c_layout_data ← convert_layout (layout shape);
  let args := {|
    cv_client := c_client_ this;
    cv_device_buffer_ptr := device_ptr;
    cv_dims := dimensions shape;
    cv_element_type := ConvertToPjRtBufferType (element_type shape);
    cv_layout := c_layout_data;
    cv_on_delete_callback := on_delete_callback;
    cv_device := c_device device;
    cv_stream := match stream with Some s => s | None => 0%Z end;
  |} in
  let c_api := c_api_ this in
  if (minor_version c_api <? 33)%Z then
    fail (Unimplemented CreateViewOfDeviceBuffer_unsupported)
  else
    r ← invoke (Call_Client_CreateViewOfDeviceBuffer args)
               (PJRT_Client_CreateViewOfDeviceBuffer c_api args);
    out ← RETURN_STATUS_IF_PJRT_ERROR r;
    mret (new_PjRtCApiBuffer this out).

(** ** PjRtCApiBuffer *)

(** PjRtBuffer::ToLiteralSync is inherited from the base class
    (pjrt_client.h) and ShapeUtil::ByteStrides is declared in
    shape_util.h.  The first materializes the buffer on the host, through
    whatever plugin calls it makes; the second computes the strides of a
    shape, or fails. *)
Class HostTransfer : Type := {
  ToLiteralSync : PjRtCApiBuffer -> M Literal;
  ByteStrides : Shape -> StatusOr (list Z);
}.

Context {host_transfer : HostTransfer}.

Definition CopyToDevice (this : PjRtCApiBuffer) (dst_device : PjRtDevice)
    : M PjRtCApiBuffer :=
  if same_client (device_client dst_device) (client_ this) then
    let api := c_api_ (client_ this) in
    r ← invoke (Call_Buffer_CopyToDevice (buffer_ this) (c_device dst_device))
               (PJRT_Buffer_CopyToDevice api (buffer_ this) (c_device dst_device));
    dst_buffer ← RETURN_STATUS_IF_PJRT_ERROR r;
    mret (new_PjRtCApiBuffer (client_ this) dst_buffer)
  else
    (* Copy across PjRtClients by copying through host *)
    literal ← ToLiteralSync this;
    byte_strides ← lift_statusor (ByteStrides (shape literal));
    BufferFromHostBuffer (device_client dst_device)
      (untyped_data literal) (element_type (shape literal))
      (dimensions (shape literal)) (Some byte_strides) kZeroCopy
      (Some (FreesLiteral literal)) dst_device.

Definition CopyToMemorySpace_unsupported : string :=
  "The plugin has PJRT API version 0.32 which does not support "
  ++ "CopyToMemorySpace".

Definition CopyToMemorySpace (this : PjRtCApiBuffer) (dst_memory : PjRtMemorySpace)
    : M PjRtCApiBuffer :=
  let api := c_api_ (client_ this) in
  if (minor_version api <? 32)%Z then
    fail (Unimplemented CopyToMemorySpace_unsupported)
  else if same_client (memory_client dst_memory) (client_ this) then
    r ← invoke (Call_Buffer_CopyToMemory (buffer_ this) (c_memory dst_memory))
               (PJRT_Buffer_CopyToMemory api (buffer_ this) (c_memory dst_memory));
    dst_buffer ← RETURN_STATUS_IF_PJRT_ERROR r;
    mret (new_PjRtCApiBuffer (client_ this) dst_buffer)
  else
    (* Copy across PjRtClients by copying through host *)
    literal ← ToLiteralSync this;
    byte_strides ← lift_statusor (ByteStrides (shape literal));
    BufferFromHostBuffer_memory (memory_client dst_memory)
      (untyped_data literal) (element_type (shape literal))
      (dimensions (shape literal)) (Some byte_strides) kZeroCopy
      (Some (FreesLiteral literal)) dst_memory None.

(** The methods below assign members of the buffer; they return the
    buffer as they leave it. *)

Definition GetReadyEvent (this : PjRtCApiBuffer)
    : M (PJRT_Event * PjRtCApiBuffer) :=
  match readiness_event_ this with
  | None =>
      let api := c_api_ (client_ this) in
      r ← invoke (Call_Buffer_ReadyEvent (buffer_ this))
                 (PJRT_Buffer_ReadyEvent api (buffer_ this));
      event ← LogFatalIfPjrtError r;
      mret (event,
            MkBuffer (client_ this) (buffer_ this) (Some event)
                     (readiness_promise_ this))
  | Some event => mret (event, this)
  end.

(** Modelled from the spec: PjRtFuture<Status>::CreatePromise()
    (pjrt_future.h) makes the writable side of a new single-assignment
    completion value. *)
Definition CreatePromise : M Promise := fun w =>
  (Value (next_promise w),
   MkWorld (plugin_calls w) (on_ready_callbacks w) (completed_events w)
           (promise_sets w) (N.succ (next_promise w)) (host_log w)
           (next_address w)).

(** Modelled from the spec: promise->Set(status) resolves the promise;
    the world keeps every call of it. *)
Definition Promise_Set (promise : Promise) (status : Status) : M unit :=
  update (fun w =>
    MkWorld (plugin_calls w) (on_ready_callbacks w) (completed_events w)
            (promise_sets w ++ [(promise, status)]) (next_promise w)
            (host_log w) (next_address w)).

Definition MakePromiseTrackEvent (this : PjRtCApiBuffer) : M PjRtCApiBuffer :=
  match readiness_promise_ this with
  | None => crash CheckFailed
  | Some promise =>
      let api := c_api_ (client_ this) in
      got ← GetReadyEvent this;
      r ← Event_OnReady api (fst got) (TrackPromise promise);
      match r with
      | PjrtErr error =>
          _ ← Promise_Set promise (PjrtErrorToStatus error);
          mret (snd got)
      | PjrtOk _ => mret (snd got)
      end
  end.

(** A PjRtFuture<Status>: the promise it reads, or the plugin event it
    was converted from (pjrt::ConvertCEventToCppFuture), with whether a
    continuation holding the callback data was attached to it. *)
Inductive PjRtFuture : Type :=
| FutureOfPromise (promise : Promise)
| FutureOfEvent (event : PJRT_Event) (holds_callback_data : bool).

Definition GetReadyFuture (this : PjRtCApiBuffer)
    : M (PjRtFuture * PjRtCApiBuffer) :=
  match readiness_promise_ this with
  | None =>
      promise ← CreatePromise;
      this' ← MakePromiseTrackEvent
                (MkBuffer (client_ this) (buffer_ this) (readiness_event_ this)
                          (Some promise));
      mret (FutureOfPromise promise, this')
  | Some promise => mret (FutureOfPromise promise, this)
  end.

(** The calls of Set on a promise, and what a future on it shows: the
    status of the first one. *)
Definition sets_of (promise : Promise) (w : World) : list Status :=
  snd <$> List.filter (fun s => N.eqb (fst s) promise) (promise_sets w).

Definition promise_status (promise : Promise) (w : World) : option Status :=
  head (sets_of promise w).

(** The status a caller sees on a future, once there is one. *)
Definition future_status (f : PjRtFuture) (w : World) : option Status :=
  match f with
  | FutureOfPromise promise => promise_status promise w
  | FutureOfEvent event _ => PjrtErrorPtrToStatus <$> event_status event w
  end.

(** ** PjRtCApiLoadedExecutable *)

(** xla::SendCallback and xla::RecvCallback: a channel and a
    std::function, named by a number. *)
Record SendCallback : Type := {
  send_channel_id : Z;
  send_callback : N;
}.

Record RecvCallback : Type := {
  recv_channel_id : Z;
  recv_callback : N;
}.

Record ExecuteOptions : Type := {
  launch_id : Z;
  send_callbacks : list (list SendCallback);
  recv_callbacks : list (list RecvCallback);
  use_major_to_minor_data_layout_for_callbacks : bool;
}.

(** SendRecvCallbackData.  A slot of send_callback_functions holds the
    std::function it was assigned, or is empty; c_send_callback_lists holds
    the data() pointer of each list of c_send_callbacks. *)
Record SendRecvCallbackData : Type := {
  c_send_callbacks : list (list PJRT_CallbackInfo);
  c_send_callback_lists : list (list PJRT_CallbackInfo);
  send_callback_functions : list (option N);
  c_recv_callbacks : list (list PJRT_CallbackInfo);
  c_recv_callback_lists : list (list PJRT_CallbackInfo);
  recv_callback_functions : list (option N);
}.

Definition new_SendRecvCallbackData : SendRecvCallbackData :=
  {| c_send_callbacks := []; c_send_callback_lists := [];
     send_callback_functions := [];
     c_recv_callbacks := []; c_recv_callback_lists := [];
     recv_callback_functions := [] |}.

Record PjRtCApiLoadedExecutable : Type := {
  executable_client_ : PjRtCApiClient;
  c_loaded_executable : PJRT_LoadedExecutable;
  c_executable : PJRT_Executable;
}.

Definition Convert2DCppBuffersToCBuffers (cpp_lists : list (list PjRtCApiBuffer))
    : list (list PJRT_Buffer) :=
  map (map buffer_) cpp_lists.

(** Reads c_lists[i][j] for i < outer_size and j < inner_size, where the
    int inner_size is compared with the size_t j.  [None] is a read
    outside a list. *)
Definition Convert2DCBuffersToCppBuffers (c_lists : list (list PJRT_Buffer))
    (outer_size : nat) (inner_size : Z) (client : PjRtCApiClient)
    : option (list (list PjRtCApiBuffer)) :=
  mapM (fun i =>
          mapM (fun j =>
                  c_list ← c_lists !! i;
                  c_buffer ← c_list !! j;
                  Some (new_PjRtCApiBuffer client c_buffer))
               (seq 0 (Z.to_nat (int_to_size_t inner_size))))
       (seq 0 outer_size).

(** CppSendCallbackToC / CppRecvCallbackToC over one list: the callback is
    stored in the slot &functions[func_count++] and the info points to
    it.  [None] is a slot outside the vector. *)
Fixpoint CppCallbackListToC {T} (channel : T -> Z) (fn : T -> N)
    (cpp_list : list T) (func_count : nat) (functions : list (option N))
    : option (list PJRT_CallbackInfo * nat * list (option N)) :=
  match cpp_list with
  | [] => Some ([], func_count, functions)
  | cpp_callback :: rest =>
      if decide (func_count < length functions) then
        '(c_list, n, functions') ←
          CppCallbackListToC channel fn rest (S func_count)
            (<[func_count := Some (fn cpp_callback)]> functions);
        Some ({| info_channel_id := channel cpp_callback;
                 info_user_arg := func_count |} :: c_list, n, functions')
      else None
  end.

Fixpoint CppCallbackListsLoop {T} (channel : T -> Z) (fn : T -> N)
    (cpp_lists : list (list T)) (func_count : nat)
    (functions : list (option N)) (c_lists : list (list PJRT_CallbackInfo))
    : option (list (option N) * list (list PJRT_CallbackInfo)) :=
  match cpp_lists with
  | [] => Some (functions, c_lists)
  | cpp_list :: rest =>
      '(c_list, n, functions') ←
        CppCallbackListToC channel fn cpp_list func_count functions;
      CppCallbackListsLoop channel fn rest n functions' (c_lists ++ [c_list])
  end.

Definition CppCallbackListsToC {T} (channel : T -> Z) (fn : T -> N)
    (cpp_lists : list (list T)) (functions : list (option N))
    (c_lists : list (list PJRT_CallbackInfo))
    : option (list (option N) * list (list PJRT_CallbackInfo)) :=
  match cpp_lists with
  | [] => Some (functions, c_lists)
  | first :: _ =>
      CppCallbackListsLoop channel fn cpp_lists 0
        (resize (length cpp_lists * length first) None functions) c_lists
  end.

Definition CppSendCallbackListsToC :=
  CppCallbackListsToC send_channel_id send_callback.
Definition CppRecvCallbackListsToC :=
  CppCallbackListsToC recv_channel_id recv_callback.

(** What GetCommonExecuteArgs returns and what it leaves in the storage
    its reference parameters name. *)
Record CommonExecuteArgs : Type := {
  common_args : PJRT_LoadedExecutable_Execute_Args;
  c_output_lists_storage : list (list PJRT_Buffer);
  device_complete_events : option (list PJRT_Event);
  callback_data : SendRecvCallbackData;
}.

Definition GetCommonExecuteArgs_unsupported : string :=
  "PJRT C API doesn't support "
  ++ "ExecuteOptions::use_major_to_minor_data_layout_for_callbacks = false".

(** A defined value for a crash of the marshalling helpers. *)
Definition or_undefined {A} (o : option A) : M A :=
  match o with
  | Some a => mret a
  | None => crash UndefinedBehaviour
  end.

Definition GetCommonExecuteArgs (this : PjRtCApiLoadedExecutable)
    (argument_handles : list (list PjRtCApiBuffer)) (options : ExecuteOptions)
    (c_options : PJRT_ExecuteOptions)
    (c_output_lists_storage : list (list PJRT_Buffer))
    (device_complete_events : option (list PJRT_Event))
    (callback_data : SendRecvCallbackData) : M CommonExecuteArgs :=
  let using_host_callbacks :=
    negb (bool_decide (send_callbacks options = []))
    || negb (bool_decide (recv_callbacks options = [])) in
  if using_host_callbacks
     && negb (use_major_to_minor_data_layout_for_callbacks options)
  then fail (Unimplemented GetCommonExecuteArgs_unsupported)
  else
    let c_options :=
      {| opt_launch_id := launch_id options;
         opt_send_callbacks := opt_send_callbacks c_options;
         opt_recv_callbacks := opt_recv_callbacks c_options;
         num_send_ops := num_send_ops c_options;
         num_recv_ops := num_recv_ops c_options |} in
    let num_devices := length argument_handles in
    match argument_handles with
    | [] => crash CheckFailed
    | first_arguments :: _ =>
        let num_args := length first_arguments in
        events ←
          (if bool_decide (is_Some device_complete_events) || using_host_callbacks
           then
             evs ← or_undefined device_complete_events;
             mret (Some (resize num_devices 0%N evs))
           else mret None);
        let c_argument_lists_storage :=
          Convert2DCppBuffersToCBuffers argument_handles in
        let api := c_api_ (executable_client_ this) in
        r ← invoke (Call_Executable_NumOutputs (c_executable this))
                   (PJRT_Executable_NumOutputs api (c_executable this));
        num_outputs ← RETURN_STATUS_IF_PJRT_ERROR r;
        let outer_size := num_devices in
        let inner_size := N.to_nat num_outputs in
        let storage :=
          map (resize inner_size 0%N)
              (resize outer_size [] c_output_lists_storage) in
        sends ←
          (match send_callbacks options with
           | [] => mret (c_options, callback_data)
           | first :: _ =>
               converted ← or_undefined
                 (CppSendCallbackListsToC (send_callbacks options)
                    (send_callback_functions callback_data)
                    (c_send_callbacks callback_data));
               let lists := c_send_callback_lists callback_data ++ snd converted in
               mret ({| opt_launch_id := opt_launch_id c_options;
                        opt_send_callbacks := lists;
                        opt_recv_callbacks := opt_recv_callbacks c_options;
                        num_send_ops := length first;
                        num_recv_ops := num_recv_ops c_options |},
                     {| c_send_callbacks := snd converted;
                        c_send_callback_lists := lists;
                        send_callback_functions := fst converted;
                        c_recv_callbacks := c_recv_callbacks callback_data;
                        c_recv_callback_lists := c_recv_callback_lists callback_data;
                        recv_callback_functions :=
                          recv_callback_functions callback_data |})
           end);
        recvs ←
          (match recv_callbacks options with
           | [] => mret sends
           | first :: _ =>
               converted ← or_undefined
                 (CppRecvCallbackListsToC (recv_callbacks options)
                    (recv_callback_functions (snd sends))
                    (c_recv_callbacks (snd sends)));
               let lists := c_recv_callback_lists (snd sends) ++ snd converted in
               mret ({| opt_launch_id := opt_launch_id (fst sends);
                        opt_send_callbacks := opt_send_callbacks (fst sends);
                        opt_recv_callbacks := lists;
                        num_send_ops := num_send_ops (fst sends);
                        num_recv_ops := length first |},
                     {| c_send_callbacks := c_send_callbacks (snd sends);
                        c_send_callback_lists := c_send_callback_lists (snd sends);
                        send_callback_functions :=
                          send_callback_functions (snd sends);
                        c_recv_callbacks := snd converted;
                        c_recv_callback_lists := lists;
                        recv_callback_functions := fst converted |})
           end);
        mret {|
          common_args := {|
            ex_executable := c_loaded_executable this;
            ex_options := fst recvs;
            ex_num_devices := num_devices;
            ex_num_args := num_args;
            ex_argument_lists := c_argument_lists_storage;
            ex_output_lists := storage;
            ex_device_complete_events := events;
            ex_execute_device := None;
          |};
          c_output_lists_storage := storage;
          device_complete_events := events;
          callback_data := snd recvs;
        |}
    end.

(** The PJRT_ExecuteOptions local of Execute and
    ExecuteWithSingleDevice: num_send_ops and num_recv_ops are set to 0,
    the other members are left for GetCommonExecuteArgs to assign. *)
Definition new_PJRT_ExecuteOptions : PJRT_ExecuteOptions :=
  {| opt_launch_id := 0; opt_send_callbacks := []; opt_recv_callbacks := [];
     num_send_ops := 0; num_recv_ops := 0 |}.

Definition set_execute_device (args : PJRT_LoadedExecutable_Execute_Args)
    (device : option PJRT_Device) : PJRT_LoadedExecutable_Execute_Args :=
  {| ex_executable := ex_executable args;
     ex_options := ex_options args;
     ex_num_devices := ex_num_devices args;
     ex_num_args := ex_num_args args;
     ex_argument_lists := ex_argument_lists args;
     ex_output_lists := ex_output_lists args;
     ex_device_complete_events := ex_device_complete_events args;
     ex_execute_device := device |}.

(** The storage after the plugin has written through the pointers it
    was given: every element of the lists as they were sized. *)
Definition written_outputs (outs : ExecuteOutputs)
    (storage : list (list PJRT_Buffer)) : list (list PJRT_Buffer) :=
  imap (fun i c_list => imap (fun j _ => written_output outs i j) c_list)
       storage.

Definition written_events (outs : ExecuteOutputs) (events : list PJRT_Event)
    : list PJRT_Event :=
  imap (fun i _ => written_event outs i) events.

Definition Execute (this : PjRtCApiLoadedExecutable)
    (argument_handles : list (list PjRtCApiBuffer)) (options : ExecuteOptions)
    (returned_futures : option (list PjRtFuture))
    : M (list (list PjRtCApiBuffer) * option (list PjRtFuture)) :=
  let device_complete_events :=
    if bool_decide (is_Some returned_futures) then Some [] else None in
  common ← GetCommonExecuteArgs this argument_handles options
             new_PJRT_ExecuteOptions [] device_complete_events
             new_SendRecvCallbackData;
  let args := set_execute_device (common_args common) None in
  let api := c_api_ (executable_client_ this) in
  r ← invoke (Call_LoadedExecutable_Execute args)
             (PJRT_LoadedExecutable_Execute api args);
  outs ← RETURN_STATUS_IF_PJRT_ERROR r;
  let storage := written_outputs outs (c_output_lists_storage common) in
  let returned_futures' :=
    match device_complete_events with
    | Some _ =>
        let holds :=
          negb (bool_decide (c_send_callbacks (callback_data common) = []))
          || negb (bool_decide (c_recv_callbacks (callback_data common) = [])) in
        let device_complete_futures :=
          match ex_device_complete_events args with
          | Some events =>
              map (fun event => FutureOfEvent event holds)
                  (written_events outs events)
          | None => []
          end in
        if bool_decide (is_Some returned_futures)
        then Some device_complete_futures else returned_futures
    | None => returned_futures
    end in
  first ← or_undefined (storage !! 0%nat);
  buffers ← or_undefined
    (Convert2DCBuffersToCppBuffers storage (ex_num_devices args)
       (size_t_to_int (Z.of_nat (length first))) (executable_client_ this));
  mret (buffers, returned_futures').

Definition ExecuteWithSingleDevice_unsupported : string :=
  "Send/recv callbacks not implemented for "
  ++ "PjRtCApiLoadedExecutable::ExecuteWithSingleDevice.".

Definition ExecuteWithSingleDevice (this : PjRtCApiLoadedExecutable)
    (argument_handles : list PjRtCApiBuffer) (device : PjRtDevice)
    (options : ExecuteOptions) (returned_future : option PjRtFuture)
    (fill_future : bool) : M (list PjRtCApiBuffer * option PjRtFuture) :=
  if negb (bool_decide (send_callbacks options = []))
     || negb (bool_decide (recv_callbacks options = []))
  then fail (MkStatus kUnimplemented ExecuteWithSingleDevice_unsupported)
  else
    let argument_handles_vec := [argument_handles] in
    let device_complete_events := if fill_future then Some [] else None in
    common ← GetCommonExecuteArgs this argument_handles_vec options
               new_PJRT_ExecuteOptions [] device_complete_events
               new_SendRecvCallbackData;
    let args := set_execute_device (common_args common) (Some (c_device device)) in
    let api := c_api_ (executable_client_ this) in
    r ← invoke (Call_LoadedExecutable_Execute args)
               (PJRT_LoadedExecutable_Execute api args);
    outs ← RETURN_STATUS_IF_PJRT_ERROR r;
    let storage := written_outputs outs (c_output_lists_storage common) in
    returned_future' ←
      (if fill_future then
         events ← or_undefined (ex_device_complete_events args);
         event ← or_undefined (written_events outs events !! 0%nat);
         mret (Some (FutureOfEvent event false))
       else mret returned_future);
    first ← or_undefined (storage !! 0%nat);
    buffers ← or_undefined
      (Convert2DCBuffersToCppBuffers storage (ex_num_devices args)
         (size_t_to_int (Z.of_nat (length first))) (executable_client_ this));
    result ← or_undefined (buffers !! 0%nat);
    mret (result, returned_future').

Definition ExecuteSharded (this : PjRtCApiLoadedExecutable)
    argument_handles device options returned_future fill_future :=
  ExecuteWithSingleDevice this argument_handles device options returned_future
    fill_future.

Definition ExecutePortable (this : PjRtCApiLoadedExecutable)
    argument_handles device options returned_future fill_future :=
  ExecuteWithSingleDevice this argument_handles device options returned_future
    fill_future.

(** ** Helpers that ask the plugin *)

(** Helpers declared outside this translation unit that the client and
    its objects call: pjrt::PjrtApi (pjrt_api.h);
    pjrt::ConvertToPjRtNamedValueList, pjrt::ConvertFromPjRtNamedValueList,
    pjrt::GetDeviceDescription, pjrt::GetTopologyDescription,
    pjrt::GetPlatformVersion and pjrt::GetPlatformName
    (pjrt_c_api_helpers.h); tsl::Fingerprint64.  The last four of
    pjrt_c_api_helpers.h ask the plugin: they are computations, through
    whatever entry points they invoke, and may end the process.  The
    error of GetTopologyDescription is the status of the StatusOr it
    returns. *)
Class ClientHelpers : Type := {
  PjrtApi : string -> StatusOr (option PJRT_Api);
  ConvertToPjRtNamedValueList :
    gmap string PjRtValueType -> Z -> StatusOr (list PJRT_NamedValue);
  ConvertFromPjRtNamedValueList :
    list PJRT_NamedValue -> gmap string PjRtValueType;
  GetDeviceDescription : PJRT_Api -> PJRT_Device -> M PJRT_DeviceDescription;
  GetTopologyDescription :
    PJRT_Client -> PJRT_Api -> M PJRT_TopologyDescription;
  GetPlatformVersion : PJRT_Client -> PJRT_Api -> M string;
  GetPlatformName : PJRT_Client -> PJRT_Api -> M string;
  Fingerprint64 : string -> N;
}.

Context {client_helpers : ClientHelpers}.

(** ** Device descriptions *)

(** PjRtDeviceAttribute, as InitAttributes constructs it. *)
Inductive PjRtDeviceAttribute : Type :=
| StringAttribute (string_value : string)
| Int64Attribute (int64_value : Z)
| Int64ListAttribute (int64_array : list Z).

(** The loop of PjRtCApiDeviceDescription::InitAttributes. *)
Fixpoint InitAttributes_loop (attributes : list PJRT_NamedValue)
    (attributes_ : gmap string PjRtDeviceAttribute)
    : M (gmap string PjRtDeviceAttribute) :=
  match attributes with
  | [] => mret attributes_
  | (attribute_name, attribute) :: rest =>
      match attribute with
      | StringValue string_value =>
          InitAttributes_loop rest
            (<[attribute_name := StringAttribute string_value]> attributes_)
      | Int64Value int64_value =>
          InitAttributes_loop rest
            (<[attribute_name := Int64Attribute int64_value]> attributes_)
      | Int64ListValue int64_array =>
          InitAttributes_loop rest
            (<[attribute_name := Int64ListAttribute int64_array]> attributes_)
      | _ => crash LogFatal
      end
  end.

(** PjRtCApiDeviceDescription::InitAttributes; what it returns is what
    it leaves in the member attributes_. *)
Definition InitAttributes (api : PJRT_Api)
    (device_description : PJRT_DeviceDescription)
    : M (gmap string PjRtDeviceAttribute) :=
  r ← invoke (Call_DeviceDescription_Attributes device_description)
             (PJRT_DeviceDescription_Attributes api device_description);
  attributes ← LogFatalIfPjrtError r;
  InitAttributes_loop attributes ∅.

Record PjRtCApiDeviceDescription : Type := {
  device_description_ : PJRT_DeviceDescription;
  attributes_ : gmap string PjRtDeviceAttribute;
}.

(** PjRtCApiDeviceDescription::PjRtCApiDeviceDescription *)
Definition new_PjRtCApiDeviceDescription (api : PJRT_Api)
    (device_description : PJRT_DeviceDescription)
    : M PjRtCApiDeviceDescription :=
  attributes ← InitAttributes api device_description;
  mret {| device_description_ := device_description;
          attributes_ := attributes |}.

(** ** Devices and memory spaces of a client *)

(** The device and memory-space objects a client owns.  A pointer to one
    of them is its position in owned_devices_ (owned_memory_spaces_),
    where the object stays from its creation on. *)
Record PjRtCApiDevice : Type := {
  device_ : PJRT_Device;
  description_ : PjRtCApiDeviceDescription;
  memory_spaces_ : list nat;
}.

(** PjRtCApiDevice::PjRtCApiDevice: the member description_ is
    constructed from what pjrt::GetDeviceDescription returns. *)
Definition new_PjRtCApiDevice (api : PJRT_Api) (device : PJRT_Device)
    : M PjRtCApiDevice :=
  device_description ← GetDeviceDescription api device;
  description ← new_PjRtCApiDeviceDescription api device_description;
  mret {| device_ := device; description_ := description;
          memory_spaces_ := [] |}.

Record PjRtCApiMemorySpace : Type := {
  c_memory_ : PJRT_Memory;
  memory_devices_ : list nat;
}.

Record ClientGraph : Type := {
  owned_devices_ : list PjRtCApiDevice;
  devices_ : list nat;
  addressable_devices_ : list nat;
  c_to_cpp_device_map_ : gmap N nat;
  owned_memory_spaces_ : list PjRtCApiMemorySpace;
  addressable_memory_spaces_ : list nat;
  c_to_cpp_memory_map_ : gmap N nat;
}.

Definition new_ClientGraph : ClientGraph :=
  {| owned_devices_ := []; devices_ := []; addressable_devices_ := [];
     c_to_cpp_device_map_ := ∅;
     owned_memory_spaces_ := []; addressable_memory_spaces_ := [];
     c_to_cpp_memory_map_ := ∅ |}.

(** Modelled from the spec: GetCppDevice and GetCppMemory
    (pjrt_c_api_client.h) look an object up through the handle→object
    mapping of its client; a handle the mapping does not have fails a
    CHECK. *)
Definition GetCppDevice (g : ClientGraph) (c_device : PJRT_Device) : M nat :=
  match c_to_cpp_device_map_ g !! c_device with
  | Some cpp_device => mret cpp_device
  | None => crash CheckFailed
  end.

Definition GetCppMemory (g : ClientGraph) (c_memory : PJRT_Memory) : M nat :=
  match c_to_cpp_memory_map_ g !! c_memory with
  | Some cpp_memory => mret cpp_memory
  | None => crash CheckFailed
  end.

(** Body of the loop "Initialize devices", from the device object the
    constructor has made: it is appended to owned_devices_ and entered,
    by its position, in devices_ and under its handle in the map. *)
Definition add_device (g : ClientGraph) (device : PJRT_Device)
    (cpp_device : PjRtCApiDevice) : ClientGraph :=
  let position := length (owned_devices_ g) in
  {| owned_devices_ := owned_devices_ g ++ [cpp_device];
     devices_ := devices_ g ++ [position];
     addressable_devices_ := addressable_devices_ g;
     c_to_cpp_device_map_ := <[device := position]> (c_to_cpp_device_map_ g);
     owned_memory_spaces_ := owned_memory_spaces_ g;
     addressable_memory_spaces_ := addressable_memory_spaces_ g;
     c_to_cpp_memory_map_ := c_to_cpp_memory_map_ g |}.

(** The loop "Initialize devices" over the handles still to wrap. *)
Fixpoint InitOwnedDevices (api : PJRT_Api) (devices : list PJRT_Device)
    (g : ClientGraph) : M ClientGraph :=
  match devices with
  | [] => mret g
  | device :: rest =>
      cpp_device ← new_PjRtCApiDevice api device;
      InitOwnedDevices api rest (add_device g device cpp_device)
  end.

(** Body of the loop "Initialize addressable devices". *)
Definition set_addressable_devices (g : ClientGraph) (ds : list nat)
    : ClientGraph :=
  {| owned_devices_ := owned_devices_ g;
     devices_ := devices_ g;
     addressable_devices_ := ds;
     c_to_cpp_device_map_ := c_to_cpp_device_map_ g;
     owned_memory_spaces_ := owned_memory_spaces_ g;
     addressable_memory_spaces_ := addressable_memory_spaces_ g;
     c_to_cpp_memory_map_ := c_to_cpp_memory_map_ g |}.

(** Body of the loop "Initialize addressable memory spaces". *)
Definition add_memory (g : ClientGraph) (memory : PJRT_Memory) : ClientGraph :=
  let cpp_memory := length (owned_memory_spaces_ g) in
  {| owned_devices_ := owned_devices_ g;
     devices_ := devices_ g;
     addressable_devices_ := addressable_devices_ g;
     c_to_cpp_device_map_ := c_to_cpp_device_map_ g;
     owned_memory_spaces_ :=
       owned_memory_spaces_ g
       ++ [{| c_memory_ := memory; memory_devices_ := [] |}];
     addressable_memory_spaces_ := addressable_memory_spaces_ g ++ [cpp_memory];
     c_to_cpp_memory_map_ := <[memory := cpp_memory]> (c_to_cpp_memory_map_ g) |}.

Definition set_owned_devices (g : ClientGraph) (ds : list PjRtCApiDevice)
    : ClientGraph :=
  {| owned_devices_ := ds;
     devices_ := devices_ g;
     addressable_devices_ := addressable_devices_ g;
     c_to_cpp_device_map_ := c_to_cpp_device_map_ g;
     owned_memory_spaces_ := owned_memory_spaces_ g;
     addressable_memory_spaces_ := addressable_memory_spaces_ g;
     c_to_cpp_memory_map_ := c_to_cpp_memory_map_ g |}.

Definition set_owned_memory_spaces (g : ClientGraph)
    (ms : list PjRtCApiMemorySpace) : ClientGraph :=
  {| owned_devices_ := owned_devices_ g;
     devices_ := devices_ g;
     addressable_devices_ := addressable_devices_ g;
     c_to_cpp_device_map_ := c_to_cpp_device_map_ g;
     owned_memory_spaces_ := ms;
     addressable_memory_spaces_ := addressable_memory_spaces_ g;
     c_to_cpp_memory_map_ := c_to_cpp_memory_map_ g |}.

(** The loop "Attach memory spaces to devices" over the addressable
    devices still to visit.  An error of the plugin leaves the loop: by
    LOG(FATAL) unless its code is UNIMPLEMENTED, by break if it is. *)
Fixpoint AttachMemorySpaces (api : PJRT_Api) (devices : list nat)
    (g : ClientGraph) : M ClientGraph :=
  match devices with
  | [] => mret g
  | device :: rest =>
      cpp_device ← or_undefined (owned_devices_ g !! device);
      r ← invoke (Call_Device_AddressableMemories (device_ cpp_device))
                 (PJRT_Device_AddressableMemories api (device_ cpp_device));
      match r with
      | PjrtErr device_error =>
          if bool_decide (GetErrorCode device_error ≠ PJRT_Error_Code_UNIMPLEMENTED)
          then crash LogFatal
          else mret g
      | PjrtOk memories =>
          cpp_memories ← mapM (GetCppMemory g) memories;
          AttachMemorySpaces api rest
            (set_owned_devices g
               (<[device := {| device_ := device_ cpp_device;
                               description_ := description_ cpp_device;
                               memory_spaces_ :=
                                 memory_spaces_ cpp_device ++ cpp_memories |}]>
                  (owned_devices_ g)))
      end
  end.

(** The loop "Attach devices to memory spaces". *)
Fixpoint AttachDevices (api : PJRT_Api) (memories : list nat)
    (g : ClientGraph) : M ClientGraph :=
  match memories with
  | [] => mret g
  | memory :: rest =>
      cpp_memory ← or_undefined (owned_memory_spaces_ g !! memory);
      r ← invoke (Call_Memory_AddressableByDevices (c_memory_ cpp_memory))
                 (PJRT_Memory_AddressableByDevices api (c_memory_ cpp_memory));
      attached ← LogFatalIfPjrtError r;
      cpp_devices ← mapM (GetCppDevice g) attached;
      AttachDevices api rest
        (set_owned_memory_spaces g
           (<[memory := {| c_memory_ := c_memory_ cpp_memory;
                           memory_devices_ :=
                             memory_devices_ cpp_memory ++ cpp_devices |}]>
              (owned_memory_spaces_ g)))
  end.

(** The step "Initialize addressable memory spaces". *)
Definition InitAddressableMemorySpaces (api : PJRT_Api) (c_client : PJRT_Client)
    (g : ClientGraph) : M ClientGraph :=
  r ← invoke (Call_Client_AddressableMemories c_client)
             (PJRT_Client_AddressableMemories api c_client);
  match r with
  | PjrtOk memories => mret (foldl add_memory g memories)
  | PjrtErr client_error =>
      if bool_decide (GetErrorCode client_error ≠ PJRT_Error_Code_UNIMPLEMENTED)
      then crash LogFatal
      else mret g
  end.

(** The steps "Initialize devices" and "Initialize addressable devices"
    of InitDevicesAndMemorySpaces. *)
Definition InitClientDevices (api : PJRT_Api) (c_client : PJRT_Client)
    (g : ClientGraph) : M ClientGraph :=
  (* Initialize devices. *)
  r ← invoke (Call_Client_Devices c_client) (PJRT_Client_Devices api c_client);
  devices ← LogFatalIfPjrtError r;
  g ← InitOwnedDevices api devices g;
  (* Initialize addressable devices. *)
  r ← invoke (Call_Client_AddressableDevices c_client)
             (PJRT_Client_AddressableDevices api c_client);
  addressable ← LogFatalIfPjrtError r;
  cpp_devices ← mapM (GetCppDevice g) addressable;
  mret (set_addressable_devices g (addressable_devices_ g ++ cpp_devices)).

Definition InitDevicesAndMemorySpaces (api : PJRT_Api) (c_client : PJRT_Client)
    (g : ClientGraph) : M ClientGraph :=
  (* Initialize devices.  Initialize addressable devices. *)
  g ← InitClientDevices api c_client g;
  (* Initialize addressable memory spaces. *)
  g ← InitAddressableMemorySpaces api c_client g;
  (* Attach memory spaces to devices. *)
  g ← AttachMemorySpaces api (addressable_devices_ g) g;
  (* Attach devices to memory spaces. *)
  AttachDevices api (addressable_memory_spaces_ g) g.

(** ** The topology description of a client *)




(** ** API access *)


Definition newline : string := String (Ascii.ascii_of_nat 10) EmptyString.





(** ** Vocabulary of the properties *)

(** [part] occurs in [msg]. *)
Definition names (msg part : string) : Prop :=
  exists before after, msg = (before ++ part ++ after)%string.

(** A computation that leaves the world as it is. *)
Definition quiet {A} (m : M A) : Prop := forall w, snd (m w) = w.

(** The layout of the shape, if it has one, converts. *)
Definition layout_converts (shape : Shape) : Prop :=
  match layout shape with
  | Some l => exists c, ConvertToBufferMemoryLayoutData l = IsOk c
  | None => True
  end.

Definition set_use_major_to_minor (b : bool) (options : ExecuteOptions)
    : ExecuteOptions :=
  {| launch_id := launch_id options;
     send_callbacks := send_callbacks options;
     recv_callbacks := recv_callbacks options;
     use_major_to_minor_data_layout_for_callbacks := b |}.

(** The argument record of the ingestion of [literal] with zero-copy
    semantics on the client [dst]. *)
Definition zero_copy_args (dst : PjRtCApiClient) (literal : Literal)
    (byte_strides : list Z) (device : option PJRT_Device)
    (memory : option PJRT_Memory) : PJRT_Client_BufferFromHostBuffer_Args :=
  {| bfh_client := c_client_ dst;
     bfh_data := untyped_data literal;
     bfh_type := ConvertToPjRtBufferType (element_type (shape literal));
     bfh_dims := dimensions (shape literal);
     bfh_byte_strides := Some byte_strides;
     bfh_device_layout := None;
     bfh_host_buffer_semantics := ConvertToPjRtHostBufferSemantics kZeroCopy;
     bfh_device := device;
     bfh_memory := memory |}.

(** What the ingestion of [literal] by the client [dst] comes to, from
    the world [w1]: PJRT_Client_BufferFromHostBuffer is invoked on the
    bytes of the literal with zero-copy semantics.  When the plugin
    reports a buffer and the event done_with_host_buffer, the closure that
    owns the literal is registered on the event, where it waits, or runs
    at once and frees the literal if the event has completed; the buffer
    is returned, as a buffer of [dst].  An error of the plugin, from
    either entry point, is returned as a status.  No other entry point is
    invoked. *)
Definition ingestion (dst : PjRtCApiClient) (literal : Literal)
    (byte_strides : list Z) (device : option PJRT_Device)
    (memory : option PJRT_Memory) (w1 : World)
    : Outcome PjRtCApiBuffer * World :=
  let args := zero_copy_args dst literal byte_strides device memory in
  let frees := DoneWithHostBuffer (FreesLiteral literal) in
  let w2 := record_call (Call_Client_BufferFromHostBuffer args) w1 in
  match PJRT_Client_BufferFromHostBuffer (c_api_ dst) args with
  | PjrtErr e => (Error (PjrtErrorToStatus e), w2)
  | PjrtOk (dst_buffer, done_with_host_buffer) =>
      let w3 := record_call (Call_Event_OnReady done_with_host_buffer frees)
                  w2 in
      match PJRT_Event_OnReady (c_api_ dst) done_with_host_buffer with
      | PjrtErr e => (Error (PjrtErrorToStatus e), w3)
      | PjrtOk _ =>
          (Value (new_PjRtCApiBuffer dst dst_buffer),
           match event_status done_with_host_buffer w3 with
           | Some error => run_on_ready frees error w3
           | None => add_on_ready_callback done_with_host_buffer frees w3
           end)
      end
  end.

(** The copy through the host, from the buffer [this] to the client
    [dst]: the buffer is materialized on the host, synchronously; an
    error of the materialization, or of ByteStrides, is returned; else
    the literal is ingested by [dst]. *)
Definition through_host (this : PjRtCApiBuffer) (dst : PjRtCApiClient)
    (device : option PJRT_Device) (memory : option PJRT_Memory)
    (w : World) : Outcome PjRtCApiBuffer * World :=
  match ToLiteralSync this w with
  | (Value literal, w1) =>
      match ByteStrides (shape literal) with
      | IsOk byte_strides =>
          ingestion dst literal byte_strides device memory w1
      | NotOk s => (Error s, w1)
      end
  | (Error s, w1) => (Error s, w1)
  | (Crashed c, w1) => (Crashed c, w1)
  end.

(** The buffer [b], materialized on the host in the world [w'], has the
    bytes that [this] materialized to in the world [w]. *)
Definition same_bytes_on_host (this b : PjRtCApiBuffer) (w w' : World)
    : Prop :=
  exists literal w1 copy w'',
    ToLiteralSync this w = (Value literal, w1)
    /\ ToLiteralSync b w' = (Value copy, w'')
    /\ untyped_data copy = untyped_data literal.

(** The direct copy: one invocation of the plugin's copy. *)
Definition direct (this : PjRtCApiBuffer) (call : PluginCall)
    (copied : PjrtResult PJRT_Buffer) (w : World)
    (result : Outcome PjRtCApiBuffer * World) : Prop :=
  result
  = (match copied with
     | PjrtOk dst_buffer => Value (new_PjRtCApiBuffer (client_ this) dst_buffer)
     | PjrtErr e => Error (PjrtErrorToStatus e)
     end,
     record_call call w).

(** The destination plugin gives back on materialization the bytes it
    ingested. *)
Definition materializes_what_it_ingests (dst : PjRtCApiClient) : Prop :=
  forall args dst_buffer event w,
    PJRT_Client_BufferFromHostBuffer (c_api_ dst) args
    = PjrtOk (dst_buffer, event) ->
    exists literal w',
      ToLiteralSync (new_PjRtCApiBuffer dst dst_buffer) w = (Value literal, w')
      /\ untyped_data literal = bfh_data args.

Definition reports_unimplemented {A} (r : PjrtResult A) : Prop :=
  exists e, r = PjrtErr e /\ GetErrorCode e = PJRT_Error_Code_UNIMPLEMENTED.

(** The plugin handle of the device object at [cpp_device]. *)
Definition device_handle (g : ClientGraph) (cpp_device : nat)
    : option PJRT_Device :=
  device_ <$> owned_devices_ g !! cpp_device.

(** The plugin answers the attached-memory query of a device object. *)
Definition answers (api : PJRT_Api) (g : ClientGraph) (cpp_device : nat) : Prop :=
  exists handle memories,
    device_handle g cpp_device = Some handle
    /\ PJRT_Device_AddressableMemories api handle = PjrtOk memories.

(** The plugin reports no memory space for a device object. *)
Definition reports_no_memory (api : PJRT_Api) (g : ClientGraph)
    (cpp_device : nat) : Prop :=
  exists handle,
    device_handle g cpp_device = Some handle
    /\ PJRT_Device_AddressableMemories api handle = PjrtOk [].

(** Every handle of the device map names an object of that handle. *)
Definition device_map_sound (g : ClientGraph) : Prop :=
  forall handle cpp_device,
    c_to_cpp_device_map_ g !! handle = Some cpp_device ->
    device_handle g cpp_device = Some handle.

(** What happens to a buffer over time: a caller asks for its ready
    future, or the plugin completes its ready event. *)
Inductive Step : Type :=
| Asks
| Completes (error : option PJRT_Error).

(** The steps in order, on the buffer as the calls leave it; the futures
    the callers got, in order. *)
Fixpoint drive (event : PJRT_Event) (steps : list Step) (this : PjRtCApiBuffer)
    : M (list PjRtFuture * PjRtCApiBuffer) :=
  match steps with
  | [] => mret ([], this)
  | Asks :: rest =>
      got ← GetReadyFuture this;
      more ← drive event rest (snd got);
      mret (fst got :: fst more, snd more)
  | Completes error :: rest =>
      _ ← update (event_completes event error);
      drive event rest this
  end.

Definition tracks (promise : Promise) (cb : OnReadyCallback) : bool :=
  match cb with
  | TrackPromise q => N.eqb q promise
  | DoneWithHostBuffer _ => false
  end.

(** The closures on [promise] that the plugin holds. *)
Definition closures_of (promise : Promise) (w : World)
    : list (PJRT_Event * OnReadyCallback) :=
  List.filter (fun c => tracks promise (snd c)) (on_ready_callbacks w).

(** The invocations of PJRT_Event_OnReady with a closure on [promise]. *)
Definition registrations (promise : Promise) (w : World) : list PluginCall :=
  List.filter (fun c => match c with
                        | Call_Event_OnReady _ cb => tracks promise cb
                        | _ => false
                        end) (plugin_calls w).

(** No promise from [promise] on is in use. *)
Definition unused_from (promise : Promise) (w : World) : Prop :=
  forall q, (promise <= q)%N ->
    sets_of q w = [] /\ closures_of q w = [] /\ registrations q w = [].

(** The state of a buffer and the world with respect to the promise
    [promise] and the ready event [event] of the buffer. *)
Inductive Phase : Type := NotAsked | Waiting | Resolved.

Definition in_phase (promise : Promise) (event : PJRT_Event) (ph : Phase)
    (this : PjRtCApiBuffer) (w : World) : Prop :=
  match ph with
  | NotAsked =>
      readiness_promise_ this = None
      /\ (readiness_event_ this = None \/ readiness_event_ this = Some event)
      /\ next_promise w = promise
      /\ unused_from promise w
  | Waiting =>
      readiness_promise_ this = Some promise
      /\ next_promise w = N.succ promise
      /\ sets_of promise w = []
      /\ closures_of promise w = [(event, TrackPromise promise)]
      /\ registrations promise w
         = [Call_Event_OnReady event (TrackPromise promise)]
      /\ event_status event w = None
  | Resolved =>
      readiness_promise_ this = Some promise
      /\ next_promise w = N.succ promise
      /\ length (sets_of promise w) = 1
      /\ closures_of promise w = []
      /\ registrations promise w
         = [Call_Event_OnReady event (TrackPromise promise)]
  end.

Definition is_asks (s : Step) : bool :=
  match s with Asks => true | Completes _ => false end.

End Adapter.

(** ** The queries of the function table

    The entry points below answer a question about an object of the
    plugin.  They are fields of the same PJRT_Api structure as the ones
    above; here they make a record of their own, which the methods that
    use them take beside the object.  The methods that ask them are
    const: a query is not entered in [plugin_calls]. *)

(** The output fields of PJRT_Device_MemoryStats_Args. *)
Record PJRT_Device_MemoryStats_Args : Type := {
  ms_bytes_in_use : Z;
  ms_peak_bytes_in_use : Z;
  ms_peak_bytes_in_use_is_set : bool;
  ms_num_allocs : Z;
  ms_num_allocs_is_set : bool;
  ms_largest_alloc_size : Z;
  ms_largest_alloc_size_is_set : bool;
  ms_bytes_limit : Z;
  ms_bytes_limit_is_set : bool;
  ms_bytes_reserved : Z;
  ms_bytes_reserved_is_set : bool;
  ms_peak_bytes_reserved : Z;
  ms_peak_bytes_reserved_is_set : bool;
  ms_bytes_reservable_limit : Z;
  ms_bytes_reservable_limit_is_set : bool;
  ms_largest_free_block_bytes : Z;
  ms_largest_free_block_bytes_is_set : bool;
  ms_pool_bytes : Z;
  ms_pool_bytes_is_set : bool;
  ms_peak_pool_bytes : Z;
  ms_peak_pool_bytes_is_set : bool;
}.

(** tsl::AllocatorStats (tsl/framework/allocator.h) as GetAllocatorStats
    fills it.  The fields it assigns on both branches are int64_t; the
    ones it assigns only when the plugin set them are
    std::optional<int64_t>, empty in a new struct. *)
Record AllocatorStats : Type := {
  num_allocs : Z;
  bytes_in_use : Z;
  peak_bytes_in_use : Z;
  largest_alloc_size : Z;
  bytes_limit : option Z;
  bytes_reserved : Z;
  peak_bytes_reserved : Z;
  bytes_reservable_limit : option Z;
  largest_free_block_bytes : Z;
  pool_bytes : option Z;
  peak_pool_bytes : option Z;
}.

(** The output fields of PJRT_Executable_OutputDimensions_Args:
    dim_sizes, of num_outputs elements, and dims, which holds the
    dimensions of all outputs one after the other. *)
Record PJRT_Executable_OutputDimensions_Args : Type := {
  od_dims : list Z;
  od_dim_sizes : list nat;
}.

(** A string or handle output that the adapter tests for nullptr is an
    option; an entry point an older plugin lacks is a null function
    pointer. *)
Record PJRT_Api_Queries : Type := {
  PJRT_Client_LookupDevice : PJRT_Client -> Z -> PjrtResult PJRT_Device;
  PJRT_Client_LookupAddressableDevice :
    PJRT_Client -> Z -> PjrtResult PJRT_Device;
  PJRT_LoadedExecutable_Fingerprint :
    PJRT_LoadedExecutable -> PjrtResult (option string);
  PJRT_Executable_DeserializeAndLoad :
    PJRT_Client -> string -> PjrtResult (option PJRT_LoadedExecutable);
  PJRT_LoadedExecutable_GetExecutable :
    PJRT_LoadedExecutable -> PjrtResult PJRT_Executable;
  PJRT_LoadedExecutable_AddressableDevices :
    PJRT_LoadedExecutable -> PjrtResult (list PJRT_Device);
  PJRT_Device_MemoryStats : PJRT_Device -> PjrtResult PJRT_Device_MemoryStats_Args;
  PJRT_Executable_OutputDimensions :
    option (PJRT_Executable
            -> PjrtResult PJRT_Executable_OutputDimensions_Args);
  PJRT_Buffer_Dimensions : PJRT_Buffer -> PjrtResult (list Z);
  PJRT_Buffer_DynamicDimensionIndices : PJRT_Buffer -> PjrtResult (list nat);
  PJRT_Buffer_Device : PJRT_Buffer -> PjrtResult PJRT_Device;
}.

Section Queries.
Context {helpers : PjrtHelpers}.
Variable queries : PJRT_Api_Queries.

(** *** Client *)

(** CalculateDefaultAssignment.  The iterator over the span is the part
    of the span still to read, and [None] a read past its end.  The
    assignment is given by its rows, one per replica; a loop whose bound
    is not positive does not run. *)
Fixpoint assign_partitions (num_partitions : nat) (iterator : list Z)
    : option (list Z * list Z) :=
  match num_partitions with
  | O => Some ([], iterator)
  | S partitions =>
      match iterator with
      | [] => None
      | device :: iterator' =>
          '(row, rest) ← assign_partitions partitions iterator';
          Some (device :: row, rest)
      end
  end.

Fixpoint assign_replicas (num_replicas num_partitions : nat)
    (iterator : list Z) : option (list (list Z)) :=
  match num_replicas with
  | O => Some []
  | S replicas =>
      '(row, iterator') ← assign_partitions num_partitions iterator;
      rows ← assign_replicas replicas num_partitions iterator';
      Some (row :: rows)
  end.

Definition CalculateDefaultAssignment (num_replicas num_partitions : Z)
    (device_assignment : list Z) : option (list (list Z)) :=
  assign_replicas (Z.to_nat num_replicas) (Z.to_nat num_partitions)
    device_assignment.

Definition ExecutableFingerprint (executable : PjRtCApiLoadedExecutable)
    : M (option string) :=
  match PJRT_LoadedExecutable_Fingerprint queries
          (c_loaded_executable executable) with
  | PjrtErr error =>
      if bool_decide (GetErrorCode error = PJRT_Error_Code_UNIMPLEMENTED)
      then mret None
      else fail (PjrtErrorToStatus error)
  | PjrtOk None => mret None
  | PjrtOk (Some executable_fingerprint) =>
      if (String.length executable_fingerprint =? 0)%nat
      then mret None
      else mret (Some executable_fingerprint)
  end.

Definition LookupDevice (this : PjRtCApiClient) (g : ClientGraph)
    (device_id : Z) : M nat :=
  device ← RETURN_STATUS_IF_PJRT_ERROR
             (PJRT_Client_LookupDevice queries (c_client_ this) device_id);
  GetCppDevice g device.

Definition LookupAddressableDevice (this : PjRtCApiClient) (g : ClientGraph)
    (local_hardware_id : Z) : M nat :=
  addressable_device ← RETURN_STATUS_IF_PJRT_ERROR
    (PJRT_Client_LookupAddressableDevice queries (c_client_ this)
       local_hardware_id);
  GetCppDevice g addressable_device.

(** PjRtCApiLoadedExecutable::InitDevices: the device objects of the
    client for the addressable devices of the executable. *)
Definition InitDevices (g : ClientGraph) (executable : PJRT_LoadedExecutable)
    : M (list nat) :=
  devices ← LogFatalIfPjrtError
              (PJRT_LoadedExecutable_AddressableDevices queries executable);
  mapM (GetCppDevice g) devices.

(** PjRtCApiLoadedExecutable::PjRtCApiLoadedExecutable(client,
    executable): the object and its addressable_devices_. *)
Definition new_PjRtCApiLoadedExecutable (client : PjRtCApiClient)
    (g : ClientGraph) (executable : PJRT_LoadedExecutable)
    : M (PjRtCApiLoadedExecutable * list nat) :=
  c_executable ← LogFatalIfPjrtError
                   (PJRT_LoadedExecutable_GetExecutable queries executable);
  addressable_devices ← InitDevices g executable;
  mret ({| executable_client_ := client;
           c_loaded_executable := executable;
           c_executable := c_executable |}, addressable_devices).

Definition DeserializeExecutable (this : PjRtCApiClient) (g : ClientGraph)
    (serialized : string) : M (PjRtCApiLoadedExecutable * list nat) :=
  c_exec ← RETURN_STATUS_IF_PJRT_ERROR
             (PJRT_Executable_DeserializeAndLoad queries (c_client_ this)
                serialized);
  match c_exec with
  | None => crash CheckFailed
  | Some loaded_executable =>
      new_PjRtCApiLoadedExecutable this g loaded_executable
  end.

(** *** Devices *)

Definition GetAllocatorStats (this : PjRtDevice) : M AllocatorStats :=
  args ← RETURN_STATUS_IF_PJRT_ERROR
           (PJRT_Device_MemoryStats queries (c_device this));
  mret {|
    bytes_in_use := ms_bytes_in_use args;
    peak_bytes_in_use :=
      if ms_peak_bytes_in_use_is_set args
      then ms_peak_bytes_in_use args else (-1)%Z;
    num_allocs :=
      if ms_num_allocs_is_set args then ms_num_allocs args else (-1)%Z;
    largest_alloc_size :=
      if ms_largest_alloc_size_is_set args
      then ms_largest_alloc_size args else (-1)%Z;
    bytes_limit :=
      if ms_bytes_limit_is_set args then Some (ms_bytes_limit args) else None;
    bytes_reserved :=
      if ms_bytes_reserved_is_set args
      then ms_bytes_reserved args else (-1)%Z;
    peak_bytes_reserved :=
      if ms_peak_bytes_reserved_is_set args
      then ms_peak_bytes_reserved args else (-1)%Z;
    bytes_reservable_limit :=
      if ms_bytes_reservable_limit_is_set args
      then Some (ms_bytes_reservable_limit args) else None;
    largest_free_block_bytes :=
      if ms_largest_free_block_bytes_is_set args
      then ms_largest_free_block_bytes args else (-1)%Z;
    pool_bytes :=
      if ms_pool_bytes_is_set args then Some (ms_pool_bytes args) else None;
    peak_pool_bytes :=
      if ms_peak_pool_bytes_is_set args
      then Some (ms_peak_pool_bytes args) else None;
  |}.

(** *** Executables *)

Definition GetOutputDimensions_unsupported : string :=
  "PJRT C API does not support GetOutputDimensions".

(** The inner loop of GetOutputDimensions: dim_size reads of
    args.dims[index++].  [None] is a read past the end of dims. *)
Fixpoint read_dimensions (dims : list Z) (index dim_size : nat)
    : option (list Z * nat) :=
  match dim_size with
  | O => Some ([], index)
  | S remaining =>
      dimension ← dims !! index;
      '(dimensions, index') ← read_dimensions dims (S index) remaining;
      Some (dimension :: dimensions, index')
  end.

(** The outer loop, over the outputs. *)
Fixpoint read_outputs (dims : list Z) (index : nat) (dim_sizes : list nat)
    : option (list (list Z)) :=
  match dim_sizes with
  | [] => Some []
  | dim_size :: rest =>
      '(dimensions, index') ← read_dimensions dims index dim_size;
      out ← read_outputs dims index' rest;
      Some (dimensions :: out)
  end.

Definition GetOutputDimensions (executable : PJRT_Executable)
    : M (list (list (list Z))) :=
  match PJRT_Executable_OutputDimensions queries with
  | None => fail (Unimplemented GetOutputDimensions_unsupported)
  | Some entry =>
      args ← RETURN_STATUS_IF_PJRT_ERROR (entry executable);
      out ← or_undefined (read_outputs (od_dims args) 0 (od_dim_sizes args));
      mret [out]
  end.

(** *** Buffers *)

(** PjRtCApiBuffer::dimensions *)
Definition PjRtCApiBuffer_dimensions (this : PjRtCApiBuffer) : M (list Z) :=
  LogFatalIfPjrtError (PJRT_Buffer_Dimensions queries (buffer_ this)).

(** has_dynamic_dimensions looks at the error of the plugin only to see
    whether it is UNIMPLEMENTED.  After any other error it goes on to read
    args.num_dynamic_dims, a member of a struct it has not initialized
    and the plugin has not filled in. *)
Definition has_dynamic_dimensions (this : PjRtCApiBuffer) : M bool :=
  match PJRT_Buffer_DynamicDimensionIndices queries (buffer_ this) with
  | PjrtErr error =>
      if bool_decide (GetErrorCode error = PJRT_Error_Code_UNIMPLEMENTED)
      then mret false
      else crash UndefinedBehaviour
  | PjrtOk dynamic_dim_indices =>
      mret (0 <? length dynamic_dim_indices)%nat
  end.

(** The loop of is_dynamic_dimension.  [None] is an assignment outside
    the vector. *)
Fixpoint mark_dynamic_dimensions (dynamic_dim_indices : list nat)
    (is_dynamic_dimension_value : list bool) : option (list bool) :=
  match dynamic_dim_indices with
  | [] => Some is_dynamic_dimension_value
  | index :: rest =>
      if decide (index < length is_dynamic_dimension_value)
      then mark_dynamic_dimensions rest
             (<[index := true]> is_dynamic_dimension_value)
      else None
  end.

(** is_dynamic_dimension, given the member is_dynamic_dimension_; what
    it returns is what the member holds afterwards. *)
Definition is_dynamic_dimension (this : PjRtCApiBuffer)
    (is_dynamic_dimension_ : option (list bool)) : M (list bool) :=
  match is_dynamic_dimension_ with
  | Some cached => mret cached
  | None =>
      dims ← PjRtCApiBuffer_dimensions this;
      let is_dynamic_dimension_value := replicate (length dims) false in
      match PJRT_Buffer_DynamicDimensionIndices queries (buffer_ this) with
      | PjrtErr error =>
          if bool_decide (GetErrorCode error = PJRT_Error_Code_UNIMPLEMENTED)
          then mret is_dynamic_dimension_value
          else crash UndefinedBehaviour
      | PjrtOk dynamic_dim_indices =>
          or_undefined (mark_dynamic_dimensions dynamic_dim_indices
                          is_dynamic_dimension_value)
      end
  end.

(** PjRtCApiBuffer::device *)
Definition PjRtCApiBuffer_device (g : ClientGraph) (this : PjRtCApiBuffer)
    : M nat :=
  device ← LogFatalIfPjrtError (PJRT_Buffer_Device queries (buffer_ this));
  GetCppDevice g device.

(** *** Vocabulary of the properties *)

(** The value the plugin gave last for an attribute name. *)
Definition last_named (attribute_name : string)
    (attributes : list PJRT_NamedValue) : option PjRtValueType :=
  snd <$> List.find (fun a => String.eqb (fst a) attribute_name)
                    (rev attributes).

(** The attribute made of a value of a supported type. *)
Definition to_attribute (value : PjRtValueType) : option PjRtDeviceAttribute :=
  match value with
  | StringValue s => Some (StringAttribute s)
  | Int64Value i => Some (Int64Attribute i)
  | Int64ListValue l => Some (Int64ListAttribute l)
  | _ => None
  end.

(** What a report of memory statistics says: the bytes in use and, for
    every other statistic, its value if it is set. *)
Definition reported (args : PJRT_Device_MemoryStats_Args)
    : Z * list (option Z) :=
  let field (is_set : bool) (value : Z) := if is_set then Some value else None in
  (ms_bytes_in_use args,
   [field (ms_peak_bytes_in_use_is_set args) (ms_peak_bytes_in_use args);
    field (ms_num_allocs_is_set args) (ms_num_allocs args);
    field (ms_largest_alloc_size_is_set args) (ms_largest_alloc_size args);
    field (ms_bytes_limit_is_set args) (ms_bytes_limit args);
    field (ms_bytes_reserved_is_set args) (ms_bytes_reserved args);
    field (ms_peak_bytes_reserved_is_set args) (ms_peak_bytes_reserved args);
    field (ms_bytes_reservable_limit_is_set args)
          (ms_bytes_reservable_limit args);
    field (ms_largest_free_block_bytes_is_set args)
          (ms_largest_free_block_bytes args);
    field (ms_pool_bytes_is_set args) (ms_pool_bytes args);
    field (ms_peak_pool_bytes_is_set args) (ms_peak_pool_bytes args)]).

(** The parts of the graph that the two attaching passes leave alone:
    the objects, by their handles, and the two maps. *)
Definition same_objects (g g' : ClientGraph) : Prop :=
  map device_ (owned_devices_ g') = map device_ (owned_devices_ g)
  /\ devices_ g' = devices_ g
  /\ addressable_devices_ g' = addressable_devices_ g
  /\ c_to_cpp_device_map_ g' = c_to_cpp_device_map_ g
  /\ map c_memory_ (owned_memory_spaces_ g')
     = map c_memory_ (owned_memory_spaces_ g)
  /\ addressable_memory_spaces_ g' = addressable_memory_spaces_ g
  /\ c_to_cpp_memory_map_ g' = c_to_cpp_memory_map_ g.

(** What a lookup of the handle [d] gives on a client that enumerated
    [devices]: the object of that handle, or a failed CHECK. *)
Definition finds_device (g : ClientGraph) (devices : list PJRT_Device)
    (d : PJRT_Device) (result : Outcome nat) : Prop :=
  (d ∈ devices ->
   exists cpp_device,
     result = Value cpp_device /\ device_handle g cpp_device = Some d)
  /\ (d ∉ devices -> result = Crashed CheckFailed).

(** The plugin handle of the memory-space object at [cpp_memory]. *)
Definition memory_handle (g : ClientGraph) (cpp_memory : nat)
    : option PJRT_Memory :=
  c_memory_ <$> owned_memory_spaces_ g !! cpp_memory.

End Queries.

(** ** A plugin to run the adapter on *)

Definition new_World {helpers : PjrtHelpers} : World :=
  MkWorld [] [] [] [] 0%N [] 0%N.

Definition no_layout_order : string := "layout without a dimension order".

(** Layouts as their minor-to-major order; the conversions are the
    identity on what they convert, and the conversion of layouts rejects
    an empty order. *)
Definition example_helpers : PjrtHelpers := {|
  Layout := list Z;
  BufferMemoryLayoutData := list Z;
  ConvertToBufferMemoryLayoutData := fun l =>
    match l with
    | [] => NotOk (InvalidArgument no_layout_order)
    | _ => IsOk l
    end;
  ConvertToPjRtBufferType := fun t => t;
  ConvertToPjRtHostBufferSemantics := fun s =>
    match s with
    | kImmutableOnlyDuringCall => 0
    | kImmutableUntilTransferCompletes => 1
    | kZeroCopy => 2
    | kOtherSemantics raw => raw
    end%Z;
|}.

Definition unimplemented_error : PJRT_Error :=
  MkError PJRT_Error_Code_UNIMPLEMENTED "not implemented".

(** A plugin of ABI minor version [minor] with three devices 10, 11 and
    12 that share the memory space 20.  It reports the memory spaces of
    the first [memories] devices and UNIMPLEMENTED for the others, and
    for the memory spaces of the client if [memories] is 0.  Every buffer
    of it holds the two bytes 01 02: it ingests these from the host, as
    buffer 100, and nothing else.  Every device description of it has
    the attribute cores, listed twice, and the attribute kind. *)
Definition example_api (minor : Z) (memories : N)
    : @PJRT_Api example_helpers := {|
  minor_version := minor;
  PJRT_Client_Create := fun _ => PjrtOk 1%N;
  PJRT_Client_Devices := fun _ => PjrtOk [10; 11; 12]%N;
  PJRT_Client_AddressableDevices := fun _ => PjrtOk [10; 11; 12]%N;
  PJRT_Client_AddressableMemories := fun _ =>
    if (memories =? 0)%N then PjrtErr unimplemented_error else PjrtOk [20%N];
  PJRT_Device_AddressableMemories := fun device =>
    if (device <? 10 + memories)%N
    then PjrtOk [20%N] else PjrtErr unimplemented_error;
  PJRT_Memory_AddressableByDevices := fun _ => PjrtOk [10; 11; 12]%N;
  PJRT_DeviceDescription_Attributes := fun _ =>
    PjrtOk [("cores", Int64Value 2); ("kind", StringValue "example");
            ("cores", Int64Value 4)];
  PJRT_TopologyDescription_Attributes := fun _ => PjrtOk [];
  PJRT_Client_BufferFromHostBuffer := fun args =>
    if decide (map Byte.to_N (bfh_data args) = [1; 2]%N)
    then PjrtOk (100, 200)%N
    else PjrtErr (MkError PJRT_Error_Code_INVALID_ARGUMENT "unexpected data");
  PJRT_Client_CreateViewOfDeviceBuffer := fun _ => PjrtOk 101%N;
  PJRT_Buffer_UnsafePointer := fun b => PjrtOk (8 * Z.of_N b)%Z;
  PJRT_Buffer_CopyToDevice := fun b _ => PjrtOk (b + 1)%N;
  PJRT_Buffer_CopyToMemory := fun b _ => PjrtOk (b + 2)%N;
  PJRT_Buffer_ReadyEvent := fun b => PjrtOk (b + 1000)%N;
  PJRT_Event_OnReady := fun _ => PjrtOk tt;
  PJRT_Executable_NumOutputs := fun _ => PjrtOk 2%N;
  PJRT_LoadedExecutable_Execute := fun _ =>
    PjrtOk {| written_output := fun i j => N.of_nat (500 + 10 * i + j);
              written_event := fun i => N.of_nat (600 + i) |};
|}.

Definition example_client (address : N) (minor : Z) (name : string)
    : @PjRtCApiClient example_helpers := {|
  this_client := address;
  c_api_ := example_api minor 3;
  c_client_ := address;
  kv_callback_data_ := None;
  topo_desc_ := IsOk {| c_topology_ := 300%N; topology_attributes_ := ∅ |};
  platform_version_ := "PJRT C API" ++ newline ++ "1.0";
  platform_name_ := name;
  platform_id_ := N.of_nat (String.length name);
|}.

Definition client_A := example_client 1%N 33%Z "cpu".
Definition client_B := example_client 2%N 33%Z "tpu".

Definition buffer_of_A : @PjRtCApiBuffer example_helpers :=
  new_PjRtCApiBuffer client_A 7%N.

Section ExamplePlugin.

#[local] Existing Instance example_helpers.

Definition example_executable : PjRtCApiLoadedExecutable := {|
  executable_client_ := client_A;
  c_loaded_executable := 50%N;
  c_executable := 51%N;
|}.

Definition example_send : SendCallback :=
  {| send_channel_id := 1; send_callback := 9%N |}.

Definition example_options (sends : list (list SendCallback)) (major_to_minor : bool)
    : ExecuteOptions := {|
  launch_id := 3;
  send_callbacks := sends;
  recv_callbacks := [];
  use_major_to_minor_data_layout_for_callbacks := major_to_minor;
|}.

(** The plugin registered under the device type "example".  The
    description of a device is its handle plus 100 and the topology of a
    client its handle plus 300. *)
Definition example_client_helpers : ClientHelpers := {|
  PjrtApi := fun device_type =>
    if String.eqb device_type "example"
    then IsOk (Some (example_api 33 3))
    else NotOk (MkStatus kNotFound "no plugin of this device type");
  ConvertToPjRtNamedValueList := fun options _ => IsOk (map_to_list options);
  ConvertFromPjRtNamedValueList := list_to_map;
  GetDeviceDescription := fun _ device => mret (device + 100)%N;
  GetTopologyDescription := fun c_client _ => mret (c_client + 300)%N;
  GetPlatformVersion := fun _ _ => mret "1.0";
  GetPlatformName := fun _ _ => mret "example";
  Fingerprint64 := fun name => N.of_nat (String.length name);
|}.

(** Materialization on the example plugin: the two bytes every buffer of
    it holds. *)
Definition example_literal : Literal :=
  MkLiteral (MkShape 2%Z [2%Z] None) [Byte.x01; Byte.x02].

Definition example_host_transfer : HostTransfer := {|
  ToLiteralSync := fun _ => mret example_literal;
  ByteStrides := fun _ => IsOk [1%Z];
|}.

(** Materialization on a plugin that does not keep what it ingests: the
    buffer 100, which it makes of the bytes it is handed, holds two zero
    bytes. *)
Definition forgetful_host_transfer : HostTransfer := {|
  ToLiteralSync := fun b =>
    mret (if (buffer_ b =? 100)%N
          then MkLiteral (MkShape 2%Z [2%Z] None) [Byte.x00; Byte.x00]
          else example_literal);
  ByteStrides := fun _ => IsOk [1%Z];
|}.

(** The client graph of the example plugin once its devices and memory
    space are enumerated. *)
Definition example_device (device : PJRT_Device) : PjRtCApiDevice := {|
  device_ := device;
  description_ :=
    {| device_description_ := (device + 100)%N;
       attributes_ :=
         {["cores" := Int64Attribute 4; "kind" := StringAttribute "example"]} |};
  memory_spaces_ := [];
|}.

Definition example_graph : ClientGraph :=
  set_addressable_devices
    (add_memory
       (foldl (fun g device => add_device g device (example_device device))
              new_ClientGraph [10; 11; 12]%N)
       20%N)
    [0; 1; 2].

End ExamplePlugin.

(** The memory statistics the example plugin reports for a device: four
    statistics set, and in two of the fields it does not set whatever the
    device left there. *)
Definition example_stats (device : PJRT_Device) : PJRT_Device_MemoryStats_Args := {|
  ms_bytes_in_use := 64;
  ms_peak_bytes_in_use := 128; ms_peak_bytes_in_use_is_set := true;
  ms_num_allocs := Z.of_N device; ms_num_allocs_is_set := false;
  ms_largest_alloc_size := 32; ms_largest_alloc_size_is_set := true;
  ms_bytes_limit := Z.of_N device; ms_bytes_limit_is_set := false;
  ms_bytes_reserved := 0; ms_bytes_reserved_is_set := false;
  ms_peak_bytes_reserved := 0; ms_peak_bytes_reserved_is_set := false;
  ms_bytes_reservable_limit := 0;
  ms_bytes_reservable_limit_is_set := false;
  ms_largest_free_block_bytes := 0;
  ms_largest_free_block_bytes_is_set := false;
  ms_pool_bytes := 1024; ms_pool_bytes_is_set := true;
  ms_peak_pool_bytes := 0; ms_peak_pool_bytes_is_set := false;
|}%Z.

(** The queries of the example plugin.  Device ids 0, 1 and 2 are the
    devices 10, 11 and 12; every executable has the fingerprint "fp", runs
    on the devices 10 and 11, and has three outputs of ranks 2, 0 and 1;
    every buffer has three dimensions, the first and the last dynamic. *)
Definition example_queries : PJRT_Api_Queries := {|
  PJRT_Client_LookupDevice := fun _ device_id =>
    if ((0 <=? device_id) && (device_id <? 3))%Z
    then PjrtOk (10 + Z.to_N device_id)%N
    else PjrtErr (MkError PJRT_Error_Code_INVALID_ARGUMENT "no such device");
  PJRT_Client_LookupAddressableDevice := fun _ local_hardware_id =>
    if ((0 <=? local_hardware_id) && (local_hardware_id <? 3))%Z
    then PjrtOk (10 + Z.to_N local_hardware_id)%N
    else PjrtErr (MkError PJRT_Error_Code_INVALID_ARGUMENT "no such device");
  PJRT_LoadedExecutable_Fingerprint := fun _ => PjrtOk (Some "fp");
  PJRT_Executable_DeserializeAndLoad := fun _ serialized =>
    if String.eqb serialized "program"
    then PjrtOk (Some 50%N)
    else PjrtErr (MkError PJRT_Error_Code_INVALID_ARGUMENT "not a program");
  PJRT_LoadedExecutable_GetExecutable := fun loaded => PjrtOk (loaded + 1)%N;
  PJRT_LoadedExecutable_AddressableDevices := fun _ => PjrtOk [10; 11]%N;
  PJRT_Device_MemoryStats := fun device => PjrtOk (example_stats device);
  PJRT_Executable_OutputDimensions := Some (fun _ =>
    PjrtOk {| od_dims := [2; 3; 4]%Z; od_dim_sizes := [2; 0; 1] |});
  PJRT_Buffer_Dimensions := fun _ => PjrtOk [8; 8; 8]%Z;
  PJRT_Buffer_DynamicDimensionIndices := fun _ => PjrtOk [2; 0];
  PJRT_Buffer_Device := fun _ => PjrtOk 11%N;
|}.

(** The example plugin of minor version 33, but one that rejects every
    registration of a completion callback. *)
Definition rejecting_api : @PJRT_Api example_helpers :=
  let api := example_api 33 3 in {|
  minor_version := minor_version api;
  PJRT_Client_Create := PJRT_Client_Create api;
  PJRT_Client_Devices := PJRT_Client_Devices api;
  PJRT_Client_AddressableDevices := PJRT_Client_AddressableDevices api;
  PJRT_Client_AddressableMemories := PJRT_Client_AddressableMemories api;
  PJRT_Device_AddressableMemories := PJRT_Device_AddressableMemories api;
  PJRT_Memory_AddressableByDevices := PJRT_Memory_AddressableByDevices api;
  PJRT_DeviceDescription_Attributes := PJRT_DeviceDescription_Attributes api;
  PJRT_TopologyDescription_Attributes :=
    PJRT_TopologyDescription_Attributes api;
  PJRT_Client_BufferFromHostBuffer := PJRT_Client_BufferFromHostBuffer api;
  PJRT_Client_CreateViewOfDeviceBuffer :=
    PJRT_Client_CreateViewOfDeviceBuffer api;
  PJRT_Buffer_UnsafePointer := PJRT_Buffer_UnsafePointer api;
  PJRT_Buffer_CopyToDevice := PJRT_Buffer_CopyToDevice api;
  PJRT_Buffer_CopyToMemory := PJRT_Buffer_CopyToMemory api;
  PJRT_Buffer_ReadyEvent := PJRT_Buffer_ReadyEvent api;
  PJRT_Event_OnReady := fun _ =>
    PjrtErr (MkError PJRT_Error_Code_INTERNAL "no callbacks");
  PJRT_Executable_NumOutputs := PJRT_Executable_NumOutputs api;
  PJRT_LoadedExecutable_Execute := PJRT_LoadedExecutable_Execute api;
|}.

(** A buffer of a client of the rejecting plugin. *)
Definition rejected_buffer : @PjRtCApiBuffer example_helpers :=
  new_PjRtCApiBuffer
    {| this_client := 3%N; c_api_ := rejecting_api; c_client_ := 3%N;
       kv_callback_data_ := None;
       topo_desc_ := NotOk (Unimplemented "no topology");
       platform_version_ := "PJRT C API" ++ newline ++ "1.0";
       platform_name_ := "cpu"; platform_id_ := 3%N |} 7%N.

(** The example plugin of minor version 33, but one that reports
    UNIMPLEMENTED for the memory spaces of the client while it reports
    the memory space 20 for every device. *)
Definition inconsistent_api : @PJRT_Api example_helpers :=
  let api := example_api 33 3 in {|
  minor_version := minor_version api;
  PJRT_Client_Create := PJRT_Client_Create api;
  PJRT_Client_Devices := PJRT_Client_Devices api;
  PJRT_Client_AddressableDevices := PJRT_Client_AddressableDevices api;
  PJRT_Client_AddressableMemories := fun _ => PjrtErr unimplemented_error;
  PJRT_Device_AddressableMemories := PJRT_Device_AddressableMemories api;
  PJRT_Memory_AddressableByDevices := PJRT_Memory_AddressableByDevices api;
  PJRT_DeviceDescription_Attributes := PJRT_DeviceDescription_Attributes api;
  PJRT_TopologyDescription_Attributes :=
    PJRT_TopologyDescription_Attributes api;
  PJRT_Client_BufferFromHostBuffer := PJRT_Client_BufferFromHostBuffer api;
  PJRT_Client_CreateViewOfDeviceBuffer :=
    PJRT_Client_CreateViewOfDeviceBuffer api;
  PJRT_Buffer_UnsafePointer := PJRT_Buffer_UnsafePointer api;
  PJRT_Buffer_CopyToDevice := PJRT_Buffer_CopyToDevice api;
  PJRT_Buffer_CopyToMemory := PJRT_Buffer_CopyToMemory api;
  PJRT_Buffer_ReadyEvent := PJRT_Buffer_ReadyEvent api;
  PJRT_Event_OnReady := PJRT_Event_OnReady api;
  PJRT_Executable_NumOutputs := PJRT_Executable_NumOutputs api;
  PJRT_LoadedExecutable_Execute := PJRT_LoadedExecutable_Execute api;
|}.

(** ** Properties *)

Ltac run :=
  unfold mbind, M_bind, mret, M_ret, fail, crash, invoke, log_call, update,
    read, lift_statusor, RETURN_STATUS_IF_PJRT_ERROR, LogFatalIfPjrtError,
    or_undefined in *; cbn beta iota in *.

Lemma string_app_assoc (a b c : string) :
  ((a ++ b) ++ c)%string = (a ++ b ++ c)%string.
Proof.
  induction a as [|x a IH]; [reflexivity |].
  change (String x ((a ++ b) ++ c) = String x (a ++ b ++ c))%string.
  now rewrite IH.
Qed.

Section Properties.
Context {helpers : PjrtHelpers} {host_transfer : HostTransfer}
        {client_helpers : ClientHelpers}.

(** *** Running computations *)

Lemma run_bind {A B} (m : M A) (f : A -> M B) (w : World) :
  (m ≫= f) w
  = match m w with
    | (Value a, w') => f a w'
    | (Error s, w') => (Error s, w')
    | (Crashed c, w') => (Crashed c, w')
    end.
Proof. reflexivity. Qed.

Lemma ret_bind {A B} (a : A) (f : A -> M B) : mret a ≫= f = f a.
Proof. reflexivity. Qed.

Lemma fail_bind {A B} (s : Status) (f : A -> M B) : fail s ≫= f = fail s.
Proof. reflexivity. Qed.

Lemma crash_bind {A B} (c : Crash) (f : A -> M B) : crash c ≫= f = crash c.
Proof. reflexivity. Qed.

Lemma run_invoke {A} (c : PluginCall) (r : PjrtResult A) (w : World) :
  invoke c r w = (Value r, record_call c w).
Proof. reflexivity. Qed.

Lemma quiet_ret {A} (a : A) : quiet (mret a).
Proof. intros w. reflexivity. Qed.

Lemma quiet_fail {A} (s : Status) : quiet (@fail _ A s).
Proof. intros w. reflexivity. Qed.

Lemma quiet_crash {A} (c : Crash) : quiet (@crash _ A c).
Proof. intros w. reflexivity. Qed.

Lemma quiet_bind {A B} (m : M A) (f : A -> M B) :
  quiet m -> (forall a, quiet (f a)) -> quiet (m ≫= f).
Proof.
  intros Hm Hf w. rewrite run_bind. specialize (Hm w).
  destruct (m w) as [[a|s|c] w']; cbn in *; subst; [apply Hf | |]; reflexivity.
Qed.

Lemma quiet_or_undefined {A} (o : option A) : quiet (or_undefined o).
Proof. destruct o; [apply quiet_ret | apply quiet_crash]. Qed.

Lemma quiet_RETURN_STATUS_IF_PJRT_ERROR {A} (r : PjrtResult A) :
  quiet (RETURN_STATUS_IF_PJRT_ERROR r).
Proof. destruct r; [apply quiet_ret | apply quiet_fail]. Qed.

Lemma quiet_LogFatalIfPjrtError {A} (r : PjrtResult A) :
  quiet (LogFatalIfPjrtError r).
Proof. destruct r; [apply quiet_ret | apply quiet_crash]. Qed.

Lemma quiet_lift_statusor {A} (r : StatusOr A) : quiet (lift_statusor r).
Proof. destruct r; [apply quiet_ret | apply quiet_fail]. Qed.

Ltac quiet :=
  repeat first
    [ apply quiet_ret | apply quiet_fail | apply quiet_crash
    | apply quiet_or_undefined | apply quiet_RETURN_STATUS_IF_PJRT_ERROR
    | apply quiet_LogFatalIfPjrtError | apply quiet_lift_statusor
    | apply quiet_bind; [| intros ?]
    | match goal with
      | |- quiet (if ?b then _ else _) => destruct b
      | |- quiet (match ?x with _ => _ end) => destruct x
      end ].

(** *** Host-buffer ingestion *)

(** C3.  BufferFromHostBuffer, through each of its overloads, with a
    HostBufferSemantics that is none of kImmutableOnlyDuringCall,
    kImmutableUntilTransferCompletes and kZeroCopy returns an Unimplemented
    error and leaves the world as it found it: no entry point of the plugin
    has been invoked, no callback registered, and no buffer is returned. *)
Theorem BufferFromHostBuffer_unsupported_semantics
    (this : PjRtCApiClient) data type dims byte_strides
    (semantics : HostBufferSemantics) on_done device_or_memory device_layout
    device memory_space (w : World) :
  semantics <> kImmutableOnlyDuringCall ->
  semantics <> kImmutableUntilTransferCompletes ->
  semantics <> kZeroCopy ->
  let unimplemented := Error (Unimplemented BufferFromHostBuffer_unsupported) in
  code (Unimplemented BufferFromHostBuffer_unsupported) = kUnimplemented
  /\ BufferFromHostBufferInternalImpl this data type dims byte_strides
       semantics on_done device_or_memory device_layout w = (unimplemented, w)
  /\ BufferFromHostBuffer this data type dims byte_strides semantics on_done
       device w = (unimplemented, w)
  /\ BufferFromHostBuffer_device_layout this data type dims byte_strides
       semantics on_done device device_layout w = (unimplemented, w)
  /\ BufferFromHostBuffer_memory this data type dims byte_strides semantics
       on_done memory_space device_layout w = (unimplemented, w).
Proof.
  intros H1 H2 H3 unimplemented.
  unfold BufferFromHostBuffer, BufferFromHostBuffer_device_layout,
    BufferFromHostBuffer_memory, BufferFromHostBufferInternalImpl.
  rewrite !bool_decide_eq_true_2 by assumption.
  repeat split.
Qed.

(** *** Raw pointer access *)

Lemma UnsafeBufferPointer_message_names (buffer_platform call_platform : string) :
  names (UnsafeBufferPointer_message buffer_platform call_platform) buffer_platform
  /\ names (UnsafeBufferPointer_message buffer_platform call_platform) call_platform.
Proof.
  unfold names, UnsafeBufferPointer_message. split.
  - exists ("buffer passed to PjRtCApiClient::UnsafeBufferPointer() is from a "
            ++ "different client than that of the function call. Buffer's client "
            ++ "platform: '")%string,
           ("', function call's client platform: '" ++ call_platform ++ "'.")%string.
    rewrite !string_app_assoc. reflexivity.
  - exists ("buffer passed to PjRtCApiClient::UnsafeBufferPointer() is from a "
            ++ "different client than that of the function call. Buffer's client "
            ++ "platform: '" ++ buffer_platform
            ++ "', function call's client platform: '")%string, "'.".
    rewrite !string_app_assoc. reflexivity.
Qed.

(** C4.  UnsafeBufferPointer on a buffer of another client returns an
    InvalidArgument error whose message names the platform of the
    buffer's client and the platform of the client called, and invokes no
    entry point of the plugin.  On a buffer of the client called it
    invokes PJRT_Buffer_UnsafePointer once, on the buffer's handle, and
    returns the pointer the plugin reports (the plugin's error, if it
    reports one). *)
Theorem UnsafeBufferPointer_checks_client
    (this : PjRtCApiClient) (buffer : PjRtCApiBuffer) (w : World) :
  (this_client (client_ buffer) <> this_client this ->
     exists msg,
       UnsafeBufferPointer this buffer w = (Error (MkStatus kInvalidArgument msg), w)
       /\ names msg (platform_name_ (client_ buffer))
       /\ names msg (platform_name_ this))
  /\ (this_client (client_ buffer) = this_client this ->
        UnsafeBufferPointer this buffer w
        = (match PJRT_Buffer_UnsafePointer (c_api_ this) (buffer_ buffer) with
           | PjrtOk buffer_pointer => Value buffer_pointer
           | PjrtErr e => Error (PjrtErrorToStatus e)
           end,
           record_call (Call_Buffer_UnsafePointer (buffer_ buffer)) w)).
Proof.
  unfold UnsafeBufferPointer, same_client. split; intros H.
  - apply N.eqb_neq in H. rewrite H. cbn.
    eexists. split; [reflexivity |].
    apply UnsafeBufferPointer_message_names.
  - apply N.eqb_eq in H. rewrite H. run.
    destruct (PJRT_Buffer_UnsafePointer _ _); reflexivity.
Qed.

(** *** Views of device memory *)

(** C10, as the code has it.  Against a plugin whose ABI minor version is
    below 33, CreateViewOfDeviceBuffer returns an error and leaves the
    world as it found it, so PJRT_Client_CreateViewOfDeviceBuffer is not
    invoked.  The conversion of the shape's layout precedes the version
    test: the error is the Unimplemented one when the shape has no layout
    or its layout converts, and the error of the conversion when it does
    not. *)
Theorem CreateViewOfDeviceBuffer_needs_minor_33
    (this : PjRtCApiClient) device_ptr (shape : Shape) device
    on_delete_callback stream (w : World) :
  (minor_version (c_api_ this) < 33)%Z ->
  exists s,
    CreateViewOfDeviceBuffer this device_ptr shape device on_delete_callback
      stream w = (Error s, w)
    /\ (layout_converts shape ->
        s = Unimplemented CreateViewOfDeviceBuffer_unsupported
        /\ code s = kUnimplemented)
    /\ (forall l error,
          layout shape = Some l ->
          ConvertToBufferMemoryLayoutData l = NotOk error ->
          s = error).
Proof.
  intros Hv. apply Z.ltb_lt in Hv.
  unfold CreateViewOfDeviceBuffer, layout_converts, convert_layout.
  destruct (layout shape) as [l|]; run.
  - destruct (ConvertToBufferMemoryLayoutData l) as [c|s] eqn:Hc; cbn;
      rewrite ?Hv.
    + eexists; split; [reflexivity |].
      split; [intros _; split; reflexivity |].
      intros l' error [= <-] Hc'. congruence.
    + exists s. split; [reflexivity |].
      split; [intros [c Hc']; discriminate |].
      intros l' error [= <-] Hc'. congruence.
  - rewrite Hv. eexists; split; [reflexivity |].
    split; [intros _; split; reflexivity | discriminate].
Qed.

(** *** Execution options *)

Lemma using_host_callbacks_true (options : ExecuteOptions) :
  send_callbacks options <> [] \/ recv_callbacks options <> [] ->
  negb (bool_decide (send_callbacks options = []))
  || negb (bool_decide (recv_callbacks options = [])) = true.
Proof.
  destruct (send_callbacks options), (recv_callbacks options); cbn;
    intros [H | H]; congruence.
Qed.

(** C5, as the code has it.  With
    use_major_to_minor_data_layout_for_callbacks = false, Execute returns
    the Unimplemented error, before any plugin call, when at least one of
    the send and recv callback lists is non-empty; ExecuteSharded and
    ExecutePortable return an Unimplemented error then as well.  With
    both lists empty the flag is not looked at: every entry point does
    what it does with the flag set. *)
Theorem layout_flag_unsupported_with_callbacks
    (this : PjRtCApiLoadedExecutable) argument_handles single_handles device
    (options : ExecuteOptions) returned_futures returned_future fill_future
    (w : World) :
  use_major_to_minor_data_layout_for_callbacks options = false ->
  ((send_callbacks options <> [] \/ recv_callbacks options <> []) ->
     Execute this argument_handles options returned_futures w
     = (Error (Unimplemented GetCommonExecuteArgs_unsupported), w)
     /\ (exists s,
           code s = kUnimplemented
           /\ ExecuteSharded this single_handles device options returned_future
                fill_future w = (Error s, w)
           /\ ExecutePortable this single_handles device options
                returned_future fill_future w = (Error s, w)))
  /\ (send_callbacks options = [] -> recv_callbacks options = [] ->
      Execute this argument_handles options returned_futures w
      = Execute this argument_handles (set_use_major_to_minor true options)
          returned_futures w
      /\ ExecuteWithSingleDevice this single_handles device options
           returned_future fill_future w
         = ExecuteWithSingleDevice this single_handles device
             (set_use_major_to_minor true options) returned_future
             fill_future w).
Proof.
  intros Hflag. split.
  - intros Hcb.
    pose proof (using_host_callbacks_true options Hcb) as Hu.
    split.
    + unfold Execute, GetCommonExecuteArgs. run. rewrite Hu, Hflag. reflexivity.
    + eexists. split; [| unfold ExecuteSharded, ExecutePortable,
                           ExecuteWithSingleDevice; rewrite Hu; split; reflexivity].
      reflexivity.
  - intros Hs Hr.
    unfold Execute, ExecuteWithSingleDevice, GetCommonExecuteArgs,
      set_use_major_to_minor; cbn [send_callbacks recv_callbacks launch_id
      use_major_to_minor_data_layout_for_callbacks].
    rewrite Hs, Hr. split; reflexivity.
Qed.

(** GetCommonExecuteArgs on options without callbacks: it invokes at most
    PJRT_Executable_NumOutputs, and the options and callback data it
    returns hold the callbacks they held. *)
Lemma GetCommonExecuteArgs_without_callbacks
    (this : PjRtCApiLoadedExecutable) argument_handles (options : ExecuteOptions)
    c_options storage events data (w : World) :
  send_callbacks options = [] -> recv_callbacks options = [] ->
  let r := GetCommonExecuteArgs this argument_handles options c_options storage
             events data w in
  (snd r = w
   \/ snd r = record_call (Call_Executable_NumOutputs (c_executable this)) w)
  /\ forall common, fst r = Value common ->
       opt_send_callbacks (ex_options (common_args common))
       = opt_send_callbacks c_options
       /\ opt_recv_callbacks (ex_options (common_args common))
          = opt_recv_callbacks c_options
       /\ num_send_ops (ex_options (common_args common)) = num_send_ops c_options
       /\ num_recv_ops (ex_options (common_args common)) = num_recv_ops c_options
       /\ callback_data common = data.
Proof.
  intros Hs Hr. unfold GetCommonExecuteArgs. rewrite Hs, Hr. cbn.
  destruct argument_handles as [|first rest]; [split; [left; reflexivity | discriminate] |].
  destruct events as [evs|]; cbn; run;
    destruct (PJRT_Executable_NumOutputs _ _); cbn;
    (split; [right; reflexivity |]);
    first [ discriminate | intros common [= <-]; cbn; repeat split ].
Qed.

(** C9.  ExecuteSharded and ExecutePortable with a non-empty send or recv
    callback list return an Unimplemented error and leave the world as
    they found it: no entry point of the plugin is invoked.  Whatever the
    options, an invocation of PJRT_LoadedExecutable_Execute made by the
    single-device path carries no send or recv callback. *)
Theorem single_device_execution_rejects_callbacks
    (this : PjRtCApiLoadedExecutable) argument_handles device
    (options : ExecuteOptions) returned_future fill_future (w : World) :
  ((send_callbacks options <> [] \/ recv_callbacks options <> []) ->
     let unimplemented :=
       Error (MkStatus kUnimplemented ExecuteWithSingleDevice_unsupported) in
     ExecuteSharded this argument_handles device options returned_future
       fill_future w = (unimplemented, w)
     /\ ExecutePortable this argument_handles device options returned_future
          fill_future w = (unimplemented, w))
  /\ (forall args,
        In (Call_LoadedExecutable_Execute args)
           (drop (length (plugin_calls w))
                 (plugin_calls
                    (snd (ExecuteWithSingleDevice this argument_handles device
                            options returned_future fill_future w)))) ->
        opt_send_callbacks (ex_options args) = []
        /\ opt_recv_callbacks (ex_options args) = []
        /\ num_send_ops (ex_options args) = 0
        /\ num_recv_ops (ex_options args) = 0).
Proof.
  unfold ExecuteSharded, ExecutePortable, ExecuteWithSingleDevice. split.
  - intros Hcb.
    pose proof (using_host_callbacks_true options Hcb) as Hu.
    rewrite Hu. split; reflexivity.
  - intros args.
    destruct (send_callbacks options) as [|s ss] eqn:Hs;
      [destruct (recv_callbacks options) as [|r rs] eqn:Hr |].
    2,3: cbn; rewrite drop_all; intros [].
    rewrite (bool_decide_eq_true_2 _ (eq_refl : @nil (list SendCallback) = [])).
    rewrite (bool_decide_eq_true_2 _ (eq_refl : @nil (list RecvCallback) = [])).
    cbn [negb orb]. rewrite run_bind.
    pose proof (GetCommonExecuteArgs_without_callbacks this [argument_handles]
                  options new_PJRT_ExecuteOptions []
                  (if fill_future then Some [] else None)
                  new_SendRecvCallbackData w Hs Hr) as [Hw Hc].
    destruct (GetCommonExecuteArgs _ _ _ _ _ _ _ w) as [[common|s|c] w1];
      cbn in Hw, Hc |- *.
    2,3: destruct Hw as [-> | ->]; cbn; rewrite ?drop_all, ?drop_app_length;
      intros Hin; cbn in Hin; intuition discriminate.
    rewrite run_bind, run_invoke.
    match goal with
    | |- context [snd (?m ?w')] =>
        let Hq := fresh "Hq" in assert (quiet m) as Hq by quiet; rewrite (Hq w')
    end.
    destruct (Hc common eq_refl) as (H1 & H2 & H3 & H4 & _).
    destruct Hw as [-> | ->]; cbn; rewrite <- ?app_assoc, drop_app_length;
      cbn; intros Hin; repeat destruct Hin as [Hin | Hin]; try discriminate;
      try contradiction; inversion Hin; subst; cbn; auto.
Qed.
(** *** Client creation *)


(** *** Output buffers of an execution *)

Lemma bind_Value {A B} (m : M A) (f : A -> M B) (w w' : World) (b : B) :
  (m ≫= f) w = (Value b, w') ->
  exists a w1, m w = (Value a, w1) /\ f a w1 = (Value b, w').
Proof.
  rewrite run_bind. destruct (m w) as [[a|s|c] w1]; [eauto | discriminate ..].
Qed.

Lemma quiet_run {A} (m : M A) (w w' : World) (r : Outcome A) :
  quiet m -> m w = (r, w') -> w' = w.
Proof. intros Hq Hm. specialize (Hq w). rewrite Hm in Hq. exact Hq. Qed.

Lemma int_of_small_size (n : Z) :
  (0 <= n <= INT_MAX)%Z -> int_to_size_t (size_t_to_int n) = n.
Proof.
  unfold INT_MAX, int_to_size_t, size_t_to_int. intros H.
  rewrite (Z.mod_small (n + 2 ^ 31)) by lia.
  rewrite Z.mod_small by lia. lia.
Qed.

(** Convert2DCBuffersToCppBuffers, when every read is inside its list,
    returns outer_size lists of (size_t)inner_size buffers. *)
Lemma Convert2DCBuffersToCppBuffers_sizes c_lists outer_size inner_size
    (client : PjRtCApiClient) buffers :
  Convert2DCBuffersToCppBuffers c_lists outer_size inner_size client
  = Some buffers ->
  length buffers = outer_size
  /\ Forall (fun output_list =>
               length output_list = Z.to_nat (int_to_size_t inner_size))
            buffers.
Proof.
  unfold Convert2DCBuffersToCppBuffers. intros H. split.
  - apply length_mapM in H. rewrite length_seq in H. auto.
  - apply mapM_Some_1 in H. induction H as [|i l idx ls Hi _ IH]; constructor; auto.
    apply length_mapM in Hi. rewrite length_seq in Hi. auto.
Qed.

(** GetCommonExecuteArgs, when it returns, has invoked
    PJRT_Executable_NumOutputs and nothing else, and has sized the output
    storage, which the argument record points to, to one list per
    argument list, each of the number of outputs the plugin declared. *)
Lemma GetCommonExecuteArgs_sizes_outputs
    (this : PjRtCApiLoadedExecutable) argument_handles (options : ExecuteOptions)
    c_options storage events data (w w1 : World) common :
  GetCommonExecuteArgs this argument_handles options c_options storage events
    data w = (Value common, w1) ->
  exists num_outputs,
    PJRT_Executable_NumOutputs (c_api_ (executable_client_ this))
      (c_executable this) = PjrtOk num_outputs
    /\ w1 = record_call (Call_Executable_NumOutputs (c_executable this)) w
    /\ ex_num_devices (common_args common) = length argument_handles
    /\ ex_output_lists (common_args common) = c_output_lists_storage common
    /\ c_output_lists_storage common
       = map (resize (N.to_nat num_outputs) 0%N)
             (resize (length argument_handles) [] storage).
Proof.
  unfold GetCommonExecuteArgs. intros H.
  destruct (_ && negb _); [discriminate |].
  destruct argument_handles as [|first rest]; [discriminate |].
  apply bind_Value in H as (evs & w2 & Hevs & H).
  apply quiet_run in Hevs as ->; [| quiet].
  apply bind_Value in H as (r & w3 & Hr & H).
  rewrite run_invoke in Hr. injection Hr as <- <-.
  apply bind_Value in H as (num_outputs & w4 & Hn & H).
  destruct (PJRT_Executable_NumOutputs _ _) as [k|e]; [| discriminate].
  injection Hn as <- <-.
  apply bind_Value in H as (sends & w5 & Hsends & H).
  apply quiet_run in Hsends as ->; [| quiet].
  apply bind_Value in H as (recvs & w6 & Hrecvs & H).
  apply quiet_run in Hrecvs as ->; [| quiet].
  injection H as <- <-. exists k. cbn. auto.
Qed.

(** C7.  When Execute returns output buffers, for an executable whose
    declared number of outputs K is representable as an int, it has
    invoked PJRT_Executable_NumOutputs and then
    PJRT_LoadedExecutable_Execute, and nothing else; the output storage
    passed to the latter holds one list per argument list (per device),
    each of K elements; and the result is one list per device, each of
    K buffers. *)
Theorem Execute_output_lists
    (this : PjRtCApiLoadedExecutable) argument_handles (options : ExecuteOptions)
    returned_futures (w w' : World) buffers futures (K : N) :
  PJRT_Executable_NumOutputs (c_api_ (executable_client_ this))
    (c_executable this) = PjrtOk K ->
  (Z.of_N K <= INT_MAX)%Z ->
  Execute this argument_handles options returned_futures w
  = (Value (buffers, futures), w') ->
  length buffers = length argument_handles
  /\ Forall (fun output_list => length output_list = N.to_nat K) buffers
  /\ exists args,
       plugin_calls w'
       = plugin_calls w
         ++ [Call_Executable_NumOutputs (c_executable this);
             Call_LoadedExecutable_Execute args]
       /\ length (ex_output_lists args) = length argument_handles
       /\ Forall (fun c_list => length c_list = N.to_nat K)
                 (ex_output_lists args).
Proof.
  intros HK Hint H. unfold Execute in H.
  apply bind_Value in H as (common & w1 & Hcommon & H).
  apply GetCommonExecuteArgs_sizes_outputs in Hcommon
    as (k & Hk & -> & Hdevices & Hlists & Hstorage).
  rewrite HK in Hk. injection Hk as <-.
  apply bind_Value in H as (r & w2 & Hr & H).
  rewrite run_invoke in Hr. injection Hr as <- <-.
  apply bind_Value in H as (outs & w3 & Houts & H).
  apply quiet_run in Houts as ->; [| quiet].
  apply bind_Value in H as (first & w4 & Hfirst & H).
  pose proof (quiet_run _ _ _ _ (quiet_or_undefined _) Hfirst) as ->.
  apply bind_Value in H as (converted & w5 & Hconv & H).
  pose proof (quiet_run _ _ _ _ (quiet_or_undefined _) Hconv) as ->.
  injection H as <- <- <-.
  assert (Forall (fun c_list : list PJRT_Buffer => length c_list = N.to_nat K)
                 (c_output_lists_storage common)) as Hinner.
  { rewrite Hstorage. apply Forall_forall. intros c_list Hin.
    apply list_elem_of_In, in_map_iff in Hin as (l & <- & _).
    apply length_resize. }
  assert (length (c_output_lists_storage common) = length argument_handles)
    as Houter.
  { rewrite Hstorage, length_map. apply length_resize. }
  assert (length first = N.to_nat K) as Hlen.
  { destruct (written_outputs outs (c_output_lists_storage common) !! 0%nat)
      as [l|] eqn:Hl; [| discriminate].
    injection Hfirst as ->. unfold written_outputs in Hl.
    rewrite list_lookup_imap in Hl.
    destruct (c_output_lists_storage common !! 0%nat) as [c_list|] eqn:Hc;
      [| discriminate].
    injection Hl as <-. rewrite length_imap.
    eapply Forall_lookup_1 in Hinner; eauto. }
  destruct (Convert2DCBuffersToCppBuffers _ _ _ _) as [bs|] eqn:Hbs;
    [| discriminate].
  injection Hconv as ->.
  apply Convert2DCBuffersToCppBuffers_sizes in Hbs as [Hb1 Hb2].
  cbn in Hb1. rewrite Hlen, int_of_small_size in Hb2 by lia.
  rewrite Nat2Z.id in Hb2. rewrite Hdevices in Hb1.
  split; [exact Hb1 |]. split; [exact Hb2 |].
  exists (set_execute_device (common_args common) None). cbn.
  rewrite <- app_assoc, Hlists. auto.
Qed.

(** *** Copies between devices and clients *)

Lemma zero_copy_ingestion (dst : PjRtCApiClient) (literal : Literal)
    byte_strides device_or_memory (w1 : World) :
  BufferFromHostBufferInternalImpl dst (untyped_data literal)
    (element_type (shape literal)) (dimensions (shape literal))
    (Some byte_strides) kZeroCopy (Some (FreesLiteral literal))
    device_or_memory None w1
  = ingestion dst literal byte_strides
      match device_or_memory with inl d => Some (c_device d) | inr _ => None end
      match device_or_memory with inl _ => None | inr m => Some (c_memory m) end
      w1.
Proof.
  unfold BufferFromHostBufferInternalImpl, ingestion.
  cbn [bool_decide andb convert_layout].
  rewrite (bool_decide_eq_false_2 (kZeroCopy <> kZeroCopy)) by congruence.
  rewrite andb_false_r. cbn [andb]. rewrite ret_bind.
  fold (zero_copy_args dst literal byte_strides
          match device_or_memory with inl d => Some (c_device d) | inr _ => None end
          match device_or_memory with inl _ => None | inr m => Some (c_memory m) end).
  cbv zeta. rewrite run_bind, run_invoke.
  destruct (PJRT_Client_BufferFromHostBuffer _ _) as [[h ev]|e];
    [| reflexivity].
  cbn [RETURN_STATUS_IF_PJRT_ERROR fst snd]. rewrite ret_bind.
  unfold Event_OnReady. rewrite !run_bind, run_invoke. cbn [fst snd].
  destruct (PJRT_Event_OnReady (c_api_ dst) ev) as [[]|e]; [| reflexivity].
  set (w3 := record_call (Call_Event_OnReady ev _) _).
  rewrite run_bind. unfold read at 1. cbn beta iota.
  destruct (event_status ev w3); reflexivity.
Qed.

Lemma through_host_copied (this : PjRtCApiBuffer) (dst : PjRtCApiClient)
    device memory (w w' : World) b :
  through_host this dst device memory w = (Value b, w') ->
  client_ b = dst
  /\ (materializes_what_it_ingests dst -> same_bytes_on_host this b w w').
Proof.
  unfold through_host, same_bytes_on_host.
  destruct (ToLiteralSync this w) as [[literal|s|c] w1]; [| discriminate ..].
  destruct (ByteStrides (shape literal)) as [byte_strides|s]; [| discriminate].
  unfold ingestion. cbv zeta.
  destruct (PJRT_Client_BufferFromHostBuffer _ _) as [[h ev]|e] eqn:Hplugin;
    [| discriminate].
  destruct (PJRT_Event_OnReady (c_api_ dst) ev) as [[]|e]; [| discriminate].
  intros [= <- _]. split; [reflexivity |].
  intros Hfaithful.
  destruct (Hfaithful _ _ _ w' Hplugin) as (copy & w'' & Hcopy & Hdata).
  exists literal, w1, copy, w''. auto.
Qed.

(** C1, as the code has it.  CopyToDevice to a device of the buffer's own
    client is one invocation of PJRT_Buffer_CopyToDevice, whose buffer it
    returns.  To a device of another client it is the copy through the
    host: the buffer is materialized, synchronously, and the literal
    ingested by the destination client, from the literal's bytes, with
    zero-copy semantics and the closure that frees the literal as
    completion callback.  The buffer it returns is the destination
    client's, and materializes to the bytes the source materialized to
    if the destination plugin gives back what it ingests.
    CopyToMemorySpace does the same, with PJRT_Buffer_CopyToMemory,
    against a plugin of ABI minor version 32 or more; against an older
    plugin it returns an Unimplemented error and invokes nothing. *)
Theorem copy_direct_or_through_host
    (this : PjRtCApiBuffer) (dst_device : PjRtDevice)
    (dst_memory : PjRtMemorySpace) (w : World) :
  let api := c_api_ (client_ this) in
  let to_device := CopyToDevice this dst_device w in
  let to_memory := CopyToMemorySpace this dst_memory w in
  let copied dst (result : Outcome PjRtCApiBuffer * World) :=
    forall b w',
      result = (Value b, w') ->
      client_ b = dst
      /\ (materializes_what_it_ingests dst -> same_bytes_on_host this b w w') in
  (same_client (device_client dst_device) (client_ this) = true ->
     direct this (Call_Buffer_CopyToDevice (buffer_ this) (c_device dst_device))
       (PJRT_Buffer_CopyToDevice api (buffer_ this) (c_device dst_device))
       w to_device)
  /\ (same_client (device_client dst_device) (client_ this) = false ->
        to_device
        = through_host this (device_client dst_device)
            (Some (c_device dst_device)) None w
        /\ copied (device_client dst_device) to_device)
  /\ ((32 <= minor_version api)%Z ->
      same_client (memory_client dst_memory) (client_ this) = true ->
        direct this (Call_Buffer_CopyToMemory (buffer_ this) (c_memory dst_memory))
          (PJRT_Buffer_CopyToMemory api (buffer_ this) (c_memory dst_memory))
          w to_memory)
  /\ ((32 <= minor_version api)%Z ->
      same_client (memory_client dst_memory) (client_ this) = false ->
        to_memory
        = through_host this (memory_client dst_memory)
            None (Some (c_memory dst_memory)) w
        /\ copied (memory_client dst_memory) to_memory)
  /\ ((minor_version api < 32)%Z ->
        to_memory = (Error (Unimplemented CopyToMemorySpace_unsupported), w)).
Proof.
  assert (forall dst device_or_memory,
            (literal ← ToLiteralSync this;
             byte_strides ← lift_statusor (ByteStrides (shape literal));
             BufferFromHostBufferInternalImpl dst (untyped_data literal)
               (element_type (shape literal)) (dimensions (shape literal))
               (Some byte_strides) kZeroCopy (Some (FreesLiteral literal))
               device_or_memory None) w
            = through_host this dst
                match device_or_memory with
                | inl d => Some (c_device d) | inr _ => None
                end
                match device_or_memory with
                | inl _ => None | inr m => Some (c_memory m)
                end w) as Hhost.
  { intros dst device_or_memory. unfold through_host. rewrite run_bind.
    destruct (ToLiteralSync this w) as [[literal|s|c] w1]; [| reflexivity ..].
    destruct (ByteStrides (shape literal)) as [byte_strides|s];
      cbn [lift_statusor]; rewrite ?ret_bind, ?fail_bind; [| reflexivity].
    apply zero_copy_ingestion. }
  intros api to_device to_memory copied. subst to_device to_memory copied.
  unfold CopyToDevice, CopyToMemorySpace, direct. fold api.
  split; [| split; [| split; [| split]]].
  - intros ->. rewrite run_bind, run_invoke.
    destruct (PJRT_Buffer_CopyToDevice _ _ _); reflexivity.
  - intros ->.
    pose proof (Hhost (device_client dst_device) (inl dst_device)) as Hrun.
    unfold BufferFromHostBuffer. split; [exact Hrun |].
    intros b w' Hb. rewrite Hrun in Hb.
    exact (through_host_copied _ _ _ _ _ _ _ Hb).
  - intros Hv ->. apply Z.ltb_ge in Hv. rewrite Hv, run_bind, run_invoke.
    destruct (PJRT_Buffer_CopyToMemory _ _ _); reflexivity.
  - intros Hv ->. apply Z.ltb_ge in Hv. rewrite Hv.
    pose proof (Hhost (memory_client dst_memory) (inr dst_memory)) as Hrun.
    unfold BufferFromHostBuffer_memory. split; [exact Hrun |].
    intros b w' Hb. rewrite Hrun in Hb.
    exact (through_host_copied _ _ _ _ _ _ _ Hb).
  - intros Hv. apply Z.ltb_lt in Hv. rewrite Hv. reflexivity.
Qed.

(** *** Devices and memory spaces at client initialization *)

Lemma device_handle_attach (g : ClientGraph) device cpp_device memories p :
  owned_devices_ g !! device = Some cpp_device ->
  device_handle
    (set_owned_devices g
       (<[device := {| device_ := device_ cpp_device;
                       description_ := description_ cpp_device;
                       memory_spaces_ := memories |}]> (owned_devices_ g))) p
  = device_handle g p.
Proof.
  intros Hd. unfold device_handle. cbn.
  destruct (decide (device = p)) as [<- | Hne].
  - rewrite list_lookup_insert_eq by (eapply lookup_lt_Some; eauto).
    rewrite Hd. reflexivity.
  - rewrite list_lookup_insert_ne by assumption. reflexivity.
Qed.

Lemma AttachMemorySpaces_unimplemented (api : PJRT_Api) device rest
    (g : ClientGraph) handle (w : World) :
  device_handle g device = Some handle ->
  reports_unimplemented (PJRT_Device_AddressableMemories api handle) ->
  AttachMemorySpaces api (device :: rest) g w
  = (Value g, record_call (Call_Device_AddressableMemories handle) w).
Proof.
  unfold device_handle. intros Hh (e & He & Hcode). cbn [AttachMemorySpaces].
  destruct (owned_devices_ g !! device) as [cpp_device|]; [| discriminate].
  injection Hh as <-. cbn [or_undefined]. rewrite ret_bind, run_bind, run_invoke.
  rewrite He, Hcode. reflexivity.
Qed.

Lemma AttachMemorySpaces_stops (api : PJRT_Api) visited device rest
    (g : ClientGraph) handle (w : World) :
  Forall (answers api g) visited ->
  device_handle g device = Some handle ->
  reports_unimplemented (PJRT_Device_AddressableMemories api handle) ->
  AttachMemorySpaces api (visited ++ device :: rest) g w
  = match AttachMemorySpaces api visited g w with
    | (Value g', w') =>
        (Value g', record_call (Call_Device_AddressableMemories handle) w')
    | failure => failure
    end.
Proof.
  intros Hvisited Hh Hu. revert g w Hvisited Hh.
  induction visited as [|p visited IH]; intros g w Hvisited Hh.
  - cbn [app]. rewrite (AttachMemorySpaces_unimplemented _ _ _ _ handle) by auto.
    reflexivity.
  - apply Forall_cons in Hvisited as [(h & ms & Hp & Hms) Hvisited].
    cbn [app AttachMemorySpaces]. unfold device_handle in Hp.
    destruct (owned_devices_ g !! p) as [cpp_device|] eqn:Hcpp; [| discriminate].
    injection Hp as <-. cbn [or_undefined].
    rewrite !ret_bind, !(run_bind (invoke _ _)), !run_invoke, Hms.
    rewrite !(run_bind (mapM _ _)).
    destruct (mapM (GetCppMemory g) ms _) as [[cpp_memories|s|c] w1];
      [| reflexivity ..].
    apply IH.
    + eapply Forall_impl; [exact Hvisited |].
      intros q (hq & mq & Hq & Hmq). exists hq, mq.
      rewrite device_handle_attach by assumption. auto.
    + rewrite device_handle_attach by assumption. exact Hh.
Qed.

(** A device object constructed has the handle it was constructed on
    and no memory space. *)
Lemma new_PjRtCApiDevice_returns (api : PJRT_Api) device cpp_device
    (w w' : World) :
  new_PjRtCApiDevice api device w = (Value cpp_device, w') ->
  device_ cpp_device = device /\ memory_spaces_ cpp_device = [].
Proof.
  unfold new_PjRtCApiDevice. intros H.
  apply bind_Value in H as (device_description & w1 & _ & H).
  apply bind_Value in H as (description & w2 & _ & H).
  injection H as <- _. split; reflexivity.
Qed.

(** The loop "Initialize devices", when it returns: the objects it has
    appended and the entries it has made. *)
Lemma InitOwnedDevices_returns (api : PJRT_Api) (ds : list PJRT_Device)
    (g g' : ClientGraph) (w w' : World) :
  InitOwnedDevices api ds g w = (Value g', w') ->
  map device_ (owned_devices_ g') = map device_ (owned_devices_ g) ++ ds
  /\ devices_ g' = devices_ g ++ seq (length (owned_devices_ g)) (length ds)
  /\ addressable_devices_ g' = addressable_devices_ g
  /\ owned_memory_spaces_ g' = owned_memory_spaces_ g
  /\ addressable_memory_spaces_ g' = addressable_memory_spaces_ g
  /\ c_to_cpp_memory_map_ g' = c_to_cpp_memory_map_ g
  /\ (forall d, d ∉ ds ->
        c_to_cpp_device_map_ g' !! d = c_to_cpp_device_map_ g !! d)
  /\ (forall d, d ∈ ds \/ is_Some (c_to_cpp_device_map_ g !! d) ->
        is_Some (c_to_cpp_device_map_ g' !! d))
  /\ (device_map_sound g -> device_map_sound g')
  /\ (Forall (fun dev => memory_spaces_ dev = []) (owned_devices_ g) ->
      Forall (fun dev => memory_spaces_ dev = []) (owned_devices_ g')).
Proof.
  revert g w. induction ds as [|d ds IH]; intros g w H.
  - injection H as <- <-. cbn. rewrite !app_nil_r.
    repeat split; auto. intros x [Hx | Hx]; [inversion Hx | exact Hx].
  - cbn [InitOwnedDevices] in H.
    apply bind_Value in H as (cpp_device & w1 & Hnew & H).
    apply new_PjRtCApiDevice_returns in Hnew as [Hhandle Hnone].
    apply IH in H
      as (H1 & H2 & H3 & H4 & H5 & H6 & Hmap & Hknown & Hsound & Hempty).
    cbn [add_device owned_devices_ devices_ addressable_devices_
         owned_memory_spaces_ addressable_memory_spaces_ c_to_cpp_memory_map_
         c_to_cpp_device_map_] in *.
    rewrite H1, H2, H3, H4, H5, H6.
    rewrite map_app, length_app, <- !app_assoc. cbn [map app length seq].
    rewrite Nat.add_1_r, Hhandle.
    split; [reflexivity |]. split; [reflexivity |]. split; [reflexivity |].
    split; [reflexivity |]. split; [reflexivity |]. split; [reflexivity |].
    split; [| split; [| split]].
    + intros x Hx. apply not_elem_of_cons in Hx as [Hne Hx].
      rewrite Hmap by exact Hx. apply lookup_insert_ne. congruence.
    + intros x Hx. apply Hknown.
      destruct (decide (d = x)) as [<- | Hne].
      * right. rewrite lookup_insert_eq. eauto.
      * rewrite lookup_insert_ne by assumption.
        destruct Hx as [Hx | Hx]; [| auto].
        apply elem_of_cons in Hx as [-> | Hx]; [congruence | auto].
    + intros Hg. apply Hsound. intros handle p. unfold device_handle. cbn.
      destruct (decide (d = handle)) as [<- | Hne].
      * rewrite lookup_insert_eq. intros [= <-].
        rewrite lookup_app_r, Nat.sub_diag by lia. cbn. now rewrite Hhandle.
      * rewrite lookup_insert_ne by assumption. intros Hp.
        specialize (Hg _ _ Hp). unfold device_handle in Hg.
        destruct (owned_devices_ g !! p) as [dev|] eqn:Hdev; [| discriminate].
        rewrite lookup_app_l by (eapply lookup_lt_Some; eauto).
        rewrite Hdev. exact Hg.
    + intros Hg. apply Hempty. apply Forall_app. split; [exact Hg |].
      repeat constructor. exact Hnone.
Qed.

Lemma mapM_GetCppDevice_returns (g : ClientGraph) (handles : list PJRT_Device)
    cpp_devices (w w' : World) :
  mapM (GetCppDevice g) handles w = (Value cpp_devices, w') ->
  w' = w
  /\ Forall2 (fun d p => c_to_cpp_device_map_ g !! d = Some p)
             handles cpp_devices.
Proof.
  revert cpp_devices w'. induction handles as [|d handles IH];
    intros cpp_devices w' H.
  - injection H as <- <-. split; [reflexivity | constructor].
  - change (mapM (GetCppDevice g) (d :: handles))
      with (cpp_device ← GetCppDevice g d;
            rest ← mapM (GetCppDevice g) handles;
            mret (cpp_device :: rest)) in H.
    apply bind_Value in H as (p & w1 & Hp & H).
    unfold GetCppDevice in Hp.
    destruct (c_to_cpp_device_map_ g !! d) as [p'|] eqn:Hd; [| discriminate].
    injection Hp as <- <-.
    apply bind_Value in H as (ps & w2 & Hps & H).
    apply IH in Hps as [-> Hall]. injection H as <- <-.
    split; [reflexivity |]. constructor; assumption.
Qed.

(** The steps "Initialize devices" and "Initialize addressable devices"
    on a new client, when they return. *)
Lemma InitClientDevices_returns (api : PJRT_Api) (c_client : PJRT_Client)
    (g : ClientGraph) (w w' : World) :
  InitClientDevices api c_client new_ClientGraph w = (Value g, w') ->
  exists devices addressable,
    PJRT_Client_Devices api c_client = PjrtOk devices
    /\ PJRT_Client_AddressableDevices api c_client = PjrtOk addressable
    /\ map device_ (owned_devices_ g) = devices
    /\ devices_ g = seq 0 (length devices)
    /\ device_map_sound g
    /\ (forall d, is_Some (c_to_cpp_device_map_ g !! d) <-> d ∈ devices)
    /\ Forall2 (fun d p => c_to_cpp_device_map_ g !! d = Some p)
               addressable (addressable_devices_ g)
    /\ Forall (fun dev => memory_spaces_ dev = []) (owned_devices_ g)
    /\ owned_memory_spaces_ g = []
    /\ addressable_memory_spaces_ g = []
    /\ c_to_cpp_memory_map_ g = ∅.
Proof.
  unfold InitClientDevices. intros H.
  apply bind_Value in H as (r & w1 & Hr & H).
  rewrite run_invoke in Hr. injection Hr as <- <-.
  apply bind_Value in H as (devices & w2 & Hdevices & H).
  destruct (PJRT_Client_Devices api c_client) as [ds|e]; [| discriminate].
  injection Hdevices as <- <-.
  apply bind_Value in H as (g1 & w3 & Hloop & H).
  apply InitOwnedDevices_returns in Hloop
    as (H1 & H2 & H3 & H4 & H5 & H6 & Hmap & Hknown & Hsound & Hempty).
  apply bind_Value in H as (r & w4 & Hr & H).
  rewrite run_invoke in Hr. injection Hr as <- <-.
  apply bind_Value in H as (addressable & w5 & Haddressable & H).
  destruct (PJRT_Client_AddressableDevices api c_client) as [ads|e];
    [| discriminate].
  injection Haddressable as <- <-.
  apply bind_Value in H as (cpp_devices & w6 & Hcpp & H).
  apply mapM_GetCppDevice_returns in Hcpp as [-> Hall].
  injection H as <- <-.
  cbn [new_ClientGraph set_addressable_devices owned_devices_ devices_
       addressable_devices_ c_to_cpp_device_map_ owned_memory_spaces_
       addressable_memory_spaces_ c_to_cpp_memory_map_ map app length] in *.
  exists ds, ads. rewrite H3. cbn [app].
  split; [reflexivity |]. split; [reflexivity |]. split; [exact H1 |].
  split; [exact H2 |]. split.
  { apply Hsound. intros handle p Hp. cbn in Hp.
    rewrite lookup_empty in Hp. discriminate. }
  split.
  { intros d. split.
    - intros Hd. destruct (decide (d ∈ ds)) as [Hin|Hout]; [exact Hin |].
      rewrite Hmap in Hd by exact Hout. rewrite lookup_empty in Hd.
      destruct Hd. discriminate.
    - intros Hd. apply Hknown. left. exact Hd. }
  split; [exact Hall |]. split; [apply Hempty; constructor |]. auto.
Qed.

Lemma set_owned_devices_same (g : ClientGraph) :
  set_owned_devices g (owned_devices_ g) = g.
Proof. destruct g; reflexivity. Qed.

(** The pass "Attach memory spaces to devices" over devices for which
    the plugin reports no memory space: it queries each of them and
    leaves the graph as it is. *)
Lemma AttachMemorySpaces_no_memory (api : PJRT_Api) visited
    (g : ClientGraph) (w : World) :
  Forall (reports_no_memory api g) visited ->
  exists w',
    AttachMemorySpaces api visited g w = (Value g, w')
    /\ plugin_calls w'
       = plugin_calls w
         ++ map Call_Device_AddressableMemories
                (omap (device_handle g) visited).
Proof.
  revert w. induction visited as [|p visited IH]; intros w Hvisited.
  - exists w. split; [reflexivity |]. cbn. now rewrite app_nil_r.
  - apply Forall_cons in Hvisited as [(handle & Hp & Hnone) Hvisited].
    cbn [AttachMemorySpaces omap list_omap]. rewrite Hp. cbn [map].
    unfold device_handle in Hp.
    destruct (owned_devices_ g !! p) as [cpp_device|] eqn:Hcpp; [| discriminate].
    injection Hp as <-. cbn [or_undefined].
    rewrite ret_bind, run_bind, run_invoke, Hnone.
    change (mapM (GetCppMemory g) []) with (mret (M:=M) (@nil nat)).
    rewrite ret_bind, app_nil_r.
    replace {| device_ := device_ cpp_device;
               description_ := description_ cpp_device;
               memory_spaces_ := memory_spaces_ cpp_device |}
      with cpp_device by (destruct cpp_device; reflexivity).
    rewrite list_insert_id by exact Hcpp. rewrite set_owned_devices_same.
    destruct (IH (record_call (Call_Device_AddressableMemories
                                 (device_ cpp_device)) w) Hvisited)
      as (w' & Hrun & Hcalls).
    exists w'. split; [exact Hrun |]. rewrite Hcalls. cbn.
    now rewrite <- app_assoc.
Qed.

(** C6, as the code has it.  At client initialization, (1) when the
    plugin reports UNIMPLEMENTED for PJRT_Client_AddressableMemories, the
    step that enumerates the memory spaces returns with the client's
    containers as they were, which is empty at construction; (2) the pass
    that attaches memory spaces to devices, once the plugin has answered
    for the devices visited so far and reports UNIMPLEMENTED for the next
    one, returns without failure what it has attached so far and does not
    query the devices that remain; (3) once the devices are initialized,
    against a plugin that reports UNIMPLEMENTED for the memory spaces of
    the client, no memory space for the addressable devices [visited],
    and UNIMPLEMENTED for the next addressable device if there is one,
    InitDevicesAndMemorySpaces returns: the client has no memory space,
    neither have its devices, and only [visited] and that next device
    have been queried; (4) but if the first addressable device reports
    a memory space, the process ends on the CHECK of GetCppMemory. *)
Theorem memory_spaces_unimplemented
    (api : PJRT_Api) (c_client : PJRT_Client) (g : ClientGraph) (w : World) :
  (reports_unimplemented (PJRT_Client_AddressableMemories api c_client) ->
     InitAddressableMemorySpaces api c_client g w
     = (Value g, record_call (Call_Client_AddressableMemories c_client) w))
  /\ (forall visited device rest handle,
        Forall (answers api g) visited ->
        device_handle g device = Some handle ->
        reports_unimplemented (PJRT_Device_AddressableMemories api handle) ->
        AttachMemorySpaces api (visited ++ device :: rest) g w
        = match AttachMemorySpaces api visited g w with
          | (Value g', w') =>
              (Value g', record_call (Call_Device_AddressableMemories handle) w')
          | failure => failure
          end)
  /\ (forall g1 w1 visited rest,
        InitClientDevices api c_client new_ClientGraph w = (Value g1, w1) ->
        reports_unimplemented (PJRT_Client_AddressableMemories api c_client) ->
        addressable_devices_ g1 = visited ++ rest ->
        Forall (reports_no_memory api g1) visited ->
        (forall next, head rest = Some next ->
           exists handle,
             device_handle g1 next = Some handle
             /\ reports_unimplemented
                  (PJRT_Device_AddressableMemories api handle)) ->
        exists w',
          InitDevicesAndMemorySpaces api c_client new_ClientGraph w
          = (Value g1, w')
          /\ owned_memory_spaces_ g1 = []
          /\ addressable_memory_spaces_ g1 = []
          /\ c_to_cpp_memory_map_ g1 = ∅
          /\ Forall (fun dev => memory_spaces_ dev = []) (owned_devices_ g1)
          /\ plugin_calls w'
             = plugin_calls w1
               ++ Call_Client_AddressableMemories c_client
                  :: map Call_Device_AddressableMemories
                         (omap (device_handle g1)
                               (visited ++ option_list (head rest))))
  /\ (forall g1 w1 first rest handle memory memories,
        InitClientDevices api c_client new_ClientGraph w = (Value g1, w1) ->
        reports_unimplemented (PJRT_Client_AddressableMemories api c_client) ->
        addressable_devices_ g1 = first :: rest ->
        device_handle g1 first = Some handle ->
        PJRT_Device_AddressableMemories api handle
        = PjrtOk (memory :: memories) ->
        InitDevicesAndMemorySpaces api c_client new_ClientGraph w
        = (Crashed CheckFailed,
           record_call (Call_Device_AddressableMemories handle)
             (record_call (Call_Client_AddressableMemories c_client) w1))).
Proof.
  assert (forall g0 w0,
            reports_unimplemented (PJRT_Client_AddressableMemories api c_client) ->
            InitAddressableMemorySpaces api c_client g0 w0
            = (Value g0, record_call (Call_Client_AddressableMemories c_client) w0))
    as Hstep.
  { intros g0 w0 (e & He & Hcode). unfold InitAddressableMemorySpaces.
    rewrite run_bind, run_invoke, He, Hcode. reflexivity. }
  split; [apply Hstep |]. split; [intros; now apply AttachMemorySpaces_stops |].
  split.
  - intros g1 w1 visited rest Hinit Hmem Haddressable Hvisited Hnext.
    destruct (InitClientDevices_returns _ _ _ _ _ Hinit)
      as (ds & ads & _ & _ & _ & _ & _ & _ & _ & Hempty & Hm1 & Hm2 & Hm3).
    unfold InitDevicesAndMemorySpaces.
    rewrite run_bind, Hinit, run_bind, Hstep by assumption.
    rewrite run_bind, Haddressable.
    set (w2 := record_call (Call_Client_AddressableMemories c_client) w1).
    assert (exists w',
              AttachMemorySpaces api (visited ++ rest) g1 w2 = (Value g1, w')
              /\ plugin_calls w'
                 = plugin_calls w2
                   ++ map Call_Device_AddressableMemories
                          (omap (device_handle g1)
                                (visited ++ option_list (head rest))))
      as (w' & Hrun & Hcalls).
    { destruct (AttachMemorySpaces_no_memory api visited g1 w2 Hvisited)
        as (w3 & Hrun & Hcalls).
      destruct rest as [|next rest].
      - rewrite !app_nil_r. exists w3. auto.
      - destruct (Hnext next eq_refl) as (handle & Hhandle & Hu).
        rewrite (AttachMemorySpaces_stops api visited next rest g1 handle).
        + rewrite Hrun. eexists. split; [reflexivity |].
          cbn [record_call plugin_calls head option_list].
          rewrite Hcalls, omap_app, map_app, <- app_assoc.
          change (option_list (Some next)) with [next].
          cbn [omap list_omap]. rewrite Hhandle. reflexivity.
        + eapply Forall_impl; [exact Hvisited |].
          intros p (h & Hp & Hnone). exists h, []. auto.
        + exact Hhandle.
        + exact Hu. }
    rewrite Hrun, Hm2. cbn [AttachDevices].
    exists w'. split; [reflexivity |].
    split; [exact Hm1 |]. split; [reflexivity |]. split; [exact Hm3 |].
    split; [exact Hempty |].
    rewrite Hcalls. subst w2. cbn [record_call plugin_calls].
    rewrite <- app_assoc. reflexivity.
  - intros g1 w1 first rest handle memory memories Hinit Hmem Haddressable
      Hhandle Hplugin.
    destruct (InitClientDevices_returns _ _ _ _ _ Hinit)
      as (ds & ads & _ & _ & _ & _ & _ & _ & _ & _ & _ & _ & Hm3).
    unfold InitDevicesAndMemorySpaces.
    rewrite run_bind, Hinit, run_bind, Hstep by assumption.
    rewrite run_bind, Haddressable. cbn [AttachMemorySpaces].
    unfold device_handle in Hhandle.
    destruct (owned_devices_ g1 !! first) as [cpp_device|]; [| discriminate].
    injection Hhandle as <-. cbn [or_undefined].
    rewrite ret_bind, run_bind, run_invoke, Hplugin.
    change (mapM (GetCppMemory g1) (memory :: memories))
      with (cpp_memory ← GetCppMemory g1 memory;
            others ← mapM (GetCppMemory g1) memories;
            mret (cpp_memory :: others)).
    assert (GetCppMemory g1 memory = crash CheckFailed) as ->
      by (unfold GetCppMemory; rewrite Hm3, lookup_empty; reflexivity).
    reflexivity.
Qed.

(** *** The ready future of a buffer *)

Lemma run_on_ready_fields cb error (w : World) :
  plugin_calls (run_on_ready cb error w) = plugin_calls w
  /\ on_ready_callbacks (run_on_ready cb error w) = on_ready_callbacks w
  /\ completed_events (run_on_ready cb error w) = completed_events w
  /\ next_promise (run_on_ready cb error w) = next_promise w.
Proof. destruct cb; cbn; auto. Qed.

Lemma sets_of_run_on_ready promise cb error (w : World) :
  sets_of promise (run_on_ready cb error w)
  = sets_of promise w
    ++ (if tracks promise cb then [PjrtErrorPtrToStatus error] else []).
Proof.
  unfold sets_of. destruct cb as [f|q]; cbn; [now rewrite app_nil_r |].
  rewrite List.filter_app, fmap_app. cbn. destruct (N.eqb q promise); reflexivity.
Qed.

Lemma run_all_fields error cs (w : World) :
  plugin_calls (run_all error cs w) = plugin_calls w
  /\ on_ready_callbacks (run_all error cs w) = on_ready_callbacks w
  /\ completed_events (run_all error cs w) = completed_events w
  /\ next_promise (run_all error cs w) = next_promise w.
Proof.
  revert w. induction cs as [|c cs IH]; intros w; [cbn; auto |].
  change (run_all error (c :: cs) w)
    with (run_all error cs (run_on_ready (snd c) error w)).
  destruct (IH (run_on_ready (snd c) error w)) as (-> & -> & -> & ->).
  apply run_on_ready_fields.
Qed.

Lemma sets_of_run_all promise error cs (w : World) :
  sets_of promise (run_all error cs w)
  = sets_of promise w
    ++ map (fun _ => PjrtErrorPtrToStatus error)
           (List.filter (fun c => tracks promise (snd c)) cs).
Proof.
  revert w. induction cs as [|c cs IH]; intros w; [cbn; now rewrite app_nil_r |].
  change (run_all error (c :: cs) w)
    with (run_all error cs (run_on_ready (snd c) error w)).
  rewrite IH, sets_of_run_on_ready, <- app_assoc. cbn [List.filter].
  destruct (tracks promise (snd c)); reflexivity.
Qed.

Lemma event_completes_eq event error (w : World) :
  event_completes event error w
  = match event_status event w with
    | Some _ => w
    | None =>
        run_all error
          (List.filter (fun c => N.eqb (fst c) event) (on_ready_callbacks w))
          (MkWorld (plugin_calls w)
             (List.filter (fun c => negb (N.eqb (fst c) event))
                (on_ready_callbacks w))
             (completed_events w ++ [(event, error)])
             (promise_sets w) (next_promise w) (host_log w) (next_address w))
    end.
Proof. reflexivity. Qed.

Lemma event_status_completed event error (w : World) :
  event_status event (event_completes event error w) <> None.
Proof.
  rewrite event_completes_eq.
  destruct (event_status event w) as [e|] eqn:Hs; [rewrite Hs; discriminate |].
  unfold event_status in *.
  destruct (run_all_fields error
              (List.filter (fun c => N.eqb (fst c) event) (on_ready_callbacks w))
              (MkWorld (plugin_calls w)
                 (List.filter (fun c => negb (N.eqb (fst c) event))
                    (on_ready_callbacks w))
                 (completed_events w ++ [(event, error)])
                 (promise_sets w) (next_promise w) (host_log w) (next_address w)))
    as (_ & _ & -> & _).
  cbn [completed_events]. clear Hs.
  match goal with
  | |- context [List.find ?f ?l] => destruct (List.find f l) as [c|] eqn:Hfind
  end; [discriminate |].
  pose proof (find_none _ _ Hfind (event, error)) as Hnone.
  cbn in Hnone. rewrite N.eqb_refl in Hnone.
  discriminate Hnone. apply in_or_app; right; left; reflexivity.
Qed.

Lemma asks_again (this : PjRtCApiBuffer) promise (w : World) :
  readiness_promise_ this = Some promise ->
  GetReadyFuture this w = (Value (FutureOfPromise promise, this), w).
Proof. intros H. unfold GetReadyFuture. rewrite H. reflexivity. Qed.

Lemma registrations_record_call promise c (w : World) :
  registrations promise (record_call c w)
  = registrations promise w
    ++ match c with
       | Call_Event_OnReady _ cb => if tracks promise cb then [c] else []
       | _ => []
       end.
Proof.
  unfold registrations. cbn. rewrite List.filter_app. cbn.
  destruct c; reflexivity.
Qed.

Lemma GetReadyEvent_fetches (this : PjRtCApiBuffer) event (w : World) :
  PJRT_Buffer_ReadyEvent (c_api_ (client_ this)) (buffer_ this) = PjrtOk event ->
  readiness_event_ this = None \/ readiness_event_ this = Some event ->
  exists w',
    GetReadyEvent this w
    = (Value (event,
              MkBuffer (client_ this) (buffer_ this) (Some event)
                       (readiness_promise_ this)), w')
    /\ (w' = w \/ w' = record_call (Call_Buffer_ReadyEvent (buffer_ this)) w).
Proof.
  intros Hready Hevent. unfold GetReadyEvent.
  destruct Hevent as [-> | Hsome].
  - rewrite run_bind, run_invoke, Hready. eexists. split; [reflexivity | auto].
  - rewrite Hsome. exists w. split; [| auto].
    destruct this; cbn in *; subst; reflexivity.
Qed.

Lemma sets_of_eq promise (w w' : World) :
  promise_sets w = promise_sets w' -> sets_of promise w = sets_of promise w'.
Proof. unfold sets_of. now intros ->. Qed.

Lemma closures_of_eq promise (w w' : World) :
  on_ready_callbacks w = on_ready_callbacks w' ->
  closures_of promise w = closures_of promise w'.
Proof. unfold closures_of. now intros ->. Qed.

Lemma registrations_eq promise (w w' : World) :
  plugin_calls w = plugin_calls w' ->
  registrations promise w = registrations promise w'.
Proof. unfold registrations. now intros ->. Qed.

Lemma sets_of_set promise q status (w w' : World) :
  promise_sets w' = promise_sets w ++ [(q, status)] ->
  sets_of promise w'
  = sets_of promise w ++ (if N.eqb q promise then [status] else []).
Proof.
  unfold sets_of. intros ->. rewrite List.filter_app, fmap_app. cbn.
  destruct (N.eqb q promise); reflexivity.
Qed.

Lemma closures_of_add promise event cb (w w' : World) :
  on_ready_callbacks w' = on_ready_callbacks w ++ [(event, cb)] ->
  closures_of promise w'
  = closures_of promise w ++ (if tracks promise cb then [(event, cb)] else []).
Proof.
  unfold closures_of. intros ->. rewrite List.filter_app. cbn.
  destruct (tracks promise cb); reflexivity.
Qed.

Lemma asks_first (this : PjRtCApiBuffer) promise event (w : World) :
  PJRT_Buffer_ReadyEvent (c_api_ (client_ this)) (buffer_ this) = PjrtOk event ->
  in_phase promise event NotAsked this w ->
  exists this' w',
    GetReadyFuture this w = (Value (FutureOfPromise promise, this'), w')
    /\ (in_phase promise event Waiting this' w'
        \/ in_phase promise event Resolved this' w').
Proof.
  intros Hready (Hnone & Hevent & <- & Hunused).
  destruct (Hunused (next_promise w) (N.le_refl _)) as (Hsets & Hclosures & Hregs).
  unfold GetReadyFuture. rewrite Hnone.
  unfold CreatePromise at 1. rewrite run_bind. cbn beta iota.
  set (w1 := MkWorld _ _ _ _ (N.succ _) _ _).
  unfold MakePromiseTrackEvent. cbn [readiness_promise_ client_ buffer_].
  destruct (GetReadyEvent_fetches
              (MkBuffer (client_ this) (buffer_ this) (readiness_event_ this)
                        (Some (next_promise w))) event w1 Hready Hevent)
    as (w2 & Hget & Hw2).
  rewrite run_bind, (run_bind (GetReadyEvent _)), Hget.
  cbn [fst snd client_ buffer_ readiness_promise_].
  assert (sets_of (next_promise w) w2 = []
          /\ closures_of (next_promise w) w2 = []
          /\ registrations (next_promise w) w2 = []
          /\ next_promise w2 = N.succ (next_promise w)) as (Hs2 & Hc2 & Hr2 & Hn2).
  { destruct Hw2 as [-> | ->]; subst w1.
    - split; [exact Hsets |]. split; [exact Hclosures |].
      split; [exact Hregs | reflexivity].
    - split; [exact Hsets |]. split; [exact Hclosures |].
      split; [| reflexivity].
      unfold registrations. cbn [plugin_calls record_call].
      rewrite List.filter_app. fold (registrations (next_promise w) w).
      rewrite Hregs. reflexivity. }
  clearbody w1. clear Hget Hw2.
  unfold Event_OnReady. rewrite !run_bind, run_invoke.
  set (call := Call_Event_OnReady event (TrackPromise (next_promise w))).
  assert (registrations (next_promise w) (record_call call w2) = [call]) as Hr3.
  { rewrite registrations_record_call, Hr2. unfold call. cbn [tracks].
    rewrite N.eqb_refl. reflexivity. }
  destruct (PJRT_Event_OnReady _ event) as [[]|e]; cbn beta iota.
  - unfold read, update. cbn beta iota.
    eexists _, _. split; [reflexivity |].
    destruct (event_status event (record_call call w2)) as [error|] eqn:Hstatus.
    + right. cbn [in_phase readiness_promise_]. split; [reflexivity |].
      destruct (run_on_ready_fields (TrackPromise (next_promise w)) error
                  (record_call call w2)) as (Hp & Hcb & _ & Hnext).
      split; [rewrite Hnext; exact Hn2 |].
      rewrite sets_of_run_on_ready. cbn [tracks]. rewrite N.eqb_refl.
      rewrite (sets_of_eq _ _ w2), Hs2 by reflexivity.
      split; [reflexivity |].
      rewrite (closures_of_eq _ _ w2), Hc2 by (rewrite Hcb; reflexivity).
      split; [reflexivity |].
      rewrite (registrations_eq _ _ (record_call call w2)) by exact Hp.
      exact Hr3.
    + left. cbn [in_phase readiness_promise_]. split; [reflexivity |].
      split; [exact Hn2 |]. split; [exact Hs2 |].
      rewrite (closures_of_add _ event (TrackPromise (next_promise w)) w2)
        by reflexivity.
      rewrite Hc2. cbn [tracks]. rewrite N.eqb_refl.
      split; [reflexivity |]. split; [exact Hr3 | exact Hstatus].
  - unfold Promise_Set, update. cbn beta iota.
    eexists _, _. split; [reflexivity |].
    right. cbn [in_phase readiness_promise_]. split; [reflexivity |].
    split; [exact Hn2 |].
    rewrite (sets_of_set _ (next_promise w) (PjrtErrorToStatus e) w2)
      by reflexivity.
    rewrite Hs2, N.eqb_refl. split; [reflexivity |].
    split; [exact Hc2 | exact Hr3].
Qed.

Lemma filter_comm {A} (f g : A -> bool) (l : list A) :
  List.filter f (List.filter g l) = List.filter g (List.filter f l).
Proof.
  induction l as [|x l IH]; [reflexivity |]. cbn.
  destruct (f x) eqn:Hf, (g x) eqn:Hg; cbn; rewrite ?Hf, ?Hg, IH; reflexivity.
Qed.

(** What the completion of [event] does to a promise: every closure on
    the promise that waits on the event sets it, once, and is gone. *)
Lemma event_completes_observed promise event error (w : World) :
  let w' := event_completes event error w in
  registrations promise w' = registrations promise w
  /\ next_promise w' = next_promise w
  /\ (event_status event w <> None /\ w' = w
      \/ event_status event w = None
         /\ sets_of promise w'
            = sets_of promise w
              ++ map (fun _ => PjrtErrorPtrToStatus error)
                     (List.filter (fun c => N.eqb (fst c) event)
                                  (closures_of promise w))
         /\ closures_of promise w'
            = List.filter (fun c => negb (N.eqb (fst c) event))
                          (closures_of promise w)).
Proof.
  cbv zeta. rewrite event_completes_eq.
  destruct (event_status event w) as [e|] eqn:Hs.
  - split; [reflexivity |]. split; [reflexivity |]. left. split; [discriminate | reflexivity].
  - match goal with
    | |- context [run_all error ?cs ?w0] =>
        destruct (run_all_fields error cs w0) as (Hp & Hcb & _ & Hn)
    end.
    split; [exact (registrations_eq promise _ w Hp) |].
    split; [exact Hn |].
    right. split; [reflexivity |]. split.
    + rewrite sets_of_run_all. unfold closures_of.
      rewrite filter_comm. reflexivity.
    + unfold closures_of. rewrite Hcb. cbn [on_ready_callbacks].
      apply filter_comm.
Qed.

Lemma completes_in_phase promise event error ph (this : PjRtCApiBuffer)
    (w : World) :
  in_phase promise event ph this w ->
  in_phase promise event
    match ph with NotAsked => NotAsked | _ => Resolved end
    this (event_completes event error w).
Proof.
  destruct (event_completes_observed promise event error w)
    as (Hregs & Hnext & Hcases).
  destruct ph; cbn [in_phase].
  - intros (Hnone & Hevent & Hp & Hunused).
    split; [exact Hnone |]. split; [exact Hevent |].
    split; [rewrite Hnext; exact Hp |].
    intros q Hq. destruct (Hunused q Hq) as (Hs & Hc & Hr).
    destruct (event_completes_observed q event error w) as (Hregs' & _ & Hcases').
    rewrite Hregs'. split; [| split; [| exact Hr]].
    + destruct Hcases' as [[_ ->] | (_ & -> & _)]; [exact Hs |].
      rewrite Hs, Hc. reflexivity.
    + destruct Hcases' as [[_ ->] | (_ & _ & ->)]; [exact Hc |].
      rewrite Hc. reflexivity.
  - intros (Hsome & Hn & Hs & Hc & Hr & Hstatus).
    destruct Hcases as [[Hcompleted _] | (_ & Hsets & Hclosures)];
      [congruence |].
    split; [exact Hsome |]. split; [rewrite Hnext; exact Hn |].
    rewrite Hsets, Hclosures, Hs, Hc, Hregs. cbn. rewrite N.eqb_refl. cbn. auto.
  - intros (Hsome & Hn & Hs & Hc & Hr).
    split; [exact Hsome |]. split; [rewrite Hnext; exact Hn |].
    rewrite Hregs.
    destruct Hcases as [[_ ->] | (_ & -> & ->)]; [auto |].
    rewrite Hc. cbn. rewrite app_nil_r. auto.
Qed.

Lemma drive_phases promise event steps ph (this : PjRtCApiBuffer) (w : World) :
  PJRT_Buffer_ReadyEvent (c_api_ (client_ this)) (buffer_ this) = PjrtOk event ->
  in_phase promise event ph this w ->
  exists futures this' w' ph',
    drive event steps this w = (Value (futures, this'), w')
    /\ in_phase promise event ph' this' w'
    /\ Forall (fun f => f = FutureOfPromise promise) futures
    /\ length futures = length (List.filter is_asks steps)
    /\ (ph' = NotAsked -> ph = NotAsked /\ futures = []).
Proof.
  revert ph this w. induction steps as [|step steps IH]; intros ph this w Hready Hph.
  - exists [], this, w, ph. cbn. repeat split; auto.
  - destruct step as [|error].
    + assert (exists this1 w1 ph1,
                GetReadyFuture this w
                = (Value (FutureOfPromise promise, this1), w1)
                /\ in_phase promise event ph1 this1 w1
                /\ ph1 <> NotAsked
                /\ client_ this1 = client_ this /\ buffer_ this1 = buffer_ this)
        as (this1 & w1 & ph1 & Hget & Hph1 & Hne & Hc1 & Hb1).
      { destruct ph.
        - destruct (asks_first this promise event w Hready Hph)
            as (this1 & w1 & Hget & Hph1).
          assert (client_ this1 = client_ this /\ buffer_ this1 = buffer_ this)
            as [Hc Hb].
          { unfold GetReadyFuture in Hget. destruct Hph as (Hnone & _).
            rewrite Hnone in Hget.
            apply bind_Value in Hget as (p0 & w0 & _ & Hget).
            apply bind_Value in Hget as (b0 & w2 & Hmake & Hget).
            injection Hget as _ <- _.
            unfold MakePromiseTrackEvent in Hmake. cbn in Hmake.
            apply bind_Value in Hmake as (got & w3 & Hev & Hmake).
            assert (client_ (snd got) = client_ this
                    /\ buffer_ (snd got) = buffer_ this) as Hgot.
            { unfold GetReadyEvent in Hev. cbn in Hev.
              destruct (readiness_event_ this).
              - injection Hev as <- _. auto.
              - apply bind_Value in Hev as (r & w4 & _ & Hev).
                apply bind_Value in Hev as (e0 & w5 & _ & Hev).
                injection Hev as <- _. auto. }
            apply bind_Value in Hmake as (r & w4 & _ & Hmake).
            destruct r.
            - injection Hmake as <- _. exact Hgot.
            - apply bind_Value in Hmake as (u & w5 & _ & Hmake).
              injection Hmake as <- _. exact Hgot. }
          destruct Hph1 as [Hph1 | Hph1];
            [exists this1, w1, Waiting | exists this1, w1, Resolved];
            (split; [exact Hget |]; split; [exact Hph1 |];
             split; [discriminate |]; split; assumption).
        - exists this, w, Waiting.
          rewrite (asks_again this promise w (proj1 Hph)).
          split; [reflexivity |]. split; [exact Hph |].
          split; [discriminate |]. split; reflexivity.
        - exists this, w, Resolved.
          rewrite (asks_again this promise w (proj1 Hph)).
          split; [reflexivity |]. split; [exact Hph |].
          split; [discriminate |]. split; reflexivity. }
      destruct (IH ph1 this1 w1) as (futures & this' & w' & ph' & Hrun & Hph' & Hall & Hlen & Hnot);
        [rewrite Hc1, Hb1; exact Hready | exact Hph1 |].
      exists (FutureOfPromise promise :: futures), this', w', ph'.
      cbn [drive]. rewrite run_bind, Hget. cbn [snd fst]. rewrite run_bind, Hrun.
      split; [reflexivity |]. split; [exact Hph' |].
      split; [constructor; auto |]. split; [cbn; rewrite Hlen; reflexivity |].
      intros ->. destruct (Hnot eq_refl) as [-> _]. congruence.
    + destruct (IH _ this (event_completes event error w) Hready
                  (completes_in_phase promise event error ph this w Hph))
        as (futures & this' & w' & ph' & Hrun & Hph' & Hall & Hlen & Hnot).
      exists futures, this', w', ph'.
      cbn [drive]. rewrite run_bind. unfold update at 1. cbn beta iota.
      split; [exact Hrun |]. split; [exact Hph' |]. split; [exact Hall |].
      split; [exact Hlen |].
      intros ->. destruct (Hnot eq_refl) as [Hph0 ->].
      split; [destruct ph; [reflexivity | discriminate ..] | reflexivity].
Qed.

(** C2.  Take a buffer that has not been asked for its ready future, a
    plugin that reports the buffer's ready event, and any sequence of
    calls of GetReadyFuture and completions of that event.  Every call
    returns a future on one and the same promise, the one the first call
    creates.  Once there has been a call, the promise is cached in the
    buffer, one promise has been created, and one completion callback on it
    has been registered with PJRT_Event_OnReady; the promise has been set at
    most once, and exactly once if the event has completed; and when the
    event completes after these steps it has been set exactly once.  So
    all callers see, on their futures, the status of that one promise. *)
Theorem GetReadyFuture_one_promise
    (this : PjRtCApiBuffer) (event : PJRT_Event) (steps : list Step) (w : World) :
  PJRT_Buffer_ReadyEvent (c_api_ (client_ this)) (buffer_ this) = PjrtOk event ->
  readiness_promise_ this = None ->
  readiness_event_ this = None \/ readiness_event_ this = Some event ->
  unused_from (next_promise w) w ->
  let promise := next_promise w in
  exists futures this' w',
    drive event steps this w = (Value (futures, this'), w')
    /\ length futures = length (List.filter is_asks steps)
    /\ Forall (fun f => f = FutureOfPromise promise) futures
    /\ (forall w'',
          Forall (fun f => future_status f w'' = promise_status promise w'')
                 futures)
    /\ (futures <> [] ->
        readiness_promise_ this' = Some promise
        /\ next_promise w' = N.succ promise
        /\ registrations promise w'
           = [Call_Event_OnReady event (TrackPromise promise)]
        /\ length (sets_of promise w') <= 1
        /\ (event_status event w' <> None -> length (sets_of promise w') = 1)
        /\ forall error,
             length (sets_of promise (event_completes event error w')) = 1).
Proof.
  intros Hready Hnone Hevent Hunused promise.
  destruct (drive_phases promise event steps NotAsked this w Hready)
    as (futures & this' & w' & ph' & Hrun & Hph' & Hall & Hlen & Hnot).
  { cbn. auto. }
  exists futures, this', w'. split; [exact Hrun |]. split; [exact Hlen |].
  split; [exact Hall |].
  split; [intros w''; eapply Forall_impl; [exact Hall |]; now intros f -> |].
  intros Hne.
  destruct ph'.
  - destruct (Hnot eq_refl) as [_ ->]. congruence.
  - pose proof (completes_in_phase promise event) as Hcompletes.
    destruct Hph' as (Hsome & Hn & Hs & Hc & Hr & Hstatus).
    split; [exact Hsome |]. split; [exact Hn |]. split; [exact Hr |].
    split; [rewrite Hs; cbn; lia |]. split; [congruence |].
    intros error.
    refine (proj1 (proj2 (proj2 (Hcompletes error Waiting this' w' _)))).
    cbn. repeat split; assumption.
  - pose proof (completes_in_phase promise event) as Hcompletes.
    destruct Hph' as (Hsome & Hn & Hs & Hc & Hr).
    split; [exact Hsome |]. split; [exact Hn |]. split; [exact Hr |].
    split; [lia |]. split; [auto |].
    intros error.
    refine (proj1 (proj2 (proj2 (Hcompletes error Resolved this' w' _)))).
    cbn. repeat split; assumption.
Qed.

End Properties.

(** ** Further properties of the adapter *)

Section FurtherProperties.
Context {helpers : PjrtHelpers} {client_helpers : ClientHelpers}.

Ltac quiet :=
  repeat first
    [ apply quiet_ret | apply quiet_fail | apply quiet_crash
    | apply quiet_or_undefined | apply quiet_RETURN_STATUS_IF_PJRT_ERROR
    | apply quiet_LogFatalIfPjrtError | apply quiet_lift_statusor
    | apply quiet_bind; [| intros ?]
    | match goal with
      | |- quiet (if ?b then _ else _) => destruct b
      | |- quiet (match ?x with _ => _ end) => destruct x
      end ].

(** *** Marshalling of the host callbacks *)

Lemma CppCallbackListToC_fits {T} (channel : T -> Z) (fn : T -> N)
    (cpp_list : list T) (func_count : nat) (functions : list (option N)) :
  func_count + length cpp_list <= length functions ->
  CppCallbackListToC channel fn cpp_list func_count functions
  = Some (imap (fun k cb => {| info_channel_id := channel cb;
                               info_user_arg := func_count + k |}) cpp_list,
          func_count + length cpp_list,
          take func_count functions
          ++ map (fun cb => Some (fn cb)) cpp_list
          ++ drop (func_count + length cpp_list) functions).
Proof.
  revert func_count functions.
  induction cpp_list as [|cb rest IH]; intros n fs Hfit.
  - cbn. rewrite Nat.add_0_r, take_drop. reflexivity.
  - cbn [CppCallbackListToC length] in *.
    destruct (decide (n < length fs)) as [Hlt|]; [|lia].
    rewrite IH by (rewrite length_insert; lia).
    cbn [imap mbind option_bind].
    assert (imap ((fun k cb0 => {| info_channel_id := channel cb0;
                                   info_user_arg := S n + k |}))
                 rest
            = imap ((fun k cb0 => {| info_channel_id := channel cb0;
                                     info_user_arg := n + k |}) ∘ S) rest)
      as -> by (apply imap_ext; intros k x _; cbn; f_equal; lia).
    rewrite Nat.add_0_r.
    replace (S n + length rest) with (n + S (length rest)) by lia.
    do 2 f_equal.
    rewrite drop_insert_lt by lia.
    rewrite (take_S_r (<[n:=Some (fn cb)]> fs) n (Some (fn cb)))
      by (apply list_lookup_insert_eq; lia).
    rewrite take_insert_ge by lia.
    cbn. rewrite <- app_assoc. reflexivity.
Qed.

Lemma CppCallbackListToC_overflows {T} (channel : T -> Z) (fn : T -> N)
    (cpp_list : list T) (func_count : nat) (functions : list (option N)) :
  cpp_list <> [] ->
  length functions < func_count + length cpp_list ->
  CppCallbackListToC channel fn cpp_list func_count functions = None.
Proof.
  revert func_count functions.
  induction cpp_list as [|cb rest IH]; intros n fs Hne Hover; [done |].
  cbn [CppCallbackListToC length] in *.
  destruct (decide (n < length fs)) as [Hlt|]; [|reflexivity].
  destruct rest as [|cb' rest']; [cbn in Hover; lia |].
  rewrite IH; [reflexivity | done | rewrite length_insert; cbn in *; lia].
Qed.

Lemma CppCallbackListsLoop_fits {T} (channel : T -> Z) (fn : T -> N)
    (cpp_lists : list (list T)) (func_count : nat)
    (functions : list (option N)) (c_lists : list (list PJRT_CallbackInfo)) :
  func_count + length (concat cpp_lists) <= length functions ->
  exists new,
    CppCallbackListsLoop channel fn cpp_lists func_count functions c_lists
    = Some (take func_count functions
            ++ map (fun cb => Some (fn cb)) (concat cpp_lists)
            ++ drop (func_count + length (concat cpp_lists)) functions,
            c_lists ++ new)
    /\ map length new = map length cpp_lists
    /\ forall i l j cb,
         cpp_lists !! i = Some l -> l !! j = Some cb ->
         new !! i ≫= (.!! j)
         = Some {| info_channel_id := channel cb;
                   info_user_arg :=
                     func_count + length (concat (take i cpp_lists)) + j |}.
Proof.
  revert func_count functions c_lists.
  induction cpp_lists as [|l rest IH]; intros n fs cs Hfit.
  - exists []. cbn. rewrite Nat.add_0_r, take_drop, app_nil_r.
    repeat split. intros i l j cb Hi. done.
  - cbn [concat] in Hfit. rewrite length_app in Hfit.
    cbn [CppCallbackListsLoop].
    rewrite CppCallbackListToC_fits by lia. cbn [mbind option_bind].
    set (fs1 := take n fs ++ map (fun cb => Some (fn cb)) l
                ++ drop (n + length l) fs).
    assert (length fs1 = length fs) as Hlen.
    { unfold fs1. rewrite !length_app, length_map, length_take, length_drop.
      lia. }
    destruct (IH (n + length l) fs1 (cs ++ [imap (fun k cb =>
                {| info_channel_id := channel cb; info_user_arg := n + k |}) l]))
      as (new & Hrun & Hshape & Hslots); [lia |].
    exists (imap (fun k cb => {| info_channel_id := channel cb;
                                 info_user_arg := n + k |}) l :: new).
    split; [|split].
    + rewrite Hrun. f_equal. f_equal.
      * cbn [concat]. rewrite length_app, map_app.
        assert (take (n + length l) fs1
                = take n fs ++ map (fun cb => Some (fn cb)) l) as ->.
        { unfold fs1. rewrite app_assoc. apply take_app_length'.
          rewrite length_app, length_map, length_take. lia. }
        assert (drop (n + length l + length (concat rest)) fs1
                = drop (n + (length l + length (concat rest))) fs) as ->.
        { unfold fs1. rewrite app_assoc.
          rewrite <- drop_drop.
          rewrite drop_app_length'
            by (rewrite length_app, length_map, length_take; lia).
          rewrite drop_drop. f_equal. lia. }
        rewrite <- !app_assoc. reflexivity.
      * rewrite <- app_assoc. reflexivity.
    + cbn. rewrite length_imap, Hshape. reflexivity.
    + intros i l' j cb Hi Hj. destruct i as [|i]; cbn in Hi.
      * injection Hi as <-. cbn. rewrite list_lookup_imap, Hj. cbn.
        rewrite Nat.add_0_r. reflexivity.
      * change ((imap (fun k cb0 => {| info_channel_id := channel cb0;
                                        info_user_arg := n + k |}) l :: new)
                !! S i) with (new !! i).
        rewrite (Hslots i l' j cb Hi Hj).
        cbn [take concat]. rewrite length_app. do 2 f_equal. lia.
Qed.

Lemma CppCallbackListsLoop_overflows {T} (channel : T -> Z) (fn : T -> N)
    (cpp_lists : list (list T)) (func_count : nat)
    (functions : list (option N)) (c_lists : list (list PJRT_CallbackInfo)) :
  func_count <= length functions ->
  length functions < func_count + length (concat cpp_lists) ->
  CppCallbackListsLoop channel fn cpp_lists func_count functions c_lists = None.
Proof.
  revert func_count functions c_lists.
  induction cpp_lists as [|l rest IH]; intros n fs cs Hn Hover.
  - cbn in Hover. lia.
  - cbn [concat] in Hover. rewrite length_app in Hover.
    cbn [CppCallbackListsLoop].
    destruct (decide (n + length l <= length fs)) as [Hfit|Hnofit].
    + rewrite CppCallbackListToC_fits by done. cbn [mbind option_bind].
      apply IH.
      * rewrite !length_app, length_map, length_take, length_drop. lia.
      * rewrite !length_app, length_map, length_take, length_drop. lia.
    + rewrite CppCallbackListToC_overflows; [reflexivity | | lia].
      intros ->. cbn in Hnofit. lia.
Qed.

Lemma lookup_concat_take {A} (ls : list (list A)) i l j (x : A) :
  ls !! i = Some l -> l !! j = Some x ->
  concat ls !! (length (concat (take i ls)) + j) = Some x.
Proof.
  revert i. induction ls as [|l0 ls IH]; intros i Hi Hj; [done |].
  destruct i as [|i]; cbn in Hi.
  - injection Hi as ->. cbn. apply lookup_app_l_Some. exact Hj.
  - cbn [take concat]. rewrite length_app, <- Nat.add_assoc.
    rewrite lookup_app_r by lia.
    replace (length l0 + (length (concat (take i ls)) + j) - length l0)
      with (length (concat (take i ls)) + j) by lia.
    apply IH; assumption.
Qed.

(** X1.  CppSendCallbackListsToC and CppRecvCallbackListsToC size the
    vector of callback functions to (number of lists) x (size of the first
    list) and fill one slot per callback.  When the lists hold no more
    callbacks than that, the conversion is defined: the C lists added have
    the shape of the C++ lists, the info of the j-th callback of the i-th
    list carries its channel and points to the slot numbered by the
    callbacks before it, and that slot holds the callback. *)
Theorem CppCallbackListsToC_slots {T} (channel : T -> Z) (fn : T -> N)
    (first : list T) (others : list (list T))
    (functions : list (option N)) (c_lists : list (list PJRT_CallbackInfo)) :
  let cpp_lists := first :: others in
  length (concat cpp_lists) <= length cpp_lists * length first ->
  exists functions' new,
    CppCallbackListsToC channel fn cpp_lists functions c_lists
    = Some (functions', c_lists ++ new)
    /\ length functions' = length cpp_lists * length first
    /\ map length new = map length cpp_lists
    /\ forall i l j cb,
         cpp_lists !! i = Some l -> l !! j = Some cb ->
         exists info,
           new !! i ≫= (.!! j) = Some info
           /\ info_channel_id info = channel cb
           /\ info_user_arg info = length (concat (take i cpp_lists)) + j
           /\ functions' !! info_user_arg info = Some (Some (fn cb)).
Proof.
  intros cpp_lists Hfit. unfold CppCallbackListsToC. fold cpp_lists.
  set (fs := resize (length cpp_lists * length first) None functions).
  assert (length fs = length cpp_lists * length first) as Hlen
    by apply length_resize.
  destruct (CppCallbackListsLoop_fits channel fn cpp_lists 0 fs c_lists)
    as (new & Hrun & Hshape & Hslots); [cbn [Nat.add]; lia |].
  eexists _, new. split; [exact Hrun |]. split; [| split; [exact Hshape |]].
  - rewrite !length_app, length_map, length_take, length_drop, Hlen. lia.
  - intros i l j cb Hi Hj. eexists. split; [apply (Hslots i l j cb Hi Hj) |].
    cbn [info_channel_id info_user_arg Nat.add].
    split; [reflexivity |]. split; [reflexivity |].
    rewrite take_0. cbn [app].
    apply lookup_app_l_Some. rewrite list_lookup_fmap.
    rewrite (lookup_concat_take cpp_lists i l j cb Hi Hj). reflexivity.
Qed.

Lemma CppCallbackListsToC_overflows {T} (channel : T -> Z) (fn : T -> N)
    (first : list T) (others : list (list T))
    (functions : list (option N)) (c_lists : list (list PJRT_CallbackInfo)) :
  length (first :: others) * length first < length (concat (first :: others)) ->
  CppCallbackListsToC channel fn (first :: others) functions c_lists = None.
Proof.
  intros Hover. unfold CppCallbackListsToC.
  apply CppCallbackListsLoop_overflows; rewrite length_resize; lia.
Qed.

Lemma CppCallbackListsToC_shape {T} (channel : T -> Z) (fn : T -> N)
    (cpp_lists : list (list T)) functions c_lists functions' c_lists' :
  CppCallbackListsToC channel fn cpp_lists functions c_lists
  = Some (functions', c_lists') ->
  exists new, c_lists' = c_lists ++ new
              /\ map length new = map length cpp_lists.
Proof.
  destruct cpp_lists as [|first others].
  - cbn. intros [= <- <-]. exists []. rewrite app_nil_r. done.
  - intros H.
    destruct (decide (length (concat (first :: others))
                      <= length (first :: others) * length first)) as [Hfit|Hno].
    + unfold CppCallbackListsToC in H.
      destruct (CppCallbackListsLoop_fits channel fn (first :: others) 0
                  (resize (length (first :: others) * length first) None
                          functions) c_lists)
        as (new & Hrun & Hshape & _); [rewrite length_resize; lia |].
      rewrite Hrun in H. injection H as <- <-. eauto.
    + rewrite CppCallbackListsToC_overflows in H by lia. discriminate.
Qed.


(** *** Execution *)

(** What GetCommonExecuteArgs has put in the argument record when it
    returns: the executable, the argument handles, the slots of the
    completion events, the launch id, and the callbacks. *)
Lemma GetCommonExecuteArgs_fields
    (this : PjRtCApiLoadedExecutable) argument_handles (options : ExecuteOptions)
    c_options storage events data (w w1 : World) common :
  GetCommonExecuteArgs this argument_handles options c_options storage events
    data w = (Value common, w1) ->
  let using_host_callbacks :=
    negb (bool_decide (send_callbacks options = []))
    || negb (bool_decide (recv_callbacks options = [])) in
  let args := common_args common in
  ex_executable args = c_loaded_executable this
  /\ ex_num_args args = length (default [] (head argument_handles))
  /\ ex_argument_lists args = map (map buffer_) argument_handles
  /\ ex_execute_device args = None
  /\ opt_launch_id (ex_options args) = launch_id options
  /\ ex_device_complete_events args = device_complete_events common
  /\ device_complete_events common
     = (if bool_decide (is_Some events) || using_host_callbacks
        then Some (resize (length argument_handles) 0%N (default [] events))
        else None)
  /\ (using_host_callbacks = true -> is_Some events)
  /\ match send_callbacks options with
     | [] =>
         opt_send_callbacks (ex_options args) = opt_send_callbacks c_options
         /\ num_send_ops (ex_options args) = num_send_ops c_options
         /\ c_send_callbacks (callback_data common) = c_send_callbacks data
         /\ send_callback_functions (callback_data common)
            = send_callback_functions data
     | first :: _ =>
         CppSendCallbackListsToC (send_callbacks options)
           (send_callback_functions data) (c_send_callbacks data)
         = Some (send_callback_functions (callback_data common),
                 c_send_callbacks (callback_data common))
         /\ opt_send_callbacks (ex_options args)
            = c_send_callback_lists data
              ++ c_send_callbacks (callback_data common)
         /\ num_send_ops (ex_options args) = length first
     end
  /\ match recv_callbacks options with
     | [] =>
         opt_recv_callbacks (ex_options args) = opt_recv_callbacks c_options
         /\ num_recv_ops (ex_options args) = num_recv_ops c_options
         /\ c_recv_callbacks (callback_data common) = c_recv_callbacks data
         /\ recv_callback_functions (callback_data common)
            = recv_callback_functions data
     | first :: _ =>
         CppRecvCallbackListsToC (recv_callbacks options)
           (recv_callback_functions data) (c_recv_callbacks data)
         = Some (recv_callback_functions (callback_data common),
                 c_recv_callbacks (callback_data common))
         /\ opt_recv_callbacks (ex_options args)
            = c_recv_callback_lists data
              ++ c_recv_callbacks (callback_data common)
         /\ num_recv_ops (ex_options args) = length first
     end.
Proof.
  intros H using_host_callbacks args. unfold GetCommonExecuteArgs in H.
  fold using_host_callbacks in H.
  destruct (using_host_callbacks && negb _); [discriminate |].
  destruct argument_handles as [|first rest]; [discriminate |].
  apply bind_Value in H as (evs & w2 & Hevs & H).
  assert (w2 = w) as -> by (eapply quiet_run; [| exact Hevs]; quiet).
  apply bind_Value in H as (r & w3 & Hr & H).
  rewrite run_invoke in Hr. injection Hr as <- <-.
  apply bind_Value in H as (num_outputs & w4 & Hn & H).
  destruct (PJRT_Executable_NumOutputs _ _) as [k|e]; [| discriminate].
  injection Hn as <- <-.
  apply bind_Value in H as (sends & w5 & Hsends & H).
  assert (w5 = record_call (Call_Executable_NumOutputs (c_executable this)) w)
    as -> by (eapply quiet_run; [| exact Hsends]; quiet).
  apply bind_Value in H as (recvs & w6 & Hrecvs & H).
  assert (w6 = record_call (Call_Executable_NumOutputs (c_executable this)) w)
    as -> by (eapply quiet_run; [| exact Hrecvs]; quiet).
  subst args. injection H as <- <-.
  assert (evs = (if bool_decide (is_Some events) || using_host_callbacks
                 then Some (resize (length (first :: rest)) 0%N
                                   (default [] events))
                 else None)
          /\ (using_host_callbacks = true -> is_Some events))
    as [-> Hset].
  { destruct (bool_decide (is_Some events)) eqn:Hsome.
    - apply bool_decide_eq_true in Hsome as [evs0 ->].
      cbn in Hevs. injection Hevs as <-. split; [reflexivity | eauto].
    - destruct events as [evs0|]; [rewrite bool_decide_eq_true_2 in Hsome;
                                    [discriminate | eauto] |].
      cbn [orb] in *. destruct using_host_callbacks.
      + discriminate.
      + injection Hevs as <-. split; [reflexivity | discriminate]. }
  clear Hevs.
  destruct (send_callbacks options) as [|sfirst srest];
    destruct (recv_callbacks options) as [|rfirst rrest];
    repeat match goal with
    | H : (or_undefined ?o ≫= _) _ = _ |- _ =>
        destruct o as [[? ?]|] eqn:?; [| discriminate]; cbn in H
    | H : mret _ _ = _ |- _ => cbn in H
    end;
    injection Hsends as <-; injection Hrecvs as <-;
    cbn [fst snd common_args ex_executable ex_num_args ex_argument_lists
         ex_execute_device ex_options ex_device_complete_events
         device_complete_events callback_data opt_launch_id
         opt_send_callbacks opt_recv_callbacks num_send_ops num_recv_ops
         c_send_callbacks c_recv_callbacks send_callback_functions
         recv_callback_functions c_send_callback_lists c_recv_callback_lists
         head default] in *;
    repeat match goal with |- _ /\ _ => split end; auto.
Qed.


(** Execute, when it returns: the two plugin calls it made, what the
    plugin wrote, and what is made of it. *)
Lemma Execute_returns (this : PjRtCApiLoadedExecutable) argument_handles
    (options : ExecuteOptions) returned_futures (w w' : World) buffers futures :
  Execute this argument_handles options returned_futures w
  = (Value (buffers, futures), w') ->
  let device_complete_events :=
    if bool_decide (is_Some returned_futures) then Some [] else None in
  let w1 := record_call (Call_Executable_NumOutputs (c_executable this)) w in
  exists common outs first,
    let args := set_execute_device (common_args common) None in
    let storage := written_outputs outs (c_output_lists_storage common) in
    GetCommonExecuteArgs this argument_handles options new_PJRT_ExecuteOptions
      [] device_complete_events new_SendRecvCallbackData w = (Value common, w1)
    /\ PJRT_LoadedExecutable_Execute (c_api_ (executable_client_ this)) args
       = PjrtOk outs
    /\ w' = record_call (Call_LoadedExecutable_Execute args) w1
    /\ storage !! 0%nat = Some first
    /\ Convert2DCBuffersToCppBuffers storage (ex_num_devices args)
         (size_t_to_int (Z.of_nat (length first))) (executable_client_ this)
       = Some buffers
    /\ futures
       = match device_complete_events with
         | Some _ =>
             let holds :=
               negb (bool_decide (c_send_callbacks (callback_data common) = []))
               || negb (bool_decide (c_recv_callbacks (callback_data common) = []))
             in
             let device_complete_futures :=
               match ex_device_complete_events args with
               | Some events =>
                   map (fun event => FutureOfEvent event holds)
                       (written_events outs events)
               | None => []
               end in
             if bool_decide (is_Some returned_futures)
             then Some device_complete_futures else returned_futures
         | None => returned_futures
         end.
Proof.
  intros H dce w1. unfold Execute in H. fold dce in H.
  apply bind_Value in H as (common & w2 & Hcommon & H).
  pose proof Hcommon as Hw.
  apply GetCommonExecuteArgs_sizes_outputs in Hw as (k & _ & -> & _).
  apply bind_Value in H as (r & w2 & Hr & H).
  rewrite run_invoke in Hr. injection Hr as <- <-.
  apply bind_Value in H as (outs & w3 & Houts & H).
  assert (w3 = record_call
                 (Call_LoadedExecutable_Execute
                    (set_execute_device (common_args common) None)) w1)
    as -> by (eapply quiet_run; [| exact Houts]; quiet).
  destruct (PJRT_LoadedExecutable_Execute _ _) as [outs'|e] eqn:Hplugin;
    [| discriminate].
  injection Houts as <-.
  apply bind_Value in H as (first & w4 & Hfirst & H).
  pose proof (quiet_run _ _ _ _ (quiet_or_undefined _) Hfirst) as ->.
  apply bind_Value in H as (converted & w5 & Hconv & H).
  pose proof (quiet_run _ _ _ _ (quiet_or_undefined _) Hconv) as ->.
  injection H as <- <- <-.
  destruct (written_outputs _ _ !! 0%nat) as [l|] eqn:Hl; [| discriminate].
  injection Hfirst as ->.
  destruct (Convert2DCBuffersToCppBuffers _ _ _ _) as [bs|] eqn:Hbs;
    [| discriminate].
  injection Hconv as ->.
  exists common, outs', first. cbv zeta.
  rewrite Hplugin, Hl, Hbs. repeat split; try assumption.
Qed.

Lemma mapM_total {A B} (f : A -> option B) (g : A -> B) (l : list A) :
  (forall x, x ∈ l -> f x = Some (g x)) -> mapM f l = Some (map g l).
Proof.
  induction l as [|x l IH]; intros H; [reflexivity |].
  cbn. rewrite (H x) by (left). cbn. rewrite IH; [reflexivity |].
  intros y Hy. apply H. right. exact Hy.
Qed.

Lemma imap_replicate {A B} (f : nat -> A -> B) (n : nat) (x : A) :
  imap f (replicate n x) = map (fun i => f i x) (seq 0 n).
Proof.
  revert f. induction n as [|n IH]; intros f; [reflexivity |].
  cbn. f_equal. rewrite IH, <- seq_shift, map_map. reflexivity.
Qed.

(** The output storage as the plugin leaves it. *)
Lemma written_outputs_sized (outs : ExecuteOutputs) (D K : nat) :
  written_outputs outs (map (resize K 0%N) (resize D [] []))
  = map (fun i => map (fun j => written_output outs i j) (seq 0 K)) (seq 0 D).
Proof.
  unfold written_outputs. rewrite resize_nil.
  change (map (resize K 0%N) (replicate D [])) with
    (fmap (M:=list) (resize K 0%N) (replicate D [])).
  rewrite fmap_replicate, resize_nil, imap_replicate.
  apply map_ext. intros i. apply imap_replicate.
Qed.

(** X2.  When Execute returns, it has asked the plugin for the number of
    outputs K and then invoked PJRT_LoadedExecutable_Execute once, on the
    loaded executable, with the handles of the argument buffers, device
    by device, no execute device, and the launch id of the options; and
    the buffer it returns for output j of device i wraps, on the client
    of the executable, the handle the plugin wrote at output_lists[i][j]. *)
Theorem Execute_wraps_outputs (this : PjRtCApiLoadedExecutable)
    argument_handles (options : ExecuteOptions) returned_futures
    (w w' : World) buffers futures (K : N) :
  PJRT_Executable_NumOutputs (c_api_ (executable_client_ this))
    (c_executable this) = PjrtOk K ->
  (Z.of_N K <= INT_MAX)%Z ->
  Execute this argument_handles options returned_futures w
  = (Value (buffers, futures), w') ->
  exists args outs,
    plugin_calls w'
    = plugin_calls w
      ++ [Call_Executable_NumOutputs (c_executable this);
          Call_LoadedExecutable_Execute args]
    /\ PJRT_LoadedExecutable_Execute (c_api_ (executable_client_ this)) args
       = PjrtOk outs
    /\ ex_executable args = c_loaded_executable this
    /\ ex_argument_lists args = map (map buffer_) argument_handles
    /\ ex_execute_device args = None
    /\ opt_launch_id (ex_options args) = launch_id options
    /\ buffers
       = map (fun i =>
                map (fun j => new_PjRtCApiBuffer (executable_client_ this)
                                (written_output outs i j))
                    (seq 0 (N.to_nat K)))
             (seq 0 (length argument_handles)).
Proof.
  intros HK Hint H.
  apply Execute_returns in H
    as (common & outs & first & Hcommon & Hplugin & -> & Hfirst & Hbs & _).
  pose proof (GetCommonExecuteArgs_fields _ _ _ _ _ _ _ _ _ _ Hcommon)
    as (Hexe & _ & Hargs & _ & Hlaunch & _).
  apply GetCommonExecuteArgs_sizes_outputs in Hcommon
    as (k & Hk & _ & Hdevices & _ & Hstorage).
  rewrite HK in Hk. injection Hk as <-.
  exists (set_execute_device (common_args common) None), outs.
  split; [cbn; rewrite <- app_assoc; reflexivity |].
  split; [exact Hplugin |]. split; [exact Hexe |]. split; [exact Hargs |].
  split; [reflexivity |]. split; [exact Hlaunch |].
  rewrite Hstorage, written_outputs_sized in Hfirst, Hbs.
  cbn [set_execute_device ex_num_devices] in Hbs. rewrite Hdevices in Hbs.
  assert (length first = N.to_nat K) as Hlen.
  { destruct argument_handles as [|a rest]; [discriminate |].
    cbn in Hfirst. injection Hfirst as <-.
    rewrite length_map, length_seq. reflexivity. }
  unfold Convert2DCBuffersToCppBuffers in Hbs.
  rewrite Hlen, N_nat_Z, int_of_small_size in Hbs by lia.
  replace (Z.to_nat (Z.of_N K)) with (N.to_nat K) in Hbs by lia.
  rewrite (mapM_total _
             (fun i => map (fun j => new_PjRtCApiBuffer (executable_client_ this)
                                       (written_output outs i j))
                           (seq 0 (N.to_nat K)))) in Hbs.
  { injection Hbs as <-. reflexivity. }
  intros i Hi. apply elem_of_seq in Hi as [_ Hi]. cbn in Hi.
  apply mapM_total. intros j Hj. apply elem_of_seq in Hj as [_ Hj]. cbn in Hj.
  rewrite list_lookup_fmap, lookup_seq_lt by lia. cbn.
  rewrite list_lookup_fmap, lookup_seq_lt by lia. reflexivity.
Qed.

(** X3.  When Execute returns and the caller asked for futures, it gives
    one future per device, in device order: the future of the completion
    event the plugin wrote for that device, holding the callback data
    when host callbacks were passed.  The plugin was handed one event
    slot per device.  A caller that asked for no futures and passed no
    host callbacks gets none, and the plugin no slots. *)
Theorem Execute_returns_futures (this : PjRtCApiLoadedExecutable)
    argument_handles (options : ExecuteOptions) returned_futures
    (w w' : World) buffers futures :
  Execute this argument_handles options returned_futures w
  = (Value (buffers, futures), w') ->
  let using_host_callbacks :=
    negb (bool_decide (send_callbacks options = []))
    || negb (bool_decide (recv_callbacks options = [])) in
  let D := length argument_handles in
  exists args outs,
    plugin_calls w'
    = plugin_calls w
      ++ [Call_Executable_NumOutputs (c_executable this);
          Call_LoadedExecutable_Execute args]
    /\ PJRT_LoadedExecutable_Execute (c_api_ (executable_client_ this)) args
       = PjrtOk outs
    /\ match returned_futures with
       | Some _ =>
           ex_device_complete_events args = Some (replicate D 0%N)
           /\ futures
              = Some (map (fun i => FutureOfEvent (written_event outs i)
                                      using_host_callbacks)
                          (seq 0 D))
       | None =>
           using_host_callbacks = false ->
           ex_device_complete_events args = None /\ futures = None
       end.
Proof.
  intros H using_host_callbacks D.
  apply Execute_returns in H
    as (common & outs & first & Hcommon & Hplugin & -> & _ & _ & Hfutures).
  pose proof (GetCommonExecuteArgs_fields _ _ _ _ _ _ _ _ _ _ Hcommon)
    as (_ & _ & _ & _ & _ & Hevents & Hdce & Hset & Hsend & Hrecv).
  fold using_host_callbacks in Hdce, Hset.
  exists (set_execute_device (common_args common) None), outs.
  split; [cbn; rewrite <- app_assoc; reflexivity |].
  split; [exact Hplugin |].
  cbn [set_execute_device ex_device_complete_events] in *.
  rewrite Hevents, Hdce in *. clear Hevents Hdce.
  destruct returned_futures as [old|].
  - change (bool_decide (is_Some (Some old))) with true in *.
    cbn [orb default] in *.
    rewrite bool_decide_eq_true_2 in Hfutures by eauto.
    rewrite bool_decide_eq_true_2 by eauto.
    cbn [orb id] in *.
    rewrite resize_nil in *. split; [reflexivity |].
    rewrite Hfutures. f_equal. unfold written_events.
    rewrite imap_replicate, map_map.
    apply map_ext. intros i. f_equal.
    unfold using_host_callbacks. f_equal; f_equal.
    + destruct (send_callbacks options) as [|sfirst srest] eqn:Hs.
      * destruct Hsend as (_ & _ & -> & _). reflexivity.
      * destruct Hsend as (Hconv & _).
        apply CppCallbackListsToC_shape in Hconv as (new & -> & Hshape).
        destruct new; [discriminate |]. reflexivity.
    + destruct (recv_callbacks options) as [|rfirst rrest] eqn:Hr.
      * destruct Hrecv as (_ & _ & -> & _). reflexivity.
      * destruct Hrecv as (Hconv & _).
        apply CppCallbackListsToC_shape in Hconv as (new & -> & Hshape).
        destruct new; [discriminate |]. reflexivity.
  - change (bool_decide (is_Some (@None (list PjRtFuture)))) with false in *.
    change (bool_decide (is_Some (@None (list PJRT_Event)))) with false in *.
    cbn [orb] in *. intros ->. auto.
Qed.

(** X4.  Execute on an empty list of argument lists fails the check
    CHECK_GT(args.num_devices, 0) of GetCommonExecuteArgs, unless the
    layout flag is rejected first; the plugin has not been invoked.  With
    host callbacks and no request for futures, Execute resizes the vector
    of an optional that holds none, which is undefined; the plugin has not
    been invoked either. *)
Theorem Execute_preconditions (this : PjRtCApiLoadedExecutable)
    (options : ExecuteOptions) (w : World) :
  let using_host_callbacks :=
    negb (bool_decide (send_callbacks options = []))
    || negb (bool_decide (recv_callbacks options = [])) in
  (using_host_callbacks = true ->
   use_major_to_minor_data_layout_for_callbacks options = true) ->
  (forall returned_futures,
     Execute this [] options returned_futures w = (Crashed CheckFailed, w))
  /\ (forall first rest,
        using_host_callbacks = true ->
        Execute this (first :: rest) options None w
        = (Crashed UndefinedBehaviour, w)).
Proof.
  intros using_host_callbacks Hflag.
  assert (using_host_callbacks
          && negb (use_major_to_minor_data_layout_for_callbacks options)
          = false) as Hguard.
  { destruct using_host_callbacks; [rewrite Hflag |]; reflexivity. }
  split.
  - intros returned_futures. unfold Execute, GetCommonExecuteArgs.
    fold using_host_callbacks. rewrite Hguard. reflexivity.
  - intros first rest Husing. unfold Execute, GetCommonExecuteArgs.
    fold using_host_callbacks. rewrite Hguard, Husing.
    rewrite bool_decide_eq_false_2 by (intros [? ?]; discriminate).
    reflexivity.
Qed.


(** X6.  When ExecuteWithSingleDevice (ExecuteSharded, ExecutePortable)
    returns, the options held no callbacks; it has asked for the number
    of outputs K and invoked PJRT_LoadedExecutable_Execute once, for one
    device, with the handles of the arguments as the only argument list,
    the handle of the device as execute device, and an event slot exactly
    when fill_future is set.  It returns the K buffers the plugin wrote
    for that device, and the future of the event the plugin wrote, or the
    caller's future untouched when fill_future is not set. *)
Theorem ExecuteWithSingleDevice_returns (this : PjRtCApiLoadedExecutable)
    argument_handles (device : PjRtDevice) (options : ExecuteOptions)
    returned_future (fill_future : bool) (w w' : World) result future (K : N) :
  PJRT_Executable_NumOutputs (c_api_ (executable_client_ this))
    (c_executable this) = PjrtOk K ->
  (Z.of_N K <= INT_MAX)%Z ->
  ExecuteWithSingleDevice this argument_handles device options returned_future
    fill_future w = (Value (result, future), w') ->
  send_callbacks options = [] /\ recv_callbacks options = []
  /\ exists args outs,
       plugin_calls w'
       = plugin_calls w
         ++ [Call_Executable_NumOutputs (c_executable this);
             Call_LoadedExecutable_Execute args]
       /\ PJRT_LoadedExecutable_Execute (c_api_ (executable_client_ this)) args
          = PjrtOk outs
       /\ ex_executable args = c_loaded_executable this
       /\ ex_num_devices args = 1
       /\ ex_argument_lists args = [map buffer_ argument_handles]
       /\ ex_execute_device args = Some (c_device device)
       /\ ex_device_complete_events args
          = (if fill_future then Some [0%N] else None)
       /\ result
          = map (fun j => new_PjRtCApiBuffer (executable_client_ this)
                            (written_output outs 0 j))
                (seq 0 (N.to_nat K))
       /\ future
          = (if fill_future
             then Some (FutureOfEvent (written_event outs 0) false)
             else returned_future).
Proof.
  intros HK Hint H. unfold ExecuteWithSingleDevice in H.
  destruct (bool_decide (send_callbacks options = [])) eqn:Hs;
    [| discriminate].
  destruct (bool_decide (recv_callbacks options = [])) eqn:Hr;
    [| discriminate].
  apply bool_decide_eq_true in Hs, Hr. cbn [negb orb] in H.
  split; [exact Hs |]. split; [exact Hr |].
  apply bind_Value in H as (common & w1 & Hcommon & H).
  pose proof (GetCommonExecuteArgs_fields _ _ _ _ _ _ _ _ _ _ Hcommon)
    as (Hexe & _ & Hargs & _ & _ & Hevents & Hdce & _).
  apply GetCommonExecuteArgs_sizes_outputs in Hcommon
    as (k & Hk & -> & Hdevices & _ & Hstorage).
  rewrite HK in Hk. injection Hk as <-.
  rewrite Hs, Hr in Hdce.
  apply bind_Value in H as (r & w2 & Hrun & H).
  rewrite run_invoke in Hrun. injection Hrun as <- <-.
  apply bind_Value in H as (outs & w3 & Houts & H).
  destruct (PJRT_LoadedExecutable_Execute _ _) as [outs'|e] eqn:Hplugin;
    [| discriminate].
  injection Houts as <- <-.
  apply bind_Value in H as (future' & w4 & Hfuture & H).
  assert (w4 = record_call
                 (Call_LoadedExecutable_Execute
                    (set_execute_device (common_args common)
                       (Some (c_device device))))
                 (record_call (Call_Executable_NumOutputs (c_executable this))
                    w)
          /\ future' = if fill_future
                       then Some (FutureOfEvent (written_event outs' 0) false)
                       else returned_future) as [-> ->].
  { cbn [set_execute_device ex_device_complete_events] in Hfuture.
    rewrite Hevents, Hdce in Hfuture. destruct fill_future.
    - rewrite bool_decide_eq_true_2 in Hfuture by eauto.
      cbn in Hfuture. injection Hfuture as <- <-. auto.
    - cbn in Hfuture. injection Hfuture as <- <-. auto. }
  apply bind_Value in H as (first & w5 & Hfirst & H).
  pose proof (quiet_run _ _ _ _ (quiet_or_undefined _) Hfirst) as ->.
  apply bind_Value in H as (buffers & w6 & Hbs & H).
  pose proof (quiet_run _ _ _ _ (quiet_or_undefined _) Hbs) as ->.
  apply bind_Value in H as (result' & w7 & Hresult & H).
  pose proof (quiet_run _ _ _ _ (quiet_or_undefined _) Hresult) as ->.
  injection H as <- <- <-.
  exists (set_execute_device (common_args common) (Some (c_device device))),
         outs'.
  split; [cbn; rewrite <- app_assoc; reflexivity |].
  split; [exact Hplugin |]. split; [exact Hexe |].
  split; [exact Hdevices |]. split; [exact Hargs |].
  split; [reflexivity |].
  split.
  { cbn [set_execute_device ex_device_complete_events].
    rewrite Hevents, Hdce. destruct fill_future.
    - rewrite bool_decide_eq_true_2 by eauto. reflexivity.
    - reflexivity. }
  split; [| reflexivity].
  rewrite Hstorage, written_outputs_sized in Hfirst, Hbs.
  cbn [set_execute_device ex_num_devices] in Hbs. rewrite Hdevices in Hbs.
  cbn in Hfirst.
  destruct (Convert2DCBuffersToCppBuffers _ _ _ _) as [bs|] eqn:Hconv;
    [| discriminate].
  injection Hfirst as <-. injection Hbs as ->.
  unfold Convert2DCBuffersToCppBuffers in Hconv.
  rewrite length_map, length_seq, N_nat_Z, int_of_small_size in Hconv by lia.
  replace (Z.to_nat (Z.of_N K)) with (N.to_nat K) in Hconv by lia.
  rewrite (mapM_total _
             (fun i => map (fun j => new_PjRtCApiBuffer (executable_client_ this)
                                       (written_output outs' i j))
                           (seq 0 (N.to_nat K)))) in Hconv.
  { injection Hconv as <-. cbn in Hresult. injection Hresult as <-.
    reflexivity. }
  intros i Hi. apply elem_of_seq in Hi as [_ Hi]. cbn in Hi.
  apply mapM_total. intros j Hj. apply elem_of_seq in Hj as [_ Hj]. cbn in Hj.
  rewrite list_lookup_fmap, lookup_seq_lt by (cbn; lia). cbn.
  rewrite list_lookup_fmap, lookup_seq_lt by lia. reflexivity.
Qed.

(** *** The callback of a host buffer *)

Lemma filter_none {A} (f : A -> bool) (l : list A) :
  Forall (fun x => f x = false) l -> List.filter f l = [].
Proof.
  induction 1 as [|x l Hx _ IH]; [reflexivity |].
  cbn. rewrite Hx. exact IH.
Qed.

Lemma filter_all {A} (f : A -> bool) (l : list A) :
  Forall (fun x => f x = true) l -> List.filter f l = l.
Proof.
  induction 1 as [|x l Hx _ IH]; [reflexivity |].
  cbn. rewrite Hx, IH. reflexivity.
Qed.

(** Event_OnReady, run: the registration is recorded; if the plugin
    accepts it, the closure runs at once on a completed event and is kept
    on a pending one. *)
Lemma run_Event_OnReady (api : PJRT_Api) event cb (w : World) :
  Event_OnReady api event cb w
  = let w1 := record_call (Call_Event_OnReady event cb) w in
    match PJRT_Event_OnReady api event with
    | PjrtErr e => (Value (PjrtErr e), w1)
    | PjrtOk _ =>
        (Value (PjrtOk tt),
         match event_status event w with
         | Some error => run_on_ready cb error w1
         | None => add_on_ready_callback event cb w1
         end)
    end.
Proof.
  unfold Event_OnReady. rewrite run_bind, run_invoke.
  destruct (PJRT_Event_OnReady api event) as [[]|e]; [| reflexivity].
  run.
  change (event_status event (record_call (Call_Event_OnReady event cb) w))
    with (event_status event w).
  destruct (event_status event w); reflexivity.
Qed.

(** X7.  BufferFromHostBuffer with a supported semantics, on a plugin
    that ingests the data, invokes PJRT_Client_BufferFromHostBuffer and
    then registers on the event done_with_host_buffer a closure that calls
    on_done_with_host_buffer, and nothing else.  If the plugin rejects the
    registration, the call returns the plugin's error and
    on_done_with_host_buffer is neither called nor kept.  If it accepts,
    the call returns the buffer; the callback has been called, once, when
    the event had completed already, and otherwise waits: it is called
    once when the event completes, with or without an error, and not
    again. *)
Theorem BufferFromHostBuffer_done_with_host_buffer (this : PjRtCApiClient)
    data type dims byte_strides (semantics : HostBufferSemantics)
    (f : HostCallback) device_or_memory device_layout c_layout_data
    buffer event (w : World) :
  semantics = kImmutableOnlyDuringCall \/ semantics = kZeroCopy
  \/ semantics = kImmutableUntilTransferCompletes ->
  convert_layout device_layout w = (Value c_layout_data, w) ->
  let args := {|
    bfh_client := c_client_ this;
    bfh_data := data;
    bfh_type := ConvertToPjRtBufferType type;
    bfh_dims := dims;
    bfh_byte_strides := byte_strides;
    bfh_device_layout := c_layout_data;
    bfh_host_buffer_semantics := ConvertToPjRtHostBufferSemantics semantics;
    bfh_device :=
      match device_or_memory with inl d => Some (c_device d) | inr _ => None end;
    bfh_memory :=
      match device_or_memory with inl _ => None | inr m => Some (c_memory m) end;
  |} in
  PJRT_Client_BufferFromHostBuffer (c_api_ this) args = PjrtOk (buffer, event) ->
  let call :=
    BufferFromHostBufferInternalImpl this data type dims byte_strides semantics
      (Some f) device_or_memory device_layout w in
  let closure := DoneWithHostBuffer f in
  plugin_calls (snd call)
  = plugin_calls w
    ++ [Call_Client_BufferFromHostBuffer args; Call_Event_OnReady event closure]
  /\ match PJRT_Event_OnReady (c_api_ this) event with
     | PjrtErr e =>
         fst call = Error (PjrtErrorToStatus e)
         /\ host_log (snd call) = host_log w
         /\ on_ready_callbacks (snd call) = on_ready_callbacks w
     | PjrtOk _ =>
         fst call = Value (new_PjRtCApiBuffer this buffer)
         /\ match event_status event w with
            | Some _ =>
                host_log (snd call) = host_log w ++ [Invoked f; Destroyed f]
                /\ on_ready_callbacks (snd call) = on_ready_callbacks w
            | None =>
                host_log (snd call) = host_log w
                /\ on_ready_callbacks (snd call)
                   = on_ready_callbacks w ++ [(event, closure)]
                /\ (Forall (fun c => fst c <> event) (on_ready_callbacks w) ->
                    forall error,
                      let w2 := event_completes event error (snd call) in
                      host_log w2 = host_log w ++ [Invoked f; Destroyed f]
                      /\ on_ready_callbacks w2 = on_ready_callbacks w
                      /\ forall error', event_completes event error' w2 = w2)
            end
     end.
Proof.
  intros Hsemantics Hlayout args Hplugin call closure.
  assert (call
          = (r' ← Event_OnReady (c_api_ this) event closure;
             _ ← RETURN_STATUS_IF_PJRT_ERROR r';
             mret (new_PjRtCApiBuffer this buffer))
              (record_call (Call_Client_BufferFromHostBuffer args) w)) as Hcall.
  { subst call. unfold BufferFromHostBufferInternalImpl.
    replace (bool_decide (semantics ≠ kImmutableOnlyDuringCall)
             && bool_decide (semantics ≠ kZeroCopy)
             && bool_decide (semantics ≠ kImmutableUntilTransferCompletes))
      with false
      by (destruct Hsemantics as [-> | [-> | ->]]; reflexivity).
    rewrite run_bind, Hlayout. fold args.
    rewrite run_bind, run_invoke, Hplugin. reflexivity. }
  rewrite Hcall. clear Hcall call.
  rewrite run_bind, run_Event_OnReady. cbv zeta.
  destruct (PJRT_Event_OnReady (c_api_ this) event) as [[]|e];
    cbn [RETURN_STATUS_IF_PJRT_ERROR]; rewrite ?ret_bind, ?fail_bind.
  - change (event_status event
              (record_call (Call_Client_BufferFromHostBuffer args) w))
      with (event_status event w).
    destruct (event_status event w) as [error0|] eqn:Hstatus; cbn.
    + rewrite <- app_assoc. auto.
    + rewrite <- app_assoc. split; [reflexivity |]. split; [reflexivity |].
      split; [reflexivity |]. split; [reflexivity |].
      intros Hfresh error.
      set (w1 := add_on_ready_callback event closure
                   (record_call (Call_Event_OnReady event closure)
                      (record_call (Call_Client_BufferFromHostBuffer args) w))).
      assert (event_status event w1 = None) as Hs1 by exact Hstatus.
      assert (event_completes event error w1
              = MkWorld (plugin_calls w1) (on_ready_callbacks w)
                  (completed_events w ++ [(event, error)]) (promise_sets w)
                  (next_promise w) (host_log w ++ [Invoked f; Destroyed f])
                  (next_address w)) as ->.
      { rewrite event_completes_eq, Hs1. cbn [w1 add_on_ready_callback
          record_call on_ready_callbacks completed_events promise_sets
          next_promise host_log next_address plugin_calls].
        rewrite !List.filter_app.
        rewrite (filter_none (fun c => N.eqb (fst c) event))
          by (eapply Forall_impl; [exact Hfresh |];
              intros c Hc; apply N.eqb_neq; exact Hc).
        rewrite (filter_all (fun c => negb (N.eqb (fst c) event)))
          by (eapply Forall_impl; [exact Hfresh |];
              intros c Hc; apply negb_true_iff, N.eqb_neq; exact Hc).
        cbn. rewrite N.eqb_refl. cbn. rewrite app_nil_r. reflexivity. }
      cbn. split; [reflexivity |]. split; [reflexivity |].
      intros error'. rewrite event_completes_eq.
      match goal with
      | |- match event_status event ?w2 with _ => _ end = _ =>
          destruct (event_status event w2) as [?|] eqn:Hs2; [reflexivity |]
      end.
      exfalso. unfold event_status in Hs2. cbn [completed_events] in Hs2.
      match type of Hs2 with
      | context [List.find ?g ?l] =>
          destruct (List.find g l) as [c|] eqn:Hfind; [discriminate |]
      end.
      pose proof (find_none _ _ Hfind (event, error)) as Hnone.
      cbn in Hnone. rewrite N.eqb_refl in Hnone.
      discriminate Hnone. apply in_or_app; right; left; reflexivity.
  - cbn. rewrite <- app_assoc. auto.
Qed.

(** *** The status of the ready future *)

(** The first call of GetReadyFuture, run: the promise is created, the
    ready event fetched if it was not, and the closure registered. *)
Lemma GetReadyFuture_first (this : PjRtCApiBuffer) event (w : World) :
  PJRT_Buffer_ReadyEvent (c_api_ (client_ this)) (buffer_ this) = PjrtOk event ->
  readiness_promise_ this = None ->
  readiness_event_ this = None \/ readiness_event_ this = Some event ->
  let promise := next_promise w in
  let closure := TrackPromise promise in
  exists this' w3,
    GetReadyFuture this w
    = (Value (FutureOfPromise promise, this'),
       match PJRT_Event_OnReady (c_api_ (client_ this)) event with
       | PjrtErr e =>
           MkWorld (plugin_calls w3) (on_ready_callbacks w3)
             (completed_events w3)
             (promise_sets w3 ++ [(promise, PjrtErrorToStatus e)])
             (next_promise w3) (host_log w3) (next_address w3)
       | PjrtOk _ =>
           match event_status event w with
           | Some error => run_on_ready closure error w3
           | None => add_on_ready_callback event closure w3
           end
       end)
    /\ promise_sets w3 = promise_sets w
    /\ on_ready_callbacks w3 = on_ready_callbacks w
    /\ completed_events w3 = completed_events w.
Proof.
  intros Hready Hnone Hevent promise closure.
  unfold GetReadyFuture. rewrite Hnone.
  unfold CreatePromise at 1. rewrite run_bind. cbn beta iota.
  set (w1 := MkWorld _ _ _ _ (N.succ _) _ _).
  unfold MakePromiseTrackEvent. cbn [readiness_promise_ client_ buffer_].
  destruct (GetReadyEvent_fetches
              (MkBuffer (client_ this) (buffer_ this) (readiness_event_ this)
                        (Some (next_promise w))) event w1 Hready Hevent)
    as (w2 & Hget & Hw2).
  rewrite run_bind, (run_bind (GetReadyEvent _)), Hget.
  cbn [fst snd client_ buffer_ readiness_promise_].
  rewrite run_bind, run_Event_OnReady. cbv zeta.
  fold promise. fold closure.
  exists (MkBuffer (client_ this) (buffer_ this) (Some event) (Some promise)),
         (record_call (Call_Event_OnReady event closure) w2).
  assert (event_status event w2 = event_status event w) as Hstatus
    by (destruct Hw2 as [-> | ->]; reflexivity).
  split.
  - destruct (PJRT_Event_OnReady _ event) as [[]|e].
    + rewrite Hstatus. reflexivity.
    + reflexivity.
  - destruct Hw2 as [-> | ->]; auto.
Qed.

(** X8.  The first call of GetReadyFuture on a buffer whose ready event
    the plugin reports, when the plugin rejects the registration of the
    completion callback: the promise is set at once to the status of the
    plugin's error, which the future shows from then on, also after the
    event completes. *)
Theorem GetReadyFuture_registration_fails (this : PjRtCApiBuffer) event e
    (w : World) :
  PJRT_Buffer_ReadyEvent (c_api_ (client_ this)) (buffer_ this) = PjrtOk event ->
  readiness_promise_ this = None ->
  readiness_event_ this = None \/ readiness_event_ this = Some event ->
  unused_from (next_promise w) w ->
  PJRT_Event_OnReady (c_api_ (client_ this)) event = PjrtErr e ->
  exists future this' w',
    GetReadyFuture this w = (Value (future, this'), w')
    /\ future_status future w' = Some (PjrtErrorToStatus e)
    /\ on_ready_callbacks w' = on_ready_callbacks w
    /\ forall error,
         future_status future (event_completes event error w')
         = Some (PjrtErrorToStatus e).
Proof.
  intros Hready Hnone Hevent Hunused Hreject.
  destruct (GetReadyFuture_first this event w Hready Hnone Hevent)
    as (this' & w3 & Hrun & Hsets & Hcbs & _).
  destruct (Hunused (next_promise w) (N.le_refl _)) as (Hs & Hc & _).
  rewrite Hreject in Hrun.
  eexists _, this', _. split; [exact Hrun |].
  set (w' := MkWorld _ _ _ _ _ _ _).
  assert (sets_of (next_promise w) w' = [PjrtErrorToStatus e]) as Hs'.
  { rewrite (sets_of_set _ (next_promise w) (PjrtErrorToStatus e) w3)
      by reflexivity.
    rewrite (sets_of_eq _ _ w Hsets), Hs, N.eqb_refl. reflexivity. }
  assert (closures_of (next_promise w) w' = []) as Hc'.
  { rewrite (closures_of_eq _ _ w), Hc; [reflexivity | exact Hcbs]. }
  split; [cbn; unfold promise_status; rewrite Hs'; reflexivity |].
  split; [exact Hcbs |].
  intros error. cbn. unfold promise_status.
  destruct (event_completes_observed (next_promise w) event error w')
    as (_ & _ & [[_ ->] | (_ & -> & _)]).
  - rewrite Hs'. reflexivity.
  - rewrite Hs', Hc'. reflexivity.
Qed.

(** X9.  The first call of GetReadyFuture on a buffer whose ready event
    the plugin reports, when the plugin accepts the registration.  If the
    event has completed, the future shows the status of the error it
    completed with, OK for none.  If it has not, the future is pending,
    and once the event completes it shows the status of the error the
    event completes with. *)
Theorem GetReadyFuture_shows_event_status (this : PjRtCApiBuffer) event
    (w : World) :
  PJRT_Buffer_ReadyEvent (c_api_ (client_ this)) (buffer_ this) = PjrtOk event ->
  readiness_promise_ this = None ->
  readiness_event_ this = None \/ readiness_event_ this = Some event ->
  unused_from (next_promise w) w ->
  PJRT_Event_OnReady (c_api_ (client_ this)) event = PjrtOk tt ->
  exists future this' w',
    GetReadyFuture this w = (Value (future, this'), w')
    /\ match event_status event w with
       | Some error =>
           future_status future w' = Some (PjrtErrorPtrToStatus error)
       | None =>
           future_status future w' = None
           /\ forall error,
                future_status future (event_completes event error w')
                = Some (PjrtErrorPtrToStatus error)
       end.
Proof.
  intros Hready Hnone Hevent Hunused Haccept.
  destruct (GetReadyFuture_first this event w Hready Hnone Hevent)
    as (this' & w3 & Hrun & Hsets & Hcbs & Hcompleted).
  destruct (Hunused (next_promise w) (N.le_refl _)) as (Hs & Hc & _).
  rewrite Haccept in Hrun.
  eexists _, this', _. split; [exact Hrun |].
  assert (sets_of (next_promise w) w3 = []) as Hs3
    by (rewrite (sets_of_eq _ _ w Hsets); exact Hs).
  assert (closures_of (next_promise w) w3 = []) as Hc3
    by (rewrite (closures_of_eq _ _ w Hcbs); exact Hc).
  destruct (event_status event w) as [error|] eqn:Hstatus.
  - cbn [future_status]. unfold promise_status.
    rewrite sets_of_run_on_ready, Hs3.
    cbn. rewrite N.eqb_refl. reflexivity.
  - set (w' := add_on_ready_callback event (TrackPromise (next_promise w)) w3).
    assert (sets_of (next_promise w) w' = []) as Hs' by exact Hs3.
    assert (closures_of (next_promise w) w'
            = [(event, TrackPromise (next_promise w))]) as Hc'.
    { rewrite (closures_of_add _ event (TrackPromise (next_promise w)) w3)
        by reflexivity.
      rewrite Hc3. cbn. rewrite N.eqb_refl. reflexivity. }
    assert (event_status event w' = None) as Hpending.
    { unfold event_status in *. cbn. rewrite Hcompleted. exact Hstatus. }
    split; [cbn; unfold promise_status; rewrite Hs'; reflexivity |].
    intros error. cbn. unfold promise_status.
    destruct (event_completes_observed (next_promise w) event error w')
      as (_ & _ & [[Hx _] | (_ & -> & _)]); [contradiction |].
    rewrite Hs', Hc'. cbn. rewrite N.eqb_refl. reflexivity.
Qed.

(** *** The default device assignment *)

Lemma assign_partitions_reads (num_partitions : nat) (iterator : list Z) :
  assign_partitions num_partitions iterator
  = if decide (num_partitions <= length iterator)
    then Some (take num_partitions iterator, drop num_partitions iterator)
    else None.
Proof.
  revert iterator. induction num_partitions as [|n IH]; intros it.
  - cbn. rewrite drop_0. reflexivity.
  - destruct it as [|x it]; cbn [assign_partitions length].
    + destruct (decide _) as [H|H]; [lia | reflexivity].
    + rewrite IH.
      destruct (decide (n <= length it)), (decide (S n <= S (length it)));
        try lia; reflexivity.
Qed.

Lemma assign_replicas_reads (num_replicas num_partitions : nat)
    (iterator : list Z) :
  assign_replicas num_replicas num_partitions iterator
  = if decide (num_replicas * num_partitions <= length iterator)
    then Some (map (fun replica =>
                      take num_partitions
                           (drop (replica * num_partitions) iterator))
                   (seq 0 num_replicas))
    else None.
Proof.
  revert iterator. induction num_replicas as [|r IH]; intros it.
  - cbn. reflexivity.
  - cbn [assign_replicas]. rewrite assign_partitions_reads.
    destruct (decide (num_partitions <= length it)) as [Hp|Hp].
    + cbn [mbind option_bind]. rewrite IH, length_drop.
      destruct (decide (r * num_partitions <= length it - num_partitions))
        as [Hr|Hr];
        destruct (decide (S r * num_partitions <= length it)) as [Hs|Hs];
        try lia.
      * cbn [mbind option_bind seq map]. f_equal. f_equal.
        rewrite <- seq_shift, map_map. apply map_ext. intros i.
        rewrite drop_drop. reflexivity.
      * reflexivity.
    + destruct (decide (S r * num_partitions <= length it)) as [Hs|Hs];
        [lia | reflexivity].
Qed.

(** X10.  CalculateDefaultAssignment lays out the span of device ids row
    by row: with non-negative counts and a span of at least
    num_replicas x num_partitions ids, the assignment has one row per
    replica, each of num_partitions ids, the id of (replica, partition) is
    the element replica x num_partitions + partition of the span, and the
    rows one after the other are the ids read.  A shorter span is read
    past its end. *)
Theorem CalculateDefaultAssignment_row_major (num_replicas num_partitions : Z)
    (device_assignment : list Z) :
  (0 <= num_replicas)%Z -> (0 <= num_partitions)%Z ->
  ((num_replicas * num_partitions <= Z.of_nat (length device_assignment))%Z ->
   exists rows,
     CalculateDefaultAssignment num_replicas num_partitions device_assignment
     = Some rows
     /\ length rows = Z.to_nat num_replicas
     /\ Forall (fun row => length row = Z.to_nat num_partitions) rows
     /\ concat rows
        = take (Z.to_nat (num_replicas * num_partitions)) device_assignment
     /\ forall replica partition,
          (0 <= replica < num_replicas)%Z ->
          (0 <= partition < num_partitions)%Z ->
          rows !! Z.to_nat replica ≫= (.!! Z.to_nat partition)
          = device_assignment
              !! Z.to_nat (replica * num_partitions + partition))
  /\ ((Z.of_nat (length device_assignment) < num_replicas * num_partitions)%Z ->
      CalculateDefaultAssignment num_replicas num_partitions device_assignment
      = None).
Proof.
  intros Hr Hp. unfold CalculateDefaultAssignment.
  rewrite assign_replicas_reads.
  set (r := Z.to_nat num_replicas). set (p := Z.to_nat num_partitions).
  assert (Z.to_nat (num_replicas * num_partitions) = r * p) as Hrp
    by (subst r p; rewrite Z2Nat.inj_mul by lia; reflexivity).
  split.
  - intros Hfit.
    destruct (decide (r * p <= length device_assignment)) as [Hle|Hno];
      [| lia].
    eexists. split; [reflexivity |].
    split; [rewrite length_map, length_seq; reflexivity |].
    split; [| split].
    + apply Forall_forall. intros row Hrow.
      apply list_elem_of_In, in_map_iff in Hrow as (i & <- & Hi).
      apply in_seq in Hi. rewrite length_take, length_drop. nia.
    + rewrite Hrp. clear Hfit Hrp. revert Hle. generalize r as n.
      induction n as [|n IH]; intros Hle; [reflexivity |].
      rewrite seq_S, map_app, concat_app, IH by lia.
      cbn [Nat.add map concat]. rewrite app_nil_r.
      replace (S n * p) with (n * p + p) by lia.
      rewrite <- take_take_drop. reflexivity.
    + intros replica partition Hreplica Hpartition.
      rewrite list_lookup_fmap, lookup_seq_lt by (subst r; lia).
      cbn [fmap option_fmap option_map mbind option_bind Nat.add].
      rewrite lookup_take_lt by (subst p; lia).
      rewrite lookup_drop. f_equal.
      rewrite Z2Nat.inj_add, Z2Nat.inj_mul by nia. reflexivity.
  - intros Hshort.
    destruct (decide (r * p <= length device_assignment)) as [Hle|Hno];
      [lia | reflexivity].
Qed.

(** *** Queries of the client, devices, executables and buffers *)

Lemma code_is_unimplemented (c : PJRT_Error_Code) :
  PjrtErrorCodeToStatusCode c = kUnimplemented ->
  c = PJRT_Error_Code_UNIMPLEMENTED.
Proof. destruct c; cbn; congruence. Qed.

(** X11.  ExecutableFingerprint does not fail when the plugin has no
    fingerprints: the error UNIMPLEMENTED of the plugin, a null
    fingerprint and an empty one all give "no fingerprint".  It returns a
    fingerprint exactly when the plugin reports a non-empty one, returns
    any other error of the plugin as a status, which is never
    Unimplemented, and does not abort. *)
Theorem ExecutableFingerprint_absent_is_not_an_error
    (queries : PJRT_Api_Queries) (executable : PjRtCApiLoadedExecutable)
    (w : World) :
  let plugin :=
    PJRT_LoadedExecutable_Fingerprint queries (c_loaded_executable executable) in
  let result := ExecutableFingerprint queries executable w in
  snd result = w
  /\ (forall c, fst result <> Crashed c)
  /\ (forall s, fst result = Error s ->
        code s <> kUnimplemented
        /\ exists e, plugin = PjrtErr e /\ s = PjrtErrorToStatus e)
  /\ (forall fingerprint,
        fst result = Value (Some fingerprint)
        <-> plugin = PjrtOk (Some fingerprint) /\ fingerprint <> "")
  /\ (reports_unimplemented plugin \/ plugin = PjrtOk None
      \/ plugin = PjrtOk (Some "") ->
      fst result = Value None).
Proof.
  intros plugin result. subst result. unfold ExecutableFingerprint.
  fold plugin. destruct plugin as [[fp|]|e] eqn:Hplugin.
  - destruct fp as [|a fp]; cbn.
    + split; [reflexivity |]. split; [discriminate |].
      split; [discriminate |]. split; [| reflexivity].
      intros fingerprint. split; [discriminate |].
      intros [[= <-] Hne]. contradiction.
    + split; [reflexivity |]. split; [discriminate |].
      split; [discriminate |]. split.
      * intros fingerprint. split.
        -- intros [= <-]. split; [reflexivity | discriminate].
        -- intros [[= <-] _]. reflexivity.
      * intros [(e & He & _) | [H | H]]; discriminate.
  - cbn. split; [reflexivity |]. split; [discriminate |].
    split; [discriminate |]. split; [| reflexivity].
    intros fingerprint. split; [discriminate | intros [H _]; discriminate].
  - destruct (bool_decide (GetErrorCode e = PJRT_Error_Code_UNIMPLEMENTED))
      eqn:Hcode; cbn.
    + split; [reflexivity |]. split; [discriminate |].
      split; [discriminate |]. split; [| reflexivity].
      intros fingerprint. split; [discriminate | intros [H _]; discriminate].
    + apply bool_decide_eq_false in Hcode.
      split; [reflexivity |]. split; [discriminate |]. split; [| split].
      * intros s [= <-]. split; [| eauto].
        intros Hun. apply Hcode, code_is_unimplemented, Hun.
      * intros fingerprint.
        split; [discriminate | intros [H _]; discriminate].
      * intros [(e' & [= <-] & He') | [H | H]];
          [contradiction | discriminate ..].
Qed.

Lemma find_app {A} (f : A -> bool) (l1 l2 : list A) :
  List.find f (l1 ++ l2)
  = match List.find f l1 with
    | Some x => Some x
    | None => List.find f l2
    end.
Proof.
  induction l1 as [|x l1 IH]; [reflexivity |].
  cbn. destruct (f x); [reflexivity | exact IH].
Qed.

Lemma InitAttributes_loop_last attributes
    (attributes_ : gmap string PjRtDeviceAttribute) (w : World) :
  Forall (fun a => is_Some (to_attribute (snd a))) attributes ->
  exists m,
    InitAttributes_loop attributes attributes_ w = (Value m, w)
    /\ forall name,
         m !! name
         = match last_named name attributes with
           | Some value => to_attribute value
           | None => attributes_ !! name
           end.
Proof.
  revert attributes_.
  induction attributes as [|[attribute_name attribute] rest IH];
    intros m0 Hall.
  - exists m0. split; [reflexivity |]. intros name. reflexivity.
  - apply Forall_cons in Hall as [[converted Hconverted] Hall].
    cbn [snd] in Hconverted.
    assert (exists m,
              InitAttributes_loop ((attribute_name, attribute) :: rest) m0 w
              = (Value m, w)
              /\ forall name,
                   m !! name
                   = match last_named name rest with
                     | Some value => to_attribute value
                     | None => <[attribute_name := converted]> m0 !! name
                     end) as (m & Hrun & Hm).
    { destruct attribute; cbn in Hconverted; try discriminate;
        injection Hconverted as <-; cbn [InitAttributes_loop];
        apply IH; exact Hall. }
    exists m. split; [exact Hrun |]. intros name. rewrite Hm.
    assert (last_named name ((attribute_name, attribute) :: rest)
            = match last_named name rest with
              | Some value => Some value
              | None => if String.eqb attribute_name name
                        then Some attribute else None
              end) as ->.
    { unfold last_named.
      change (rev ((attribute_name, attribute) :: rest))
        with (@rev PJRT_NamedValue rest ++ [(attribute_name, attribute)]).
      rewrite find_app.
      match goal with
      | |- context [@List.find ?A ?g (@rev ?B rest)] =>
          destruct (@List.find A g (@rev B rest)); [reflexivity |]
      end.
      cbn. destruct (String.eqb attribute_name name); reflexivity. }
    destruct (last_named name rest); [reflexivity |].
    destruct (String.eqb attribute_name name) eqn:Heq.
    + apply String.eqb_eq in Heq as ->. rewrite lookup_insert_eq.
      symmetry. exact Hconverted.
    + apply String.eqb_neq in Heq.
      rewrite lookup_insert_ne by exact Heq. reflexivity.
Qed.

Lemma InitAttributes_loop_unsupported attributes
    (attributes_ : gmap string PjRtDeviceAttribute) (w : World) :
  ~ Forall (fun a => is_Some (to_attribute (snd a))) attributes ->
  InitAttributes_loop attributes attributes_ w = (Crashed LogFatal, w).
Proof.
  revert attributes_.
  induction attributes as [|[attribute_name attribute] rest IH];
    intros m0 Hnot.
  - exfalso. apply Hnot. constructor.
  - destruct attribute; cbn [InitAttributes_loop]; try reflexivity;
      apply IH; intros Hrest; apply Hnot; constructor;
      solve [cbn; eauto | exact Hrest].
Qed.

(** X12.  InitAttributes of a device description invokes
    PJRT_DeviceDescription_Attributes, once, and makes the map of the
    attributes the plugin lists.  When every attribute is a string, an
    int64 or a list of int64, the map gives for each name the value the
    plugin listed last under it, and nothing for a name the plugin did
    not list.  An attribute of any other type, or an error of the plugin,
    ends the process with LOG(FATAL). *)
Theorem InitAttributes_last_value_wins (api : PJRT_Api)
    (device_description : PJRT_DeviceDescription) (w : World) :
  let supported attributes :=
    Forall (fun a : PJRT_NamedValue => is_Some (to_attribute (snd a)))
           attributes in
  let w' := record_call (Call_DeviceDescription_Attributes device_description)
              w in
  match PJRT_DeviceDescription_Attributes api device_description with
  | PjrtOk attributes =>
      (supported attributes ->
       exists attributes_,
         InitAttributes api device_description w = (Value attributes_, w')
         /\ forall name,
              attributes_ !! name
              = last_named name attributes ≫= to_attribute)
      /\ (~ supported attributes ->
          InitAttributes api device_description w = (Crashed LogFatal, w'))
  | PjrtErr _ =>
      InitAttributes api device_description w = (Crashed LogFatal, w')
  end.
Proof.
  intros supported w'. unfold InitAttributes. rewrite run_bind, run_invoke.
  fold w'.
  destruct (PJRT_DeviceDescription_Attributes api device_description)
    as [attributes|e]; [| reflexivity].
  cbn [LogFatalIfPjrtError]. rewrite ret_bind. split.
  - intros Hall.
    destruct (InitAttributes_loop_last attributes ∅ w' Hall) as (m & Hrun & Hm).
    exists m. split; [exact Hrun |]. intros name. rewrite Hm.
    destruct (last_named name attributes); [reflexivity |].
    apply lookup_empty.
  - apply InitAttributes_loop_unsupported.
Qed.

Lemma unset_is_default (is_set is_set' : bool) (value value' default : Z) :
  (if is_set then Some value else None)
  = (if is_set' then Some value' else None) ->
  (if is_set then value else default) = (if is_set' then value' else default).
Proof. destruct is_set, is_set'; congruence. Qed.

Lemma default_field (is_set : bool) (value d : Z) :
  default d (if is_set then Some value else None)
  = if is_set then value else d.
Proof. destruct is_set; reflexivity. Qed.

(** X13.  When the plugin reports memory statistics, GetAllocatorStats
    returns statistics that depend only on what the plugin marked as set: the
    bytes in use; for each of peak_bytes_in_use, num_allocs,
    largest_alloc_size, bytes_reserved, peak_bytes_reserved and
    largest_free_block_bytes the value the plugin set, and -1 if it set
    none; for each of bytes_limit, bytes_reservable_limit, pool_bytes and
    peak_pool_bytes the value the plugin set, and no value if it set
    none.  So two reports with the same bytes in use that agree, statistic
    by statistic, on whether it is set and on its value when it is, give
    the same statistics, whatever the plugin left in the fields it did not
    set. *)
Theorem GetAllocatorStats_reads_only_what_is_set
    (queries queries' : PJRT_Api_Queries) (device device' : PjRtDevice)
    args args' (w : World) :
  PJRT_Device_MemoryStats queries (c_device device) = PjrtOk args ->
  PJRT_Device_MemoryStats queries' (c_device device') = PjrtOk args' ->
  reported args = reported args' ->
  exists stats,
    GetAllocatorStats queries device w = (Value stats, w)
    /\ GetAllocatorStats queries' device' w = (Value stats, w)
    /\ forall in_use peak allocs largest limit reserved peak_reserved
          reservable free_block pool peak_pool,
         reported args
         = (in_use, [peak; allocs; largest; limit; reserved; peak_reserved;
                     reservable; free_block; pool; peak_pool]) ->
         stats
         = {| bytes_in_use := in_use;
              peak_bytes_in_use := default (-1)%Z peak;
              num_allocs := default (-1)%Z allocs;
              largest_alloc_size := default (-1)%Z largest;
              bytes_limit := limit;
              bytes_reserved := default (-1)%Z reserved;
              peak_bytes_reserved := default (-1)%Z peak_reserved;
              bytes_reservable_limit := reservable;
              largest_free_block_bytes := default (-1)%Z free_block;
              pool_bytes := pool;
              peak_pool_bytes := peak_pool |}.
Proof.
  intros Hplugin Hplugin' Hsame.
  unfold GetAllocatorStats. rewrite Hplugin, Hplugin'.
  cbn [RETURN_STATUS_IF_PJRT_ERROR]. rewrite !ret_bind.
  unfold reported in Hsame.
  injection Hsame as H0 H1 H2 H3 H4 H5 H6 H7 H8 H9 H10.
  eexists. split; [reflexivity |]. split.
  - cbn [mret M_ret]. do 2 f_equal.
    rewrite (unset_is_default _ _ _ _ (-1)%Z H1),
            (unset_is_default _ _ _ _ (-1)%Z H2),
            (unset_is_default _ _ _ _ (-1)%Z H3),
            (unset_is_default _ _ _ _ (-1)%Z H5),
            (unset_is_default _ _ _ _ (-1)%Z H6),
            (unset_is_default _ _ _ _ (-1)%Z H8).
    rewrite H0, H4, H7, H9, H10. reflexivity.
  - intros in_use peak allocs largest limit reserved peak_reserved
      reservable free_block pool peak_pool.
    intros [= <- <- <- <- <- <- <- <- <- <- <-].
    rewrite !default_field. reflexivity.
Qed.

(** *** The dimensions of the outputs *)

Lemma read_dimensions_reads (dims : list Z) (index dim_size : nat) :
  read_dimensions dims index dim_size
  = if decide (dim_size = 0 \/ index + dim_size <= length dims)
    then Some (take dim_size (drop index dims), index + dim_size)
    else None.
Proof.
  revert index. induction dim_size as [|n IH]; intros index.
  - cbn. rewrite Nat.add_0_r. reflexivity.
  - cbn [read_dimensions]. rewrite IH.
    destruct (dims !! index) as [d|] eqn:Hd.
    + pose proof (lookup_lt_Some _ _ _ Hd) as Hlt.
      cbn [mbind option_bind].
      destruct (decide (n = 0 \/ S index + n <= length dims)) as [Hn|Hn];
        destruct (decide (S n = 0 \/ index + S n <= length dims)) as [Hs|Hs];
        try lia.
      * cbn [mbind option_bind]. f_equal. apply pair_equal_spec.
        split; [| lia]. rewrite (drop_S _ _ _ Hd). reflexivity.
      * reflexivity.
    + apply lookup_ge_None in Hd. cbn [mbind option_bind].
      destruct (decide (S n = 0 \/ index + S n <= length dims)) as [Hs|Hs];
        [lia | reflexivity].
Qed.

Lemma read_outputs_reads (dims : list Z) (index : nat) (dim_sizes : list nat) :
  index + sum_list dim_sizes <= length dims ->
  exists out,
    read_outputs dims index dim_sizes = Some out
    /\ map length out = dim_sizes
    /\ concat out = take (sum_list dim_sizes) (drop index dims).
Proof.
  revert index. induction dim_sizes as [|n rest IH]; intros index Hfit.
  - exists []. repeat split.
  - change (sum_list (n :: rest)) with (n + sum_list rest) in *.
    cbn [read_outputs].
    rewrite read_dimensions_reads.
    destruct (decide (n = 0 \/ index + n <= length dims)) as [_|Hno];
      [| lia].
    cbn [mbind option_bind].
    destruct (IH (index + n)) as (out & -> & Hshape & Hconcat); [lia |].
    cbn [mbind option_bind]. eexists. split; [reflexivity |]. split.
    + cbn [map]. rewrite Hshape, length_take, length_drop. f_equal. lia.
    + cbn [concat]. rewrite Hconcat.
      rewrite <- drop_drop. rewrite take_take_drop. reflexivity.
Qed.

Lemma read_outputs_past_the_end (dims : list Z) (index : nat)
    (dim_sizes : list nat) :
  length dims < index + sum_list dim_sizes ->
  index <= length dims ->
  read_outputs dims index dim_sizes = None.
Proof.
  revert index. induction dim_sizes as [|n rest IH]; intros index Hover Hin.
  - cbn in Hover. lia.
  - change (sum_list (n :: rest)) with (n + sum_list rest) in *.
    cbn [read_outputs].
    rewrite read_dimensions_reads.
    destruct (decide (n = 0 \/ index + n <= length dims)) as [Hn|Hno];
      [| reflexivity].
    cbn [mbind option_bind]. rewrite IH; [reflexivity | lia | lia].
Qed.

(** X14.  GetOutputDimensions returns Unimplemented against a plugin
    without the entry point PJRT_Executable_OutputDimensions, and the
    error of the entry point as a status.  Otherwise it cuts the flat
    array dims into one dimension vector per output, of the sizes
    dim_sizes: the vectors have these sizes, in order, and one after the
    other they are the first sum(dim_sizes) elements of dims.  If dims is
    shorter than that, it reads past its end. *)
Theorem GetOutputDimensions_cuts_dims (queries : PJRT_Api_Queries)
    (executable : PJRT_Executable) (w : World) :
  match PJRT_Executable_OutputDimensions queries with
  | None =>
      GetOutputDimensions queries executable w
      = (Error (Unimplemented GetOutputDimensions_unsupported), w)
  | Some entry =>
      match entry executable with
      | PjrtErr e =>
          GetOutputDimensions queries executable w
          = (Error (PjrtErrorToStatus e), w)
      | PjrtOk args =>
          let needed := sum_list (od_dim_sizes args) in
          (needed <= length (od_dims args) ->
           exists out,
             GetOutputDimensions queries executable w = (Value [out], w)
             /\ map length out = od_dim_sizes args
             /\ concat out = take needed (od_dims args))
          /\ (length (od_dims args) < needed ->
              GetOutputDimensions queries executable w
              = (Crashed UndefinedBehaviour, w))
      end
  end.
Proof.
  unfold GetOutputDimensions.
  destruct (PJRT_Executable_OutputDimensions queries) as [entry|];
    [| reflexivity].
  destruct (entry executable) as [args|e]; [| reflexivity].
  cbn [RETURN_STATUS_IF_PJRT_ERROR]. rewrite ret_bind. cbv zeta. split.
  - intros Hfit.
    destruct (read_outputs_reads (od_dims args) 0 (od_dim_sizes args))
      as (out & -> & Hshape & Hconcat); [exact Hfit |].
    exists out. split; [reflexivity |]. split; [exact Hshape |].
    rewrite Hconcat, drop_0. reflexivity.
  - intros Hshort. rewrite read_outputs_past_the_end; [reflexivity | | lia].
    exact Hshort.
Qed.

(** *** Dynamic dimensions *)

Lemma mark_dynamic_dimensions_in_range (indices : list nat)
    (value : list bool) :
  Forall (fun index => index < length value) indices ->
  exists marked,
    mark_dynamic_dimensions indices value = Some marked
    /\ length marked = length value
    /\ forall i, marked !! i = Some true
                 <-> i ∈ indices \/ value !! i = Some true.
Proof.
  revert value. induction indices as [|index rest IH]; intros value Hall.
  - exists value. split; [reflexivity |]. split; [reflexivity |].
    intros i. split; [auto |]. intros [Hi | Hi]; [inversion Hi | exact Hi].
  - apply Forall_cons in Hall as [Hindex Hall]. cbn [mark_dynamic_dimensions].
    destruct (decide (index < length value)) as [_|]; [| contradiction].
    destruct (IH (<[index := true]> value)) as (marked & -> & Hlen & Hmarked).
    { rewrite length_insert. exact Hall. }
    exists marked. split; [reflexivity |].
    split; [rewrite Hlen; apply length_insert |].
    intros i. rewrite Hmarked, elem_of_cons.
    destruct (decide (i = index)) as [-> | Hne].
    + rewrite list_lookup_insert_eq by exact Hindex. tauto.
    + rewrite list_lookup_insert_ne by congruence. tauto.
Qed.

Lemma mark_dynamic_dimensions_out_of_range (indices : list nat)
    (value : list bool) :
  ~ Forall (fun index => index < length value) indices ->
  mark_dynamic_dimensions indices value = None.
Proof.
  revert value. induction indices as [|index rest IH]; intros value Hnot.
  - exfalso. apply Hnot. constructor.
  - cbn [mark_dynamic_dimensions].
    destruct (decide (index < length value)) as [Hindex|]; [| reflexivity].
    apply IH. rewrite length_insert. intros Hrest. apply Hnot.
    constructor; assumption.
Qed.

(** X15.  is_dynamic_dimension and has_dynamic_dimensions agree.  On a
    buffer whose dimensions the plugin reports, when is_dynamic_dimension
    returns flags, there is one per dimension, has_dynamic_dimensions
    returns whether one of them is set, and the flags set are exactly the
    indices the plugin lists; none is set when the plugin reports
    UNIMPLEMENTED.  It returns flags whenever the indices listed are
    within the rank, and assigns outside the vector when one is not.
    After an error other than UNIMPLEMENTED neither query reports it:
    both read the count of indices from an argument struct that nobody
    has written.  Flags already cached are returned as they are. *)
Theorem dynamic_dimension_queries_agree (queries : PJRT_Api_Queries)
    (this : PjRtCApiBuffer) dims (w : World) :
  PJRT_Buffer_Dimensions queries (buffer_ this) = PjrtOk dims ->
  let plugin := PJRT_Buffer_DynamicDimensionIndices queries (buffer_ this) in
  (forall flags w',
     is_dynamic_dimension queries this None w = (Value flags, w') ->
     w' = w /\ length flags = length dims
     /\ (exists has,
           has_dynamic_dimensions queries this w = (Value has, w)
           /\ (has = true <-> exists i, flags !! i = Some true))
     /\ match plugin with
        | PjrtOk indices => forall i, flags !! i = Some true <-> i ∈ indices
        | PjrtErr e =>
            GetErrorCode e = PJRT_Error_Code_UNIMPLEMENTED
            /\ forall i, flags !! i <> Some true
        end)
  /\ (forall indices,
        plugin = PjrtOk indices ->
        let within_rank := Forall (fun index => index < length dims) indices in
        (within_rank ->
         exists flags,
           is_dynamic_dimension queries this None w = (Value flags, w))
        /\ (~ within_rank ->
            is_dynamic_dimension queries this None w
            = (Crashed UndefinedBehaviour, w)))
  /\ (forall e,
        plugin = PjrtErr e ->
        GetErrorCode e <> PJRT_Error_Code_UNIMPLEMENTED ->
        has_dynamic_dimensions queries this w = (Crashed UndefinedBehaviour, w)
        /\ is_dynamic_dimension queries this None w
           = (Crashed UndefinedBehaviour, w))
  /\ (forall cached,
        is_dynamic_dimension queries this (Some cached) w = (Value cached, w)).
Proof.
  intros Hdims plugin.
  unfold is_dynamic_dimension, has_dynamic_dimensions,
    PjRtCApiBuffer_dimensions.
  fold plugin. rewrite Hdims. cbn [LogFatalIfPjrtError]. rewrite ret_bind.
  split; [| split; [| split; [| reflexivity]]].
  - intros flags w' Hrun. destruct plugin as [indices|e].
    + destruct (decide (Forall (fun index => index < length dims) indices))
        as [Hall|Hnot].
      * destruct (mark_dynamic_dimensions_in_range indices
                    (replicate (length dims) false))
          as (marked & Hmarked & Hlen & Hflags).
        { rewrite length_replicate. exact Hall. }
        rewrite Hmarked in Hrun. injection Hrun as <- <-.
        rewrite length_replicate in Hlen.
        assert (forall i, marked !! i = Some true <-> i ∈ indices) as Hiff.
        { intros i. rewrite Hflags. split; [| auto].
          intros [Hi | Hi]; [exact Hi |].
          apply lookup_replicate in Hi as [Hi _]. discriminate. }
        split; [reflexivity |]. split; [exact Hlen |].
        split; [| exact Hiff].
        exists (0 <? length indices)%nat. split; [reflexivity |].
        destruct indices as [|index rest]; cbn.
        -- split; [discriminate |]. intros [i Hi]. apply Hiff in Hi.
           inversion Hi.
        -- split; [| reflexivity]. intros _. exists index. apply Hiff. left.
      * rewrite mark_dynamic_dimensions_out_of_range in Hrun
          by (rewrite length_replicate; exact Hnot).
        discriminate.
    + destruct (bool_decide (GetErrorCode e = PJRT_Error_Code_UNIMPLEMENTED))
        eqn:Hcode; [| discriminate].
      apply bool_decide_eq_true in Hcode. injection Hrun as <- <-.
      assert (forall i, replicate (length dims) false !! i <> Some true)
        as Hnone.
      { intros i Hi. apply lookup_replicate in Hi as [Hi _]. discriminate. }
      split; [reflexivity |]. split; [apply length_replicate |].
      split; [| split; [exact Hcode | exact Hnone]].
      exists false. split; [reflexivity |].
      split; [discriminate |]. intros [i Hi]. destruct (Hnone i Hi).
  - intros indices ->. split.
    + intros Hall.
      destruct (mark_dynamic_dimensions_in_range indices
                  (replicate (length dims) false))
        as (marked & -> & _).
      { rewrite length_replicate. exact Hall. }
      exists marked. reflexivity.
    + intros Hnot.
      rewrite mark_dynamic_dimensions_out_of_range; [reflexivity |].
      rewrite length_replicate. exact Hnot.
  - intros e -> Hcode. rewrite bool_decide_eq_false_2 by exact Hcode.
    split; reflexivity.
Qed.

(** *** The graph of devices and memory spaces *)

Lemma same_objects_refl (g : ClientGraph) : same_objects g g.
Proof. repeat split. Qed.

Lemma same_objects_trans (g1 g2 g3 : ClientGraph) :
  same_objects g1 g2 -> same_objects g2 g3 -> same_objects g1 g3.
Proof.
  intros (H1 & H2 & H3 & H4 & H5 & H6 & H7) (K1 & K2 & K3 & K4 & K5 & K6 & K7).
  repeat split; congruence.
Qed.

Lemma map_insert_same {A B} (f : A -> B) (l : list A) (i : nat) (x y : A) :
  l !! i = Some x -> f y = f x -> map f (<[i := y]> l) = map f l.
Proof.
  intros Hx Hf. change (map f) with (fmap (M:=list) f).
  rewrite list_fmap_insert, Hf. apply list_insert_id.
  rewrite list_lookup_fmap, Hx. reflexivity.
Qed.

Lemma AttachMemorySpaces_same_objects (api : PJRT_Api) devices
    (g g' : ClientGraph) (w w' : World) :
  AttachMemorySpaces api devices g w = (Value g', w') -> same_objects g g'.
Proof.
  revert g w. induction devices as [|device rest IH]; intros g w H.
  - injection H as <- <-. apply same_objects_refl.
  - cbn [AttachMemorySpaces] in H.
    apply bind_Value in H as (cpp_device & w1 & Hcpp & H).
    destruct (owned_devices_ g !! device) as [dev|] eqn:Hdev; [| discriminate].
    injection Hcpp as <- <-.
    apply bind_Value in H as (r & w2 & Hr & H).
    rewrite run_invoke in Hr. injection Hr as <- <-.
    destruct (PJRT_Device_AddressableMemories api (device_ dev))
      as [memories|e].
    + apply bind_Value in H as (cpp_memories & w3 & _ & H).
      apply IH in H. eapply same_objects_trans; [| exact H].
      repeat split. cbn. apply (map_insert_same device_ _ _ dev); auto.
    + destruct (bool_decide _); [discriminate |].
      injection H as <- <-. apply same_objects_refl.
Qed.

Lemma AttachDevices_same_objects (api : PJRT_Api) memories
    (g g' : ClientGraph) (w w' : World) :
  AttachDevices api memories g w = (Value g', w') -> same_objects g g'.
Proof.
  revert g w. induction memories as [|memory rest IH]; intros g w H.
  - injection H as <- <-. apply same_objects_refl.
  - cbn [AttachDevices] in H.
    apply bind_Value in H as (cpp_memory & w1 & Hcpp & H).
    destruct (owned_memory_spaces_ g !! memory) as [mem|] eqn:Hmem;
      [| discriminate].
    injection Hcpp as <- <-.
    apply bind_Value in H as (r & w2 & Hr & H).
    rewrite run_invoke in Hr. injection Hr as <- <-.
    apply bind_Value in H as (attached & w3 & _ & H).
    apply bind_Value in H as (cpp_devices & w4 & _ & H).
    apply IH in H. eapply same_objects_trans; [| exact H].
    repeat split. cbn. apply (map_insert_same c_memory_ _ _ mem); auto.
Qed.

Lemma add_memories_objects (ms : list PJRT_Memory) (g : ClientGraph) :
  map c_memory_ (owned_memory_spaces_ (foldl add_memory g ms))
  = map c_memory_ (owned_memory_spaces_ g) ++ ms
  /\ addressable_memory_spaces_ (foldl add_memory g ms)
     = addressable_memory_spaces_ g
       ++ seq (length (owned_memory_spaces_ g)) (length ms)
  /\ owned_devices_ (foldl add_memory g ms) = owned_devices_ g
  /\ devices_ (foldl add_memory g ms) = devices_ g
  /\ addressable_devices_ (foldl add_memory g ms) = addressable_devices_ g
  /\ c_to_cpp_device_map_ (foldl add_memory g ms) = c_to_cpp_device_map_ g.
Proof.
  revert g. induction ms as [|m ms IH]; intros g.
  - cbn. rewrite !app_nil_r. repeat split.
  - cbn [foldl].
    destruct (IH (add_memory g m)) as (H1 & H2 & H3 & H4 & H5 & H6).
    rewrite H1, H2, H3, H4, H5, H6.
    cbn [add_memory owned_memory_spaces_ addressable_memory_spaces_
         owned_devices_ devices_ addressable_devices_ c_to_cpp_device_map_].
    rewrite map_app, length_app, <- !app_assoc. cbn [map app length seq].
    rewrite Nat.add_1_r. repeat split.
Qed.

(** InitDevicesAndMemorySpaces on a new client, when it returns: the
    objects and maps it has made of what the plugin enumerates. *)
Lemma InitDevicesAndMemorySpaces_graph (api : PJRT_Api) (c_client : PJRT_Client)
    (g : ClientGraph) (w w' : World) :
  InitDevicesAndMemorySpaces api c_client new_ClientGraph w = (Value g, w') ->
  exists devices addressable,
    PJRT_Client_Devices api c_client = PjrtOk devices
    /\ PJRT_Client_AddressableDevices api c_client = PjrtOk addressable
    /\ map device_ (owned_devices_ g) = devices
    /\ devices_ g = seq 0 (length devices)
    /\ device_map_sound g
    /\ (forall d, is_Some (c_to_cpp_device_map_ g !! d) <-> d ∈ devices)
    /\ Forall2 (fun d p => c_to_cpp_device_map_ g !! d = Some p)
               addressable (addressable_devices_ g)
    /\ match PJRT_Client_AddressableMemories api c_client with
       | PjrtOk memories =>
           map c_memory_ (owned_memory_spaces_ g) = memories
           /\ addressable_memory_spaces_ g = seq 0 (length memories)
       | PjrtErr e =>
           GetErrorCode e = PJRT_Error_Code_UNIMPLEMENTED
           /\ owned_memory_spaces_ g = []
           /\ addressable_memory_spaces_ g = []
       end.
Proof.
  unfold InitDevicesAndMemorySpaces. intros H.
  apply bind_Value in H as (g2 & w2 & Hinit & H).
  destruct (InitClientDevices_returns _ _ _ _ _ Hinit)
    as (ds & ads & Hds & Hads & Hobjects & Hlist & Hsound & Hdomain & Hall
        & _ & Hm1 & Hm2 & _).
  apply bind_Value in H as (g3 & w6 & Hmemories & H).
  apply bind_Value in H as (g4 & w7 & Hattach & H).
  apply AttachMemorySpaces_same_objects in Hattach
    as (A1 & A2 & A3 & A4 & A5 & A6 & A7).
  apply AttachDevices_same_objects in H as (B1 & B2 & B3 & B4 & B5 & B6 & B7).
  unfold InitAddressableMemorySpaces in Hmemories.
  apply bind_Value in Hmemories as (r & w8 & Hr & Hmemories).
  rewrite run_invoke in Hr. injection Hr as <- <-.
  assert (owned_devices_ g3 = owned_devices_ g2
          /\ devices_ g3 = devices_ g2
          /\ addressable_devices_ g3 = addressable_devices_ g2
          /\ c_to_cpp_device_map_ g3 = c_to_cpp_device_map_ g2
          /\ match PJRT_Client_AddressableMemories api c_client with
             | PjrtOk memories =>
                 map c_memory_ (owned_memory_spaces_ g3) = memories
                 /\ addressable_memory_spaces_ g3 = seq 0 (length memories)
             | PjrtErr e =>
                 GetErrorCode e = PJRT_Error_Code_UNIMPLEMENTED
                 /\ owned_memory_spaces_ g3 = []
                 /\ addressable_memory_spaces_ g3 = []
             end) as (C1 & C2 & C3 & C4 & C5).
  { destruct (PJRT_Client_AddressableMemories api c_client) as [ms|e].
    - injection Hmemories as <- <-.
      destruct (add_memories_objects ms g2) as (D1 & D2 & D3 & D4 & D5 & D6).
      rewrite D1, D2, D3, D4, D5, D6, Hm1, Hm2. repeat split.
    - destruct (bool_decide _) eqn:Hcode; [discriminate |].
      apply bool_decide_eq_false in Hcode. injection Hmemories as <- <-.
      repeat split; auto. apply dec_stable. exact Hcode. }
  exists ds, ads. split; [exact Hds |]. split; [exact Hads |].
  assert (map device_ (owned_devices_ g) = ds) as Hhandles
    by (rewrite B1, A1, C1; exact Hobjects).
  assert (c_to_cpp_device_map_ g = c_to_cpp_device_map_ g2) as Hsame
    by (rewrite B4, A4; exact C4).
  split; [exact Hhandles |].
  split; [rewrite B2, A2, C2; exact Hlist |].
  split.
  { intros handle p. rewrite Hsame. intros Hp. specialize (Hsound _ _ Hp).
    unfold device_handle in *.
    rewrite <- list_lookup_fmap.
    change (fmap device_ (owned_devices_ g)) with (map device_ (owned_devices_ g)).
    rewrite Hhandles, <- Hobjects.
    change (map device_ (owned_devices_ g2)) with (fmap device_ (owned_devices_ g2)).
    rewrite list_lookup_fmap. exact Hsound. }
  split; [intros d; rewrite Hsame; apply Hdomain |].
  split; [rewrite B3, A3, C3, Hsame; exact Hall |].
  destruct (PJRT_Client_AddressableMemories api c_client) as [ms|e].
  - destruct C5 as [E1 E2]. split; [rewrite B5, A5; exact E1 |].
    rewrite B6, A6. exact E2.
  - destruct C5 as (E0 & E1 & E2). split; [exact E0 |].
    rewrite E1 in A5. rewrite A5 in B5. rewrite B6, A6.
    split; [| exact E2].
    destruct (owned_memory_spaces_ g); [reflexivity | discriminate].
Qed.

(** X16.  When the construction of the devices and memory spaces of a
    new client returns, the client owns one device object per device the
    plugin enumerates, in the plugin's order, each with the handle of its
    device; the device map has exactly the handles enumerated and takes
    each to an object of that handle; the addressable devices are the
    objects the map gives for the addressable handles of the plugin, in
    order; and the memory spaces are one object per memory space the
    plugin enumerates, or none if the plugin reports UNIMPLEMENTED. *)
Theorem InitDevicesAndMemorySpaces_mirrors_plugin (api : PJRT_Api)
    (c_client : PJRT_Client) (g : ClientGraph) (w w' : World) :
  InitDevicesAndMemorySpaces api c_client new_ClientGraph w = (Value g, w') ->
  exists devices addressable,
    PJRT_Client_Devices api c_client = PjrtOk devices
    /\ PJRT_Client_AddressableDevices api c_client = PjrtOk addressable
    /\ map device_ (owned_devices_ g) = devices
    /\ devices_ g = seq 0 (length devices)
    /\ device_map_sound g
    /\ (forall d, is_Some (c_to_cpp_device_map_ g !! d) <-> d ∈ devices)
    /\ Forall2 (fun d p => c_to_cpp_device_map_ g !! d = Some p)
               addressable (addressable_devices_ g)
    /\ match PJRT_Client_AddressableMemories api c_client with
       | PjrtOk memories =>
           map c_memory_ (owned_memory_spaces_ g) = memories
           /\ addressable_memory_spaces_ g = seq 0 (length memories)
       | PjrtErr e =>
           GetErrorCode e = PJRT_Error_Code_UNIMPLEMENTED
           /\ owned_memory_spaces_ g = []
           /\ addressable_memory_spaces_ g = []
       end.
Proof. apply InitDevicesAndMemorySpaces_graph. Qed.

Lemma GetCppDevice_known (g : ClientGraph) (devices : list PJRT_Device)
    (d : PJRT_Device) (w : World) :
  device_map_sound g ->
  (forall d, is_Some (c_to_cpp_device_map_ g !! d) <-> d ∈ devices) ->
  snd (GetCppDevice g d w) = w
  /\ finds_device g devices d (fst (GetCppDevice g d w)).
Proof.
  intros Hsound Hdomain. unfold GetCppDevice.
  pose proof (Hdomain d) as Hd.
  destruct (c_to_cpp_device_map_ g !! d) as [p|] eqn:Hp.
  - split; [reflexivity |]. split.
    + intros _. exists p. split; [reflexivity |]. apply Hsound. exact Hp.
    + intros Hout. exfalso. apply Hout, Hd. exists p. exact Hp.
  - split; [reflexivity |]. split.
    + intros Hin. apply Hd in Hin as [p Hp'].
      pose proof (eq_trans (eq_sym Hp') Hp) as Habsurd. discriminate.
    + reflexivity.
Qed.

(** X17.  On a client whose devices have been constructed, LookupDevice
    and LookupAddressableDevice return the plugin's error as a status;
    for a device the plugin enumerated at construction they return the
    device object of that handle; for any other handle they fail the
    CHECK of GetCppDevice.  PjRtCApiBuffer::device does the same for the
    device of a buffer, but ends the process on an error of the plugin. *)
Theorem device_lookups_after_construction (queries : PJRT_Api_Queries)
    (this : PjRtCApiClient) (g : ClientGraph) (w w' : World) :
  InitDevicesAndMemorySpaces (c_api_ this) (c_client_ this) new_ClientGraph w
  = (Value g, w') ->
  exists devices,
    PJRT_Client_Devices (c_api_ this) (c_client_ this) = PjrtOk devices
    /\ (forall device_id w0,
          let result := LookupDevice queries this g device_id w0 in
          match PJRT_Client_LookupDevice queries (c_client_ this) device_id with
          | PjrtErr e => result = (Error (PjrtErrorToStatus e), w0)
          | PjrtOk d =>
              snd result = w0 /\ finds_device g devices d (fst result)
          end)
    /\ (forall local_hardware_id w0,
          let result :=
            LookupAddressableDevice queries this g local_hardware_id w0 in
          match PJRT_Client_LookupAddressableDevice queries (c_client_ this)
                  local_hardware_id with
          | PjrtErr e => result = (Error (PjrtErrorToStatus e), w0)
          | PjrtOk d =>
              snd result = w0 /\ finds_device g devices d (fst result)
          end)
    /\ (forall buffer w0,
          let result := PjRtCApiBuffer_device queries g buffer w0 in
          match PJRT_Buffer_Device queries (buffer_ buffer) with
          | PjrtErr e => result = (Crashed LogFatal, w0)
          | PjrtOk d =>
              snd result = w0 /\ finds_device g devices d (fst result)
          end).
Proof.
  intros Hinit.
  apply InitDevicesAndMemorySpaces_graph in Hinit
    as (devices & addressable & Hdevices & _ & _ & _ & Hsound & Hdomain & _).
  exists devices. split; [exact Hdevices |].
  split; [| split].
  - intros id w0. unfold LookupDevice.
    destruct (PJRT_Client_LookupDevice _ _ _) as [d|e]; [| reflexivity].
    cbn [RETURN_STATUS_IF_PJRT_ERROR]. rewrite ret_bind.
    apply (GetCppDevice_known g devices d w0 Hsound Hdomain).
  - intros id w0. unfold LookupAddressableDevice.
    destruct (PJRT_Client_LookupAddressableDevice _ _ _) as [d|e];
      [| reflexivity].
    cbn [RETURN_STATUS_IF_PJRT_ERROR]. rewrite ret_bind.
    apply (GetCppDevice_known g devices d w0 Hsound Hdomain).
  - intros b w0. unfold PjRtCApiBuffer_device.
    destruct (PJRT_Buffer_Device _ _) as [d|e]; [| reflexivity].
    cbn [LogFatalIfPjrtError]. rewrite ret_bind.
    apply (GetCppDevice_known g devices d w0 Hsound Hdomain).
Qed.

Lemma mapM_GetCppDevice_no_error (g : ClientGraph)
    (handles : list PJRT_Device) (w : World) s :
  fst (mapM (GetCppDevice g) handles w) <> Error s.
Proof.
  induction handles as [|d handles IH]; [discriminate |].
  change (mapM (GetCppDevice g) (d :: handles))
    with (cpp_device ← GetCppDevice g d;
          rest ← mapM (GetCppDevice g) handles;
          mret (cpp_device :: rest)).
  rewrite run_bind. unfold GetCppDevice at 1.
  destruct (c_to_cpp_device_map_ g !! d) as [p|]; [| discriminate].
  cbn [mret M_ret]. rewrite run_bind.
  destruct (mapM (GetCppDevice g) handles w) as [[ps|s'|c] w1];
    [discriminate | exact IH | discriminate].
Qed.

(** X18.  DeserializeExecutable returns the plugin's error as a status
    when the plugin cannot load the executable, and fails a CHECK when
    the plugin reports success without an executable.  Once the plugin
    has loaded one, no error is returned any more: the construction of
    the loaded executable either ends the process or returns an object on
    this client for the executable loaded, with the executable the plugin
    names for it, and as addressable devices the device objects of the
    client for the handles the plugin lists. *)
Theorem DeserializeExecutable_loads (queries : PJRT_Api_Queries)
    (this : PjRtCApiClient) (g : ClientGraph) (serialized : string)
    (w : World) :
  device_map_sound g ->
  let result := DeserializeExecutable queries this g serialized w in
  match PJRT_Executable_DeserializeAndLoad queries (c_client_ this)
          serialized with
  | PjrtErr e => result = (Error (PjrtErrorToStatus e), w)
  | PjrtOk None => result = (Crashed CheckFailed, w)
  | PjrtOk (Some loaded) =>
      (forall s, fst result <> Error s)
      /\ forall executable devices w',
           result = (Value (executable, devices), w') ->
           w' = w
           /\ executable_client_ executable = this
           /\ c_loaded_executable executable = loaded
           /\ PJRT_LoadedExecutable_GetExecutable queries loaded
              = PjrtOk (c_executable executable)
           /\ exists handles,
                PJRT_LoadedExecutable_AddressableDevices queries loaded
                = PjrtOk handles
                /\ Forall2 (fun d p => device_handle g p = Some d)
                           handles devices
  end.
Proof.
  intros Hsound result. subst result. unfold DeserializeExecutable.
  destruct (PJRT_Executable_DeserializeAndLoad _ _ _) as [[loaded|]|e];
    [| reflexivity ..].
  cbn [RETURN_STATUS_IF_PJRT_ERROR]. rewrite ret_bind.
  unfold new_PjRtCApiLoadedExecutable, InitDevices.
  destruct (PJRT_LoadedExecutable_GetExecutable queries loaded)
    as [c_executable|e]; [| split; [discriminate | discriminate]].
  cbn [LogFatalIfPjrtError]. rewrite ret_bind.
  destruct (PJRT_LoadedExecutable_AddressableDevices queries loaded)
    as [handles|e]; [| split; [discriminate | discriminate]].
  cbn [LogFatalIfPjrtError]. rewrite ret_bind, run_bind.
  pose proof (mapM_GetCppDevice_no_error g handles w) as Hno.
  destruct (mapM (GetCppDevice g) handles w) as [[ps|s'|c] w1] eqn:Hmap.
  - apply mapM_GetCppDevice_returns in Hmap as [-> Hall].
    split; [discriminate |].
    intros executable devices w' [= <- <- <-].
    repeat split. exists handles. split; [reflexivity |].
    eapply Forall2_impl; [exact Hall |]. intros d p Hp. apply Hsound, Hp.
  - exfalso. apply (Hno s'). reflexivity.
  - split; discriminate.
Qed.

Lemma mapM_GetCppMemory_returns (g : ClientGraph) (handles : list PJRT_Memory)
    cpp_memories (w w' : World) :
  mapM (GetCppMemory g) handles w = (Value cpp_memories, w') ->
  w' = w
  /\ Forall2 (fun m q => c_to_cpp_memory_map_ g !! m = Some q)
             handles cpp_memories.
Proof.
  revert cpp_memories w'. induction handles as [|m handles IH];
    intros cpp_memories w' H.
  - injection H as <- <-. split; [reflexivity | constructor].
  - change (mapM (GetCppMemory g) (m :: handles))
      with (cpp_memory ← GetCppMemory g m;
            rest ← mapM (GetCppMemory g) handles;
            mret (cpp_memory :: rest)) in H.
    apply bind_Value in H as (q & w1 & Hq & H).
    unfold GetCppMemory in Hq.
    destruct (c_to_cpp_memory_map_ g !! m) as [q'|] eqn:Hm; [| discriminate].
    injection Hq as <- <-.
    apply bind_Value in H as (qs & w2 & Hqs & H).
    apply IH in Hqs as [-> Hall]. injection H as <- <-.
    split; [reflexivity |]. constructor; assumption.
Qed.

(** The pass "Attach memory spaces to devices" over distinct devices none
    of which reports UNIMPLEMENTED: every device visited has got the
    memory spaces the plugin reports for it, and no other has changed. *)
Lemma AttachMemorySpaces_attaches (api : PJRT_Api) devices
    (g g' : ClientGraph) (w w' : World) :
  NoDup devices ->
  (forall p dev,
     p ∈ devices -> owned_devices_ g !! p = Some dev ->
     ~ reports_unimplemented (PJRT_Device_AddressableMemories api (device_ dev))) ->
  AttachMemorySpaces api devices g w = (Value g', w') ->
  owned_memory_spaces_ g' = owned_memory_spaces_ g
  /\ forall p dev',
       owned_devices_ g' !! p = Some dev' ->
       exists dev,
         owned_devices_ g !! p = Some dev
         /\ device_ dev' = device_ dev
         /\ (p ∈ devices ->
             exists memories cpp_memories,
               PJRT_Device_AddressableMemories api (device_ dev)
               = PjrtOk memories
               /\ Forall2 (fun m q => c_to_cpp_memory_map_ g !! m = Some q)
                          memories cpp_memories
               /\ memory_spaces_ dev' = memory_spaces_ dev ++ cpp_memories)
         /\ (p ∉ devices -> dev' = dev).
Proof.
  revert g w. induction devices as [|device rest IH]; intros g w Hnodup Hok H.
  - injection H as <- <-. split; [reflexivity |].
    intros p dev' Hp. exists dev'. split; [exact Hp |].
    split; [reflexivity |].
    split; [intros Hin; inversion Hin | reflexivity].
  - apply NoDup_cons in Hnodup as [Hfresh Hnodup].
    cbn [AttachMemorySpaces] in H.
    apply bind_Value in H as (cpp_device & w1 & Hcpp & H).
    destruct (owned_devices_ g !! device) as [dev|] eqn:Hdev; [| discriminate].
    injection Hcpp as <- <-.
    apply bind_Value in H as (r & w2 & Hr & H).
    rewrite run_invoke in Hr. injection Hr as <- <-.
    destruct (PJRT_Device_AddressableMemories api (device_ dev))
      as [memories|e] eqn:Hplugin.
    + apply bind_Value in H as (cpp_memories & w3 & Hmem & H).
      apply mapM_GetCppMemory_returns in Hmem as [-> Hall].
      apply IH in H as [Hspaces Hrest]; [| exact Hnodup |].
      * split; [exact Hspaces |].
        intros p dev' Hp. destruct (Hrest p dev' Hp)
          as (dev1 & H1 & Hhandle & Hin & Hout).
        cbn [set_owned_devices owned_devices_ c_to_cpp_memory_map_] in *.
        destruct (decide (p = device)) as [-> | Hne].
        -- rewrite list_lookup_insert_eq in H1
             by (eapply lookup_lt_Some; exact Hdev).
           injection H1 as <-. exists dev. split; [exact Hdev |].
           split; [exact Hhandle |].
           split; [| intros Hno; destruct Hno; left].
           intros _. exists memories, cpp_memories.
           rewrite (Hout Hfresh). cbn. rewrite Hplugin. auto.
        -- rewrite list_lookup_insert_ne in H1 by congruence.
           exists dev1. split; [exact H1 |]. split; [exact Hhandle |]. split.
           ++ intros Hp'. apply elem_of_cons in Hp' as [-> | Hp'];
                [congruence |]. exact (Hin Hp').
           ++ intros Hp'. apply Hout. intros Hp''. apply Hp'. right. exact Hp''.
      * intros p dev1 Hp H1. cbn [set_owned_devices owned_devices_] in H1.
        assert (p <> device) as Hne by (intros ->; exact (Hfresh Hp)).
        rewrite list_lookup_insert_ne in H1 by congruence.
        apply (Hok p dev1); [right; exact Hp | exact H1].
    + destruct (bool_decide _) eqn:Hcode; [discriminate |].
      apply bool_decide_eq_false in Hcode. apply dec_stable in Hcode.
      exfalso. apply (Hok device dev); [left | exact Hdev |].
      rewrite Hplugin. exists e. auto.
Qed.

(** The pass "Attach devices to memory spaces" over distinct memory
    spaces: every memory space visited has got the devices the plugin
    reports for it, and no other has changed. *)
Lemma AttachDevices_attaches (api : PJRT_Api) memories
    (g g' : ClientGraph) (w w' : World) :
  NoDup memories ->
  AttachDevices api memories g w = (Value g', w') ->
  owned_devices_ g' = owned_devices_ g
  /\ forall q mem',
       owned_memory_spaces_ g' !! q = Some mem' ->
       exists mem,
         owned_memory_spaces_ g !! q = Some mem
         /\ c_memory_ mem' = c_memory_ mem
         /\ (q ∈ memories ->
             exists attached cpp_devices,
               PJRT_Memory_AddressableByDevices api (c_memory_ mem)
               = PjrtOk attached
               /\ Forall2 (fun d p => c_to_cpp_device_map_ g !! d = Some p)
                          attached cpp_devices
               /\ memory_devices_ mem' = memory_devices_ mem ++ cpp_devices)
         /\ (q ∉ memories -> mem' = mem).
Proof.
  revert g w. induction memories as [|memory rest IH]; intros g w Hnodup H.
  - injection H as <- <-. split; [reflexivity |].
    intros q mem' Hq. exists mem'. split; [exact Hq |].
    split; [reflexivity |].
    split; [intros Hin; inversion Hin | reflexivity].
  - apply NoDup_cons in Hnodup as [Hfresh Hnodup].
    cbn [AttachDevices] in H.
    apply bind_Value in H as (cpp_memory & w1 & Hcpp & H).
    destruct (owned_memory_spaces_ g !! memory) as [mem|] eqn:Hmem;
      [| discriminate].
    injection Hcpp as <- <-.
    apply bind_Value in H as (r & w2 & Hr & H).
    rewrite run_invoke in Hr. injection Hr as <- <-.
    apply bind_Value in H as (attached & w3 & Hattached & H).
    destruct (PJRT_Memory_AddressableByDevices api (c_memory_ mem))
      as [attached'|e] eqn:Hplugin; [| discriminate].
    injection Hattached as <- <-.
    apply bind_Value in H as (cpp_devices & w4 & Hdevs & H).
    apply mapM_GetCppDevice_returns in Hdevs as [-> Hall].
    apply IH in H as [Hdevices Hrest]; [| exact Hnodup].
    split; [exact Hdevices |].
    intros q mem' Hq. destruct (Hrest q mem' Hq) as (mem1 & H1 & Hhandle & Hin & Hout).
    cbn [set_owned_memory_spaces owned_memory_spaces_ c_to_cpp_device_map_] in *.
    destruct (decide (q = memory)) as [-> | Hne].
    + rewrite list_lookup_insert_eq in H1
        by (eapply lookup_lt_Some; exact Hmem).
      injection H1 as <-. exists mem. split; [exact Hmem |].
      split; [exact Hhandle |].
      split; [| intros Hno; destruct Hno; left].
      intros _. exists attached', cpp_devices.
      rewrite (Hout Hfresh). cbn. rewrite Hplugin. auto.
    + rewrite list_lookup_insert_ne in H1 by congruence.
      exists mem1. split; [exact H1 |]. split; [exact Hhandle |]. split.
      * intros Hq'. apply elem_of_cons in Hq' as [-> | Hq'];
          [congruence |]. exact (Hin Hq').
      * intros Hq'. apply Hout. intros Hq''. apply Hq'. right. exact Hq''.
Qed.

Lemma AttachMemorySpaces_memory_spaces (api : PJRT_Api) devices
    (g g' : ClientGraph) (w w' : World) :
  AttachMemorySpaces api devices g w = (Value g', w') ->
  owned_memory_spaces_ g' = owned_memory_spaces_ g.
Proof.
  revert g w. induction devices as [|device rest IH]; intros g w H.
  - injection H as <- <-. reflexivity.
  - cbn [AttachMemorySpaces] in H.
    apply bind_Value in H as (cpp_device & w1 & Hcpp & H).
    destruct (owned_devices_ g !! device) as [dev|]; [| discriminate].
    injection Hcpp as <- <-.
    apply bind_Value in H as (r & w2 & Hr & H).
    rewrite run_invoke in Hr. injection Hr as <- <-.
    destruct (PJRT_Device_AddressableMemories api (device_ dev))
      as [memories|e].
    + apply bind_Value in H as (cpp_memories & w3 & _ & H).
      apply IH in H. exact H.
    + destruct (bool_decide _); [discriminate |].
      injection H as <- <-. reflexivity.
Qed.

Lemma add_memories_sound (ms : list PJRT_Memory) (g : ClientGraph) :
  (forall m q, c_to_cpp_memory_map_ g !! m = Some q ->
               memory_handle g q = Some m) ->
  Forall (fun mem => memory_devices_ mem = []) (owned_memory_spaces_ g) ->
  (forall m q, c_to_cpp_memory_map_ (foldl add_memory g ms) !! m = Some q ->
               memory_handle (foldl add_memory g ms) q = Some m)
  /\ Forall (fun mem => memory_devices_ mem = [])
            (owned_memory_spaces_ (foldl add_memory g ms)).
Proof.
  revert g. induction ms as [|m ms IH]; intros g Hsound Hempty; cbn.
  - split; [exact Hsound | exact Hempty].
  - apply IH.
    + intros handle q. unfold add_memory, memory_handle. cbn.
      destruct (decide (m = handle)) as [<- | Hne].
      * rewrite lookup_insert_eq. intros [= <-].
        rewrite lookup_app_r, Nat.sub_diag by lia. reflexivity.
      * rewrite lookup_insert_ne by assumption. intros Hq.
        specialize (Hsound _ _ Hq). unfold memory_handle in Hsound.
        destruct (owned_memory_spaces_ g !! q) as [mem|] eqn:Hmem;
          [| discriminate].
        rewrite lookup_app_l by (eapply lookup_lt_Some; eauto).
        rewrite Hmem. exact Hsound.
    + cbn. apply Forall_app. split; [exact Hempty |]. repeat constructor.
Qed.

Lemma lookups_NoDup (g : ClientGraph) (handles : list PJRT_Device)
    (cpp_devices : list nat) :
  device_map_sound g ->
  Forall2 (fun d p => c_to_cpp_device_map_ g !! d = Some p)
          handles cpp_devices ->
  NoDup handles -> NoDup cpp_devices.
Proof.
  intros Hsound Hall. induction Hall as [|d p ds ps Hd Hall IH]; intros Hnodup.
  - constructor.
  - apply NoDup_cons in Hnodup as [Hfresh Hnodup].
    apply NoDup_cons. split; [| exact (IH Hnodup)].
    intros Hp. apply Hfresh.
    apply list_elem_of_lookup in Hp as [i Hi].
    destruct (Forall2_lookup_r _ _ _ _ _ Hall Hi) as (d' & Hd' & Hmap).
    apply Hsound in Hd. apply Hsound in Hmap.
    assert (d = d') as -> by congruence.
    apply list_elem_of_lookup. eauto.
Qed.

Lemma lookup_handles {A B} (f : A -> B) (l l' : list A) (i : nat) :
  map f l = map f l' -> f <$> l !! i = f <$> l' !! i.
Proof.
  intros H. rewrite <- !list_lookup_fmap.
  change (fmap f l) with (map f l). change (fmap f l') with (map f l').
  now rewrite H.
Qed.

(** X19.  When the construction of the devices and memory spaces of a
    new client returns, every memory space object holds the device
    objects of the devices the plugin reports for its memory, in the
    plugin's order.  If the plugin lists no addressable device twice and
    reports UNIMPLEMENTED for the memories of none of them, every
    addressable device object holds the memory space objects of the
    memories the plugin reports for its device, in order, and a device
    object that is not addressable holds none. *)
Theorem InitDevicesAndMemorySpaces_attaches_both_ways (api : PJRT_Api)
    (c_client : PJRT_Client) (g : ClientGraph) (w w' : World) :
  InitDevicesAndMemorySpaces api c_client new_ClientGraph w = (Value g, w') ->
  (forall q mem,
     owned_memory_spaces_ g !! q = Some mem ->
     exists attached,
       PJRT_Memory_AddressableByDevices api (c_memory_ mem) = PjrtOk attached
       /\ Forall2 (fun d p => device_handle g p = Some d)
                  attached (memory_devices_ mem))
  /\ (forall addressable,
        PJRT_Client_AddressableDevices api c_client = PjrtOk addressable ->
        NoDup addressable ->
        Forall (fun d => ~ reports_unimplemented
                             (PJRT_Device_AddressableMemories api d))
               addressable ->
        forall p dev,
          owned_devices_ g !! p = Some dev ->
          (p ∈ addressable_devices_ g ->
           exists memories,
             PJRT_Device_AddressableMemories api (device_ dev) = PjrtOk memories
             /\ Forall2 (fun m q => memory_handle g q = Some m)
                        memories (memory_spaces_ dev))
          /\ (p ∉ addressable_devices_ g -> memory_spaces_ dev = [])).
Proof.
  intros H.
  destruct (InitDevicesAndMemorySpaces_graph _ _ _ _ _ H)
    as (ds' & ads' & Hds' & Hads' & _ & _ & Hgsound & _).
  unfold InitDevicesAndMemorySpaces in H.
  apply bind_Value in H as (g2 & w2 & Hinit & H).
  destruct (InitClientDevices_returns _ _ _ _ _ Hinit)
    as (ds & ads & Hds & Hads & _ & _ & Hsound & _ & Hall & Hempty
        & Hm1 & Hm2 & Hm3).
  apply bind_Value in H as (g3 & w6 & Hmemories & H).
  apply bind_Value in H as (g4 & w7 & Hattach & H).
  pose proof (AttachMemorySpaces_same_objects _ _ _ _ _ _ Hattach)
    as (A1 & A2 & A3 & A4 & A5 & A6 & A7).
  pose proof (AttachDevices_same_objects _ _ _ _ _ _ H)
    as (B1 & B2 & B3 & B4 & B5 & B6 & B7).
  unfold InitAddressableMemorySpaces in Hmemories.
  apply bind_Value in Hmemories as (r & w8 & Hr & Hmemories).
  rewrite run_invoke in Hr. injection Hr as <- <-.
  assert (owned_devices_ g3 = owned_devices_ g2
          /\ addressable_devices_ g3 = addressable_devices_ g2
          /\ c_to_cpp_device_map_ g3 = c_to_cpp_device_map_ g2
          /\ (forall m q, c_to_cpp_memory_map_ g3 !! m = Some q ->
                          memory_handle g3 q = Some m)
          /\ Forall (fun mem => memory_devices_ mem = [])
                    (owned_memory_spaces_ g3)
          /\ addressable_memory_spaces_ g3
             = seq 0 (length (owned_memory_spaces_ g3)))
    as (C1 & C2 & C3 & C4 & C5 & C6).
  { assert (forall m q, c_to_cpp_memory_map_ g2 !! m = Some q ->
                        memory_handle g2 q = Some m) as Hnone.
    { intros m q. rewrite Hm3, lookup_empty. discriminate. }
    assert (Forall (fun mem => memory_devices_ mem = [])
                   (owned_memory_spaces_ g2)) as Hnil
      by (rewrite Hm1; constructor).
    destruct (PJRT_Client_AddressableMemories api c_client) as [ms|e].
    - injection Hmemories as <- <-.
      destruct (add_memories_objects ms g2) as (D1 & D2 & D3 & D4 & D5 & D6).
      destruct (add_memories_sound ms g2 Hnone Hnil) as (D7 & D8).
      rewrite D2, D3, D5, D6.
      split; [reflexivity |]. split; [reflexivity |].
      split; [reflexivity |]. split; [exact D7 |]. split; [exact D8 |].
      rewrite <- (length_map c_memory_
                    (owned_memory_spaces_ (foldl add_memory g2 ms))), D1.
      rewrite Hm1, Hm2. reflexivity.
    - destruct (bool_decide _); [discriminate |].
      injection Hmemories as <- <-.
      split; [reflexivity |]. split; [reflexivity |].
      split; [reflexivity |]. split; [exact Hnone |]. split; [exact Hnil |].
      rewrite Hm1, Hm2. reflexivity. }
  assert (NoDup (addressable_memory_spaces_ g4)) as Hseq
    by (rewrite A6, C6; apply NoDup_seq).
  destruct (AttachDevices_attaches _ _ _ _ _ _ Hseq H) as (Hsame & Hmems).
  split.
  - intros q mem Hq.
    destruct (Hmems q mem Hq) as (mem4 & H4 & Hhandle & Hin & _).
    rewrite (AttachMemorySpaces_memory_spaces _ _ _ _ _ _ Hattach) in H4.
    destruct Hin as (attached & cpps & Hplugin & Hlookups & Hdevs).
    { rewrite A6, C6. apply elem_of_seq. apply lookup_lt_Some in H4. lia. }
    exists attached. rewrite Hhandle. split; [exact Hplugin |].
    rewrite Hdevs.
    rewrite (proj1 (Forall_lookup _ _) C5 q mem4 H4). cbn [app].
    eapply Forall2_impl; [exact Hlookups |].
    intros d p Hd. apply Hgsound. rewrite B4. exact Hd.
  - intros addressable Haddressable Hnodup Hanswers p dev Hp.
    rewrite Hads in Haddressable. injection Haddressable as <-.
    assert (NoDup (addressable_devices_ g2)) as Hdistinct
      by (eapply lookups_NoDup; eauto).
    assert (NoDup (addressable_devices_ g3)) as Hdistinct'
      by (rewrite C2; exact Hdistinct).
    assert (forall p dev,
              p ∈ addressable_devices_ g3 -> owned_devices_ g3 !! p = Some dev ->
              ~ reports_unimplemented
                  (PJRT_Device_AddressableMemories api (device_ dev))) as Hok.
    { intros p0 dev0 Hp0 Hdev0. rewrite C2 in Hp0. rewrite C1 in Hdev0.
      apply list_elem_of_lookup in Hp0 as [i Hi].
      destruct (Forall2_lookup_r _ _ _ _ _ Hall Hi) as (d & Hd & Hmap).
      apply Hsound in Hmap. unfold device_handle in Hmap.
      rewrite Hdev0 in Hmap. injection Hmap as ->.
      apply (proj1 (Forall_lookup _ _) Hanswers i d Hd). }
    destruct (AttachMemorySpaces_attaches _ _ _ _ _ _ Hdistinct' Hok Hattach)
      as (_ & Hdevs).
    rewrite Hsame in Hp.
    destruct (Hdevs p dev Hp) as (dev3 & H3 & Hhandle & Hin & Hout).
    rewrite C1 in H3.
    pose proof (proj1 (Forall_lookup _ _) Hempty p dev3 H3) as Hnil.
    cbn beta in Hnil.
    rewrite B3, A3, C2. rewrite C2 in Hin, Hout. split.
    + intros Hp'. destruct (Hin Hp') 
        as (memories & cpps & Hplugin & Hlookups & Hspaces).
      exists memories. rewrite Hhandle. split; [exact Hplugin |].
      rewrite Hspaces, Hnil. cbn [app].
      eapply Forall2_impl; [exact Hlookups |].
      intros m q Hm. apply C4 in Hm. unfold memory_handle in *.
      rewrite <- Hm. apply lookup_handles. congruence.
    + intros Hp'. rewrite (Hout Hp'). exact Hnil.
Qed.

End FurtherProperties.

(** ** Instances on the example plugin *)

#[local] Existing Instance example_helpers.
#[local] Existing Instance example_client_helpers.

(** An instance of C3: a semantics outside the three, on the example
    plugin. *)
Lemma BufferFromHostBuffer_unsupported_semantics_witness :
  kOtherSemantics 3 <> kImmutableOnlyDuringCall
  /\ kOtherSemantics 3 <> kImmutableUntilTransferCompletes
  /\ kOtherSemantics 3 <> kZeroCopy
  /\ @BufferFromHostBuffer example_helpers client_A [Byte.x01; Byte.x02] 1%Z [2%Z] None
       (kOtherSemantics 3) (Some (UserCallback 5))
       {| device_client := client_A; c_device := 10%N |} new_World
     = (Error (Unimplemented BufferFromHostBuffer_unsupported), new_World).
Proof.
  split; [discriminate |]. split; [discriminate |]. split; [discriminate |].
  apply (@BufferFromHostBuffer_unsupported_semantics example_helpers client_A
           [Byte.x01; Byte.x02] 1%Z [2%Z] None (kOtherSemantics 3) (Some (UserCallback 5))
           (inl {| device_client := client_A; c_device := 10%N |}) None
           {| device_client := client_A; c_device := 10%N |}
           {| memory_client := client_A; c_memory := 20%N |} new_World);
    discriminate.
Defined.

(** Instances of C4: the buffer of client A asked of client B, and of
    client A. *)
Lemma UnsafeBufferPointer_checks_client_witness :
  this_client (client_ buffer_of_A) <> this_client client_B
  /\ (exists msg,
        UnsafeBufferPointer client_B buffer_of_A new_World
        = (Error (MkStatus kInvalidArgument msg), new_World)
        /\ names msg "cpu" /\ names msg "tpu")
  /\ this_client (client_ buffer_of_A) = this_client client_A
  /\ fst (UnsafeBufferPointer client_A buffer_of_A new_World) = Value 56%Z.
Proof.
  pose proof (@UnsafeBufferPointer_checks_client example_helpers client_B
                buffer_of_A new_World) as [Hdiff _].
  pose proof (@UnsafeBufferPointer_checks_client example_helpers client_A
                buffer_of_A new_World) as [_ Hsame].
  split; [discriminate |]. split; [apply Hdiff; discriminate |].
  split; [reflexivity |]. rewrite Hsame; reflexivity.
Defined.

(** C10 as the specification states it fails: against a plugin of minor
    version 32, a shape whose layout does not convert gives the error of
    the conversion, an InvalidArgument one, not an Unimplemented one. *)
Lemma CreateViewOfDeviceBuffer_layout_error_counterexample :
  let client := example_client 3 32 "gpu" in
  (minor_version (c_api_ client) < 33)%Z
  /\ CreateViewOfDeviceBuffer client 4096 (MkShape 1%Z [2%Z] (Some []))
       {| device_client := client; c_device := 10%N |} None None new_World
     = (Error (InvalidArgument no_layout_order), new_World)
  /\ code (InvalidArgument no_layout_order) <> kUnimplemented.
Proof. split; [reflexivity |]. split; [reflexivity | discriminate]. Qed.

(** An instance of C10 as the code has it: a plugin of minor version 32
    and a shape whose layout converts. *)
Lemma CreateViewOfDeviceBuffer_needs_minor_33_witness :
  let client := example_client 3 32 "gpu" in
  let shape := MkShape 1%Z [2%Z] (Some [0%Z]) in
  (minor_version (c_api_ client) < 33)%Z
  /\ layout_converts shape
  /\ CreateViewOfDeviceBuffer client 4096 shape
       {| device_client := client; c_device := 10%N |} None None new_World
     = (Error (Unimplemented CreateViewOfDeviceBuffer_unsupported), new_World).
Proof.
  intros client shape.
  assert (layout_converts shape) as Hlayout by (eexists; reflexivity).
  split; [reflexivity |]. split; [exact Hlayout |].
  destruct (@CreateViewOfDeviceBuffer_needs_minor_33 example_helpers client
              4096 shape {| device_client := client; c_device := 10%N |}
              None None new_World eq_refl) as (s & Hrun & Hs & _).
  destruct (Hs Hlayout) as [-> _]. exact Hrun.
Defined.

(** C5 as the specification states it fails: with the flag false and no
    callback list, Execute on two devices returns the output buffers the
    plugin wrote, not an Unimplemented error. *)
Lemma layout_flag_without_callbacks_counterexample :
  use_major_to_minor_data_layout_for_callbacks (example_options [] false) = false
  /\ fst (Execute example_executable [[buffer_of_A]; [buffer_of_A]]
            (example_options [] false) None new_World)
     = Value ([[new_PjRtCApiBuffer client_A 500%N; new_PjRtCApiBuffer client_A 501%N];
               [new_PjRtCApiBuffer client_A 510%N; new_PjRtCApiBuffer client_A 511%N]],
              None).
Proof. split; [reflexivity |]. vm_compute. reflexivity. Qed.

(** An instance of C5 as the code has it: one send callback and the flag
    false; no callback and the flag false. *)
Lemma layout_flag_unsupported_with_callbacks_witness :
  use_major_to_minor_data_layout_for_callbacks
    (example_options [[example_send]] false) = false
  /\ (send_callbacks (example_options [[example_send]] false) <> []
      \/ recv_callbacks (example_options [[example_send]] false) <> [])
  /\ Execute example_executable [[buffer_of_A]]
       (example_options [[example_send]] false) None new_World
     = (Error (Unimplemented GetCommonExecuteArgs_unsupported), new_World)
  /\ Execute example_executable [[buffer_of_A]] (example_options [] false)
       None new_World
     = Execute example_executable [[buffer_of_A]]
         (set_use_major_to_minor true (example_options [] false)) None
         new_World.
Proof.
  pose proof (@layout_flag_unsupported_with_callbacks example_helpers
                example_executable [[buffer_of_A]] [buffer_of_A]
                {| device_client := client_A; c_device := 10%N |}
                (example_options [[example_send]] false) None None false
                new_World eq_refl) as [Hwith _].
  pose proof (@layout_flag_unsupported_with_callbacks example_helpers
                example_executable [[buffer_of_A]] [buffer_of_A]
                {| device_client := client_A; c_device := 10%N |}
                (example_options [] false) None None false
                new_World eq_refl) as [_ Hwithout].
  split; [reflexivity |]. split; [left; discriminate |].
  split; [apply Hwith; left; discriminate |].
  apply Hwithout; reflexivity.
Defined.

(** An instance of C9, and the multi-device path on the same options:
    there the callback reaches the plugin. *)
Lemma single_device_execution_rejects_callbacks_witness :
  (send_callbacks (example_options [[example_send]] true) <> []
   \/ recv_callbacks (example_options [[example_send]] true) <> [])
  /\ ExecuteSharded example_executable [buffer_of_A]
       {| device_client := client_A; c_device := 10%N |}
       (example_options [[example_send]] true) None false new_World
     = (Error (MkStatus kUnimplemented ExecuteWithSingleDevice_unsupported),
        new_World).
Proof.
  split; [left; discriminate |].
  apply (@single_device_execution_rejects_callbacks example_helpers
           example_executable [buffer_of_A]
           {| device_client := client_A; c_device := 10%N |}
           (example_options [[example_send]] true) None false new_World).
  left; discriminate.
Defined.

Example Execute_marshals_callbacks :
  exists args,
    last (plugin_calls
            (snd (Execute example_executable [[buffer_of_A]]
                    (example_options [[example_send]] true) (Some [])
                    new_World)))
    = Some (Call_LoadedExecutable_Execute args)
    /\ opt_send_callbacks (ex_options args)
       = [[{| info_channel_id := 1; info_user_arg := 0 |}]]
    /\ num_send_ops (ex_options args) = 1.
Proof. eexists. split; [vm_compute; reflexivity |]. split; reflexivity. Qed.



(** An instance of C7: three devices, an executable of two outputs. *)
Lemma Execute_output_lists_witness :
  let handles := [[buffer_of_A]; [buffer_of_A]; [buffer_of_A]] in
  let run := Execute example_executable handles (example_options [] true)
               (Some []) new_World in
  let buffer := new_PjRtCApiBuffer client_A in
  let buffers := [[buffer 500%N; buffer 501%N]; [buffer 510%N; buffer 511%N];
                  [buffer 520%N; buffer 521%N]] in
  let futures := Some [FutureOfEvent 600%N false; FutureOfEvent 601%N false;
                       FutureOfEvent 602%N false] in
  PJRT_Executable_NumOutputs (c_api_ (executable_client_ example_executable))
    (c_executable example_executable) = PjrtOk 2%N
  /\ (Z.of_N 2 <= INT_MAX)%Z
  /\ run = (Value (buffers, futures), snd run)
  /\ length buffers = length handles
  /\ Forall (fun output_list => length output_list = N.to_nat 2) buffers.
Proof.
  intros handles run buffer buffers futures.
  assert (run = (Value (buffers, futures), snd run)) as Hrun
    by (vm_compute; reflexivity).
  assert (Z.of_N 2 <= INT_MAX)%Z as Hint by (vm_compute; discriminate).
  split; [reflexivity |]. split; [exact Hint |]. split; [exact Hrun |].
  destruct (@Execute_output_lists example_helpers example_executable handles
              (example_options [] true) (Some []) new_World (snd run) buffers
              futures 2%N eq_refl Hint Hrun)
    as (Hlen & Hall & _).
  split; [exact Hlen | exact Hall].
Defined.

(** C1 as the specification states it fails for CopyToMemorySpace: against
    a plugin of minor version 31 there is no copy, neither direct, to a
    memory space of the buffer's client, nor through the host, to one of
    another client: the call returns an Unimplemented error and no entry
    point is invoked. *)
Lemma CopyToMemorySpace_old_plugin_counterexample :
  let client := example_client 1%N 31%Z "cpu" in
  let buffer := new_PjRtCApiBuffer client 7%N in
  let unimplemented :=
    (Error (Unimplemented CopyToMemorySpace_unsupported), new_World) in
  same_client client (client_ buffer) = true
  /\ CopyToMemorySpace (host_transfer:=example_host_transfer) buffer {| memory_client := client; c_memory := 20%N |}
       new_World = unimplemented
  /\ same_client client_B (client_ buffer) = false
  /\ CopyToMemorySpace (host_transfer:=example_host_transfer) buffer {| memory_client := client_B; c_memory := 20%N |}
       new_World = unimplemented.
Proof. repeat split. Qed.

(** An instance of C1 as the code has it: the buffer of client A copied
    to device 10 of client A and of client B. *)
Lemma copy_direct_or_through_host_witness :
  let to_A := {| device_client := client_A; c_device := 10%N |} in
  let to_B := {| device_client := client_B; c_device := 10%N |} in
  let copy := CopyToDevice (host_transfer:=example_host_transfer)
                buffer_of_A to_B new_World in
  same_client client_A (client_ buffer_of_A) = true
  /\ fst (CopyToDevice (host_transfer:=example_host_transfer) buffer_of_A to_A
            new_World)
     = Value (new_PjRtCApiBuffer client_A 8%N)
  /\ same_client client_B (client_ buffer_of_A) = false
  /\ copy = through_host (host_transfer:=example_host_transfer) buffer_of_A
              client_B (Some 10%N) None new_World
  /\ copy = (Value (new_PjRtCApiBuffer client_B 100%N), snd copy)
  /\ plugin_calls (snd copy)
     = [Call_Client_BufferFromHostBuffer
          (zero_copy_args client_B example_literal [1%Z] (Some 10%N) None);
        Call_Event_OnReady 200%N
          (DoneWithHostBuffer (FreesLiteral example_literal))]
  /\ materializes_what_it_ingests (host_transfer:=example_host_transfer)
       client_B
  /\ same_bytes_on_host (host_transfer:=example_host_transfer) buffer_of_A
       (new_PjRtCApiBuffer client_B 100%N) new_World (snd copy).
Proof.
  intros to_A to_B copy.
  pose proof (@copy_direct_or_through_host example_helpers
                example_host_transfer buffer_of_A to_A
                {| memory_client := client_A; c_memory := 20%N |} new_World)
    as (Hdirect & _).
  pose proof (@copy_direct_or_through_host example_helpers
                example_host_transfer buffer_of_A to_B
                {| memory_client := client_A; c_memory := 20%N |} new_World)
    as (_ & Hhost & _).
  assert (materializes_what_it_ingests (host_transfer:=example_host_transfer)
            client_B) as Hfaithful.
  { intros args dst_buffer event w Hargs. cbn in Hargs.
    destruct (decide _) as [Hdata|]; [| discriminate].
    exists example_literal, w. split; [reflexivity |].
    destruct (bfh_data args) as [|x [|y [|]]]; try discriminate.
    cbn in Hdata. injection Hdata as Hx Hy.
    destruct x; try discriminate; destruct y; try discriminate; reflexivity. }
  assert (copy = (Value (new_PjRtCApiBuffer client_B 100%N), snd copy))
    as Hvalue by (vm_compute; reflexivity).
  destruct (Hhost eq_refl) as [Hthrough Hcopied].
  destruct (Hcopied _ _ Hvalue) as [_ Hbytes].
  split; [reflexivity |].
  split; [rewrite (Hdirect eq_refl); reflexivity |].
  split; [reflexivity |]. split; [exact Hthrough |]. split; [exact Hvalue |].
  split; [vm_compute; reflexivity |].
  split; [exact Hfaithful |]. exact (Hbytes Hfaithful).
Defined.

(** The premise of C1 on the destination plugin is needed: to a client
    whose plugin does not keep what it ingests, the copy through the host
    returns a buffer of that client which materializes to other bytes
    than the source. *)
Example copy_through_host_to_forgetful_plugin :
  let to_B := {| device_client := client_B; c_device := 10%N |} in
  let copy := CopyToDevice (host_transfer:=forgetful_host_transfer)
                buffer_of_A to_B new_World in
  let b := new_PjRtCApiBuffer client_B 100%N in
  copy = (Value b, snd copy)
  /\ fst (ToLiteralSync (HostTransfer:=forgetful_host_transfer) buffer_of_A
            new_World)
     = Value example_literal
  /\ (exists other,
        fst (ToLiteralSync (HostTransfer:=forgetful_host_transfer) b
               (snd copy))
        = Value other
        /\ untyped_data other <> untyped_data example_literal)
  /\ ~ same_bytes_on_host (host_transfer:=forgetful_host_transfer)
        buffer_of_A b new_World (snd copy).
Proof.
  intros to_B copy b.
  split; [vm_compute; reflexivity |]. split; [reflexivity |].
  split; [eexists; split; [reflexivity | discriminate] |].
  intros (literal & w1 & other & w'' & Hsource & Hcopy & Hbytes).
  injection Hsource as <- _. injection Hcopy as <- _. discriminate Hbytes.
Qed.

(** C6 as the specification states it fails: against a plugin that
    reports UNIMPLEMENTED for the memory spaces of the client and a
    memory space for its first device, no client is constructed: the
    initialization ends on the CHECK of GetCppMemory. *)
Lemma InitDevicesAndMemorySpaces_inconsistent_plugin_counterexample :
  reports_unimplemented (PJRT_Client_AddressableMemories inconsistent_api 1%N)
  /\ PJRT_Device_AddressableMemories inconsistent_api 10%N = PjrtOk [20%N]
  /\ fst (InitDevicesAndMemorySpaces inconsistent_api 1%N new_ClientGraph
            new_World)
     = Crashed CheckFailed.
Proof.
  split; [exists unimplemented_error; split; reflexivity |].
  split; [reflexivity |]. vm_compute. reflexivity.
Qed.

(** Instances of C6 as the code has it: the whole initialization against
    the plugin without memory spaces; the attachment pass against the
    plugin that reports the memory space of device 10 only, which queries
    devices 10 and 11 and leaves device 12 alone; the initialization
    against the plugin that reports a memory space for its first device
    and none for the client. *)
Lemma memory_spaces_unimplemented_witness :
  reports_unimplemented (PJRT_Client_AddressableMemories (example_api 33 0) 1%N)
  /\ reports_unimplemented (PJRT_Device_AddressableMemories (example_api 33 0) 10%N)
  /\ (exists g' w',
        InitDevicesAndMemorySpaces (example_api 33 0) 1%N new_ClientGraph new_World
        = (Value g', w')
        /\ map device_ (owned_devices_ g') = [10; 11; 12]%N
        /\ owned_memory_spaces_ g' = []
        /\ addressable_memory_spaces_ g' = []
        /\ Forall (fun dev => memory_spaces_ dev = []) (owned_devices_ g')
        /\ plugin_calls w'
           = [Call_Client_Devices 1%N;
              Call_DeviceDescription_Attributes 110%N;
              Call_DeviceDescription_Attributes 111%N;
              Call_DeviceDescription_Attributes 112%N;
              Call_Client_AddressableDevices 1%N;
              Call_Client_AddressableMemories 1%N;
              Call_Device_AddressableMemories 10%N])
  /\ Forall (answers (example_api 33 1) example_graph) [0]
  /\ device_handle example_graph 1 = Some 11%N
  /\ reports_unimplemented (PJRT_Device_AddressableMemories (example_api 33 1) 11%N)
  /\ (exists g' w',
        AttachMemorySpaces (example_api 33 1) ([0] ++ 1 :: [2]) example_graph
          new_World = (Value g', w')
        /\ map memory_spaces_ (owned_devices_ g') = [[0]; []; []]
        /\ plugin_calls w'
           = [Call_Device_AddressableMemories 10%N;
              Call_Device_AddressableMemories 11%N])
  /\ (exists w',
        InitDevicesAndMemorySpaces inconsistent_api 1%N new_ClientGraph new_World
        = (Crashed CheckFailed, w')
        /\ last (plugin_calls w') = Some (Call_Device_AddressableMemories 10%N)).
Proof.
  assert (forall api handle,
            PJRT_Device_AddressableMemories api handle = PjrtErr unimplemented_error ->
            reports_unimplemented (PJRT_Device_AddressableMemories api handle))
    as Hdevice by (intros api handle ->; exists unimplemented_error; auto).
  assert (forall api,
            PJRT_Client_AddressableMemories api 1%N = PjrtErr unimplemented_error ->
            reports_unimplemented (PJRT_Client_AddressableMemories api 1%N))
    as Hclient by (intros api ->; exists unimplemented_error; auto).
  assert (Forall (answers (example_api 33 1) example_graph) [0]) as Hanswers
    by (repeat constructor; exists 10%N, [20%N]; auto).
  assert (forall api,
            api = example_api 33 0 \/ api = inconsistent_api ->
            exists g1 w1,
              InitClientDevices api 1%N new_ClientGraph new_World = (Value g1, w1)
              /\ map device_ (owned_devices_ g1) = [10; 11; 12]%N
              /\ addressable_devices_ g1 = [0; 1; 2]
              /\ device_handle g1 0 = Some 10%N
              /\ plugin_calls w1
                 = [Call_Client_Devices 1%N;
                    Call_DeviceDescription_Attributes 110%N;
                    Call_DeviceDescription_Attributes 111%N;
                    Call_DeviceDescription_Attributes 112%N;
                    Call_Client_AddressableDevices 1%N]) as Hdevices
    by (intros api [-> | ->]; eexists _, _;
        (split; [vm_compute; reflexivity |]); repeat split).
  pose proof (@memory_spaces_unimplemented example_helpers
                example_client_helpers (example_api 33 0) 1%N new_ClientGraph
                new_World) as (_ & _ & Hinit & _).
  pose proof (@memory_spaces_unimplemented example_helpers
                example_client_helpers (example_api 33 1) 1%N example_graph
                new_World) as (_ & Hpass & _).
  pose proof (@memory_spaces_unimplemented example_helpers
                example_client_helpers inconsistent_api 1%N new_ClientGraph
                new_World) as (_ & _ & _ & Hcheck).
  split; [apply Hclient; reflexivity |].
  split; [apply Hdevice; reflexivity |]. split; [| split; [| split; [| split; [| split]]]].
  - destruct (Hdevices (example_api 33 0) (or_introl eq_refl))
      as (g1 & w1 & Hrun & Hhandles & Haddressable & Hfirst & Hcalls).
    destruct (Hinit g1 w1 [] [0; 1; 2] Hrun
                ltac:(apply Hclient; reflexivity) Haddressable
                (List.Forall_nil _))
      as (w' & Hreturns & H1 & H2 & _ & H4 & H5).
    { intros next [= <-]. exists 10%N. split; [exact Hfirst |].
      apply Hdevice. reflexivity. }
    exists g1, w'. split; [exact Hreturns |]. split; [exact Hhandles |].
    split; [exact H1 |]. split; [exact H2 |]. split; [exact H4 |].
    rewrite H5, Hcalls.
    change (omap (device_handle g1) ([] ++ option_list (head [0; 1; 2])))
      with (match device_handle g1 0 with Some h => [h] | None => [] end).
    rewrite Hfirst. reflexivity.
  - exact Hanswers.
  - reflexivity.
  - apply Hdevice; reflexivity.
  - rewrite (Hpass [0] 1 [2] 11%N Hanswers eq_refl
               ltac:(apply Hdevice; reflexivity)).
    eexists _, _. split; [reflexivity |]. split; reflexivity.
  - destruct (Hdevices inconsistent_api (or_intror eq_refl))
      as (g1 & w1 & Hrun & _ & Haddressable & Hfirst & _).
    eexists. split.
    + apply (Hcheck g1 w1 0 [1; 2] 10%N 20%N [] Hrun
               ltac:(apply Hclient; reflexivity) Haddressable Hfirst eq_refl).
    + cbn. apply last_snoc.
Defined.

(** An instance of C2: the buffer of client A asked twice, its ready event
    1007 completed without error, and asked again. *)
Lemma GetReadyFuture_one_promise_witness :
  let steps := [Asks; Asks; Completes None; Asks] in
  PJRT_Buffer_ReadyEvent (c_api_ (client_ buffer_of_A)) (buffer_ buffer_of_A)
  = PjrtOk 1007%N
  /\ readiness_promise_ buffer_of_A = None
  /\ (readiness_event_ buffer_of_A = None
      \/ readiness_event_ buffer_of_A = Some 1007%N)
  /\ unused_from (next_promise new_World) new_World
  /\ exists futures this' w',
       drive 1007%N steps buffer_of_A new_World = (Value (futures, this'), w')
       /\ length futures = 3
       /\ Forall (fun f => f = FutureOfPromise 0%N) futures
       /\ (forall w'',
             Forall (fun f => future_status f w'' = promise_status 0%N w'')
                    futures)
       /\ (futures <> [] ->
           readiness_promise_ this' = Some 0%N
           /\ next_promise w' = 1%N
           /\ registrations 0%N w'
              = [Call_Event_OnReady 1007%N (TrackPromise 0%N)]
           /\ length (sets_of 0%N w') <= 1
           /\ (event_status 1007%N w' <> None -> length (sets_of 0%N w') = 1)
           /\ forall error,
                length (sets_of 0%N (event_completes 1007%N error w')) = 1).
Proof.
  intros steps.
  assert (unused_from (next_promise new_World) new_World) as Hunused
    by (intros q _; repeat split).
  split; [reflexivity |]. split; [reflexivity |]. split; [left; reflexivity |].
  split; [exact Hunused |].
  exact (@GetReadyFuture_one_promise example_helpers
           buffer_of_A 1007%N steps new_World eq_refl eq_refl
           (or_introl eq_refl) Hunused).
Defined.

(** The same run, computed: the three futures, the promise set once, to
    the OK status, and no callback left waiting. *)
Example GetReadyFuture_run :
  let run := drive 1007%N [Asks; Asks; Completes None; Asks] buffer_of_A
               new_World in
  (fst <$> match fst run with Value r => Some r | _ => None end)
  = Some [FutureOfPromise 0%N; FutureOfPromise 0%N; FutureOfPromise 0%N]
  /\ promise_sets (snd run) = [(0%N, OkStatus)]
  /\ on_ready_callbacks (snd run) = []
  /\ plugin_calls (snd run)
     = [Call_Buffer_ReadyEvent 7%N;
        Call_Event_OnReady 1007%N (TrackPromise 0%N)].
Proof. vm_compute. repeat split. Qed.

(** An instance of X1: two lists of two send callbacks each. *)
Lemma CppCallbackListsToC_slots_witness :
  let cb c f := {| send_channel_id := c; send_callback := f |} in
  let cpp_lists := [[cb 1%Z 9%N; cb 2%Z 8%N]; [cb 3%Z 7%N; cb 4%Z 6%N]] in
  length (concat cpp_lists) <= length cpp_lists * 2
  /\ exists functions' new,
       CppSendCallbackListsToC cpp_lists [] [] = Some (functions', new)
       /\ length functions' = 4
       /\ exists info,
            new !! 1 ≫= (.!! 0) = Some info
            /\ info_channel_id info = 3%Z
            /\ info_user_arg info = 2
            /\ functions' !! 2 = Some (Some 7%N).
Proof.
  intros cb cpp_lists.
  assert (length (concat cpp_lists) <= length cpp_lists * 2) as Hfits
    by (vm_compute; lia).
  split; [exact Hfits |].
  destruct (CppCallbackListsToC_slots send_channel_id send_callback
              [cb 1%Z 9%N; cb 2%Z 8%N] [[cb 3%Z 7%N; cb 4%Z 6%N]] [] [] Hfits)
    as (functions' & new & Hrun & Hlen & _ & Hslots).
  exists functions', new. split; [exact Hrun |]. split; [exact Hlen |].
  destruct (Hslots 1 [cb 3%Z 7%N; cb 4%Z 6%N] 0 (cb 3%Z 7%N) eq_refl eq_refl)
    as (info & Hinfo & Hchannel & Harg & Hslot).
  exists info. rewrite Harg in Hslot. auto.
Defined.

(** An instance of X2: the example executable on two devices. *)
Lemma Execute_wraps_outputs_witness :
  let handles := [[buffer_of_A]; [buffer_of_A]] in
  let run := Execute example_executable handles (example_options [] true)
               None new_World in
  let buffer := new_PjRtCApiBuffer client_A in
  let buffers := [[buffer 500%N; buffer 501%N]; [buffer 510%N; buffer 511%N]] in
  PJRT_Executable_NumOutputs (c_api_ (executable_client_ example_executable))
    (c_executable example_executable) = PjrtOk 2%N
  /\ (Z.of_N 2 <= INT_MAX)%Z
  /\ run = (Value (buffers, None), snd run)
  /\ exists args,
       plugin_calls (snd run)
       = [Call_Executable_NumOutputs 51%N; Call_LoadedExecutable_Execute args]
       /\ ex_executable args = 50%N
       /\ ex_argument_lists args = [[7%N]; [7%N]]
       /\ ex_execute_device args = None
       /\ opt_launch_id (ex_options args) = 3%Z.
Proof.
  intros handles run buffer buffers.
  assert (run = (Value (buffers, None), snd run)) as Hrun
    by (vm_compute; reflexivity).
  assert (Z.of_N 2 <= INT_MAX)%Z as Hint by (vm_compute; discriminate).
  split; [reflexivity |]. split; [exact Hint |]. split; [exact Hrun |].
  destruct (@Execute_wraps_outputs example_helpers example_executable handles
              (example_options [] true) None new_World (snd run) buffers
              None 2%N eq_refl Hint Hrun)
    as (args & outs & Htrace & _ & Hexe & Hlists & Hdevice & Hlaunch & _).
  exists args. auto.
Defined.

(** Instances of X3: on two devices and without host callbacks, futures
    asked for, and none asked for. *)
Lemma Execute_returns_futures_witness :
  let handles := [[buffer_of_A]; [buffer_of_A]] in
  let run := Execute example_executable handles (example_options [] true)
               (Some []) new_World in
  let buffer := new_PjRtCApiBuffer client_A in
  let buffers := [[buffer 500%N; buffer 501%N]; [buffer 510%N; buffer 511%N]] in
  let futures := Some [FutureOfEvent 600%N false; FutureOfEvent 601%N false] in
  run = (Value (buffers, futures), snd run)
  /\ exists args outs,
       plugin_calls (snd run)
       = [Call_Executable_NumOutputs 51%N; Call_LoadedExecutable_Execute args]
       /\ ex_device_complete_events args = Some [0%N; 0%N]
       /\ futures
          = Some [FutureOfEvent (written_event outs 0) false;
                  FutureOfEvent (written_event outs 1) false]
       /\ let quiet_run := Execute example_executable handles
                             (example_options [] true) None new_World in
          quiet_run = (Value (buffers, None), snd quiet_run)
          /\ exists quiet_args,
               last (plugin_calls (snd quiet_run))
               = Some (Call_LoadedExecutable_Execute quiet_args)
               /\ ex_device_complete_events quiet_args = None.
Proof.
  intros handles run buffer buffers futures.
  assert (run = (Value (buffers, futures), snd run)) as Hrun
    by (vm_compute; reflexivity).
  split; [exact Hrun |].
  destruct (@Execute_returns_futures example_helpers example_executable handles
              (example_options [] true) (Some []) new_World (snd run) buffers
              futures Hrun)
    as (args & outs & Htrace & _ & Hevents & Hfutures).
  exists args, outs. split; [exact Htrace |]. split; [exact Hevents |].
  split; [exact Hfutures |]. intros quiet_run.
  assert (quiet_run = (Value (buffers, None), snd quiet_run)) as Hquiet
    by (vm_compute; reflexivity).
  split; [exact Hquiet |].
  destruct (@Execute_returns_futures example_helpers example_executable handles
              (example_options [] true) None new_World (snd quiet_run) buffers
              None Hquiet)
    as (quiet_args & _ & Hquiet_trace & _ & Hnone).
  exists quiet_args. split; [| apply Hnone; reflexivity].
  rewrite Hquiet_trace. reflexivity.
Defined.

(** An instance of X4: one send callback, the layout flag set, and no
    request for futures; no argument list at all. *)
Lemma Execute_preconditions_witness :
  let options := example_options [[example_send]] true in
  (negb (bool_decide (send_callbacks options = []))
   || negb (bool_decide (recv_callbacks options = [])) = true ->
   use_major_to_minor_data_layout_for_callbacks options = true)
  /\ Execute example_executable [] options (Some []) new_World
     = (Crashed CheckFailed, new_World)
  /\ Execute example_executable [[buffer_of_A]] options None new_World
     = (Crashed UndefinedBehaviour, new_World).
Proof.
  intros options.
  destruct (@Execute_preconditions example_helpers example_executable options
              new_World (fun _ => eq_refl)) as [Hempty Hnone].
  split; [reflexivity |]. split; [apply Hempty |].
  apply Hnone. reflexivity.
Defined.


(** An instance of X6: the example executable on device 11, with a
    future. *)
Lemma ExecuteWithSingleDevice_returns_witness :
  let device := {| device_client := client_A; c_device := 11%N |} in
  let run := ExecuteWithSingleDevice example_executable [buffer_of_A] device
               (example_options [] true) None true new_World in
  let buffer := new_PjRtCApiBuffer client_A in
  let result := [buffer 500%N; buffer 501%N] in
  let future := Some (FutureOfEvent 600%N false) in
  PJRT_Executable_NumOutputs (c_api_ (executable_client_ example_executable))
    (c_executable example_executable) = PjrtOk 2%N
  /\ (Z.of_N 2 <= INT_MAX)%Z
  /\ run = (Value (result, future), snd run)
  /\ exists args,
       plugin_calls (snd run)
       = [Call_Executable_NumOutputs 51%N; Call_LoadedExecutable_Execute args]
       /\ ex_num_devices args = 1
       /\ ex_argument_lists args = [[7%N]]
       /\ ex_execute_device args = Some 11%N
       /\ ex_device_complete_events args = Some [0%N].
Proof.
  intros device run buffer result future.
  assert (run = (Value (result, future), snd run)) as Hrun
    by (vm_compute; reflexivity).
  assert (Z.of_N 2 <= INT_MAX)%Z as Hint by (vm_compute; discriminate).
  split; [reflexivity |]. split; [exact Hint |]. split; [exact Hrun |].
  destruct (@ExecuteWithSingleDevice_returns example_helpers
              example_executable [buffer_of_A] device (example_options [] true)
              None true new_World (snd run) result future 2%N eq_refl Hint Hrun)
    as (_ & _ & args & outs & Htrace & _ & _ & Hnum & Hlists & Hdevice
        & Hevents & _).
  exists args. auto.
Defined.

(** An instance of X7: the two bytes the example plugin ingests, handed
    over for the duration of the call with a callback; the event 200 has
    not completed. *)
Lemma BufferFromHostBuffer_done_with_host_buffer_witness :
  let device := @inl PjRtDevice PjRtMemorySpace
                  {| device_client := client_A; c_device := 10%N |} in
  let f := UserCallback 5 in
  let call :=
    BufferFromHostBufferInternalImpl client_A [Byte.x01; Byte.x02] 1%Z [2%Z]
      None kImmutableOnlyDuringCall (Some f) device None new_World in
  (kImmutableOnlyDuringCall = kImmutableOnlyDuringCall
   \/ kImmutableOnlyDuringCall = kZeroCopy
   \/ kImmutableOnlyDuringCall = kImmutableUntilTransferCompletes)
  /\ convert_layout None new_World = (Value None, new_World)
  /\ PJRT_Client_BufferFromHostBuffer (c_api_ client_A)
       {| bfh_client := 1%N; bfh_data := [Byte.x01; Byte.x02];
          bfh_type := 1%Z; bfh_dims := [2%Z]; bfh_byte_strides := None;
          bfh_device_layout := None; bfh_host_buffer_semantics := 0%Z;
          bfh_device := Some 10%N; bfh_memory := None |}
     = PjrtOk (100%N, 200%N)
  /\ fst call = Value (new_PjRtCApiBuffer client_A 100%N)
  /\ host_log (snd call) = []
  /\ on_ready_callbacks (snd call) = [(200%N, DoneWithHostBuffer f)]
  /\ forall error,
       host_log (event_completes 200%N error (snd call))
       = [Invoked f; Destroyed f]
       /\ on_ready_callbacks (event_completes 200%N error (snd call)) = [].
Proof.
  intros device f call.
  pose proof (@BufferFromHostBuffer_done_with_host_buffer example_helpers
                client_A [Byte.x01; Byte.x02] 1%Z [2%Z] None
                kImmutableOnlyDuringCall f device None None 100%N 200%N
                new_World (or_introl eq_refl) eq_refl eq_refl)
    as (_ & Hvalue & Hlog & Hwaits & Honce).
  split; [left; reflexivity |]. split; [reflexivity |]. split; [reflexivity |].
  split; [exact Hvalue |]. split; [exact Hlog |]. split; [exact Hwaits |].
  intros error. destruct (Honce (List.Forall_nil _) error) as (Hrun & Hgone & _).
  split; [exact Hrun | exact Hgone].
Defined.

(** An instance of X8: the buffer of the plugin that rejects every
    registration. *)
Lemma GetReadyFuture_registration_fails_witness :
  let e := MkError PJRT_Error_Code_INTERNAL "no callbacks" in
  PJRT_Buffer_ReadyEvent (c_api_ (client_ rejected_buffer))
    (buffer_ rejected_buffer) = PjrtOk 1007%N
  /\ readiness_promise_ rejected_buffer = None
  /\ (readiness_event_ rejected_buffer = None
      \/ readiness_event_ rejected_buffer = Some 1007%N)
  /\ unused_from (next_promise new_World) new_World
  /\ PJRT_Event_OnReady (c_api_ (client_ rejected_buffer)) 1007%N = PjrtErr e
  /\ exists future this' w',
       GetReadyFuture rejected_buffer new_World = (Value (future, this'), w')
       /\ future_status future w' = Some (PjrtErrorToStatus e)
       /\ on_ready_callbacks w' = on_ready_callbacks new_World
       /\ forall error,
            future_status future (event_completes 1007%N error w')
            = Some (PjrtErrorToStatus e).
Proof.
  intros e.
  assert (unused_from (next_promise new_World) new_World) as Hunused
    by (intros q _; repeat split).
  split; [reflexivity |]. split; [reflexivity |]. split; [left; reflexivity |].
  split; [exact Hunused |]. split; [reflexivity |].
  exact (@GetReadyFuture_registration_fails example_helpers rejected_buffer
           1007%N e new_World eq_refl eq_refl (or_introl eq_refl) Hunused
           eq_refl).
Defined.

(** An instance of X9: the buffer of client A, whose ready event 1007 has
    not completed. *)
Lemma GetReadyFuture_shows_event_status_witness :
  PJRT_Buffer_ReadyEvent (c_api_ (client_ buffer_of_A)) (buffer_ buffer_of_A)
  = PjrtOk 1007%N
  /\ readiness_promise_ buffer_of_A = None
  /\ (readiness_event_ buffer_of_A = None
      \/ readiness_event_ buffer_of_A = Some 1007%N)
  /\ unused_from (next_promise new_World) new_World
  /\ PJRT_Event_OnReady (c_api_ (client_ buffer_of_A)) 1007%N = PjrtOk tt
  /\ exists future this' w',
       GetReadyFuture buffer_of_A new_World = (Value (future, this'), w')
       /\ future_status future w' = None
       /\ forall error,
            future_status future (event_completes 1007%N error w')
            = Some (PjrtErrorPtrToStatus error).
Proof.
  assert (unused_from (next_promise new_World) new_World) as Hunused
    by (intros q _; repeat split).
  split; [reflexivity |]. split; [reflexivity |]. split; [left; reflexivity |].
  split; [exact Hunused |]. split; [reflexivity |].
  exact (@GetReadyFuture_shows_event_status example_helpers buffer_of_A
           1007%N new_World eq_refl eq_refl (or_introl eq_refl) Hunused
           eq_refl).
Defined.

(** An instance of X10: two replicas of three partitions over a span of
    seven ids, and over a span of two. *)
Lemma CalculateDefaultAssignment_row_major_witness :
  (0 <= 2)%Z /\ (0 <= 3)%Z
  /\ (exists rows,
        CalculateDefaultAssignment 2 3 [10; 11; 12; 13; 14; 15; 16]%Z
        = Some rows
        /\ length rows = 2
        /\ concat rows = [10; 11; 12; 13; 14; 15]%Z
        /\ rows !! 1 ≫= (.!! 2) = Some 15%Z)
  /\ CalculateDefaultAssignment 2 3 [10; 11]%Z = None.
Proof.
  assert (0 <= 2)%Z as Hreplicas by lia.
  assert (0 <= 3)%Z as Hpartitions by lia.
  split; [exact Hreplicas |]. split; [exact Hpartitions |]. split.
  - destruct (CalculateDefaultAssignment_row_major 2 3
                [10; 11; 12; 13; 14; 15; 16]%Z Hreplicas Hpartitions)
      as [Hlong _].
    destruct Hlong as (rows & Hrows & Hlen & _ & Hconcat & Hat);
      [vm_compute; discriminate |].
    exists rows. split; [exact Hrows |]. split; [exact Hlen |].
    split; [exact Hconcat |].
    apply (Hat 1%Z 2%Z); lia.
  - apply (CalculateDefaultAssignment_row_major 2 3 [10; 11]%Z
             Hreplicas Hpartitions).
    vm_compute. reflexivity.
Defined.

(** An instance of X13: the devices 10 and 11 of the example plugin, whose
    reports differ in fields that are not set. *)
Lemma GetAllocatorStats_reads_only_what_is_set_witness :
  let device handle := {| device_client := client_A; c_device := handle |} in
  PJRT_Device_MemoryStats example_queries 10%N = PjrtOk (example_stats 10%N)
  /\ PJRT_Device_MemoryStats example_queries 11%N = PjrtOk (example_stats 11%N)
  /\ example_stats 10%N <> example_stats 11%N
  /\ reported (example_stats 10%N) = reported (example_stats 11%N)
  /\ exists stats,
       GetAllocatorStats example_queries (device 10%N) new_World
       = (Value stats, new_World)
       /\ GetAllocatorStats example_queries (device 11%N) new_World
          = (Value stats, new_World)
       /\ stats
          = {| bytes_in_use := 64; peak_bytes_in_use := 128;
               num_allocs := -1; largest_alloc_size := 32;
               bytes_limit := None; bytes_reserved := -1;
               peak_bytes_reserved := -1; bytes_reservable_limit := None;
               largest_free_block_bytes := -1; pool_bytes := Some 1024;
               peak_pool_bytes := None |}%Z.
Proof.
  intros device.
  split; [reflexivity |]. split; [reflexivity |]. split; [discriminate |].
  split; [reflexivity |].
  destruct (@GetAllocatorStats_reads_only_what_is_set example_helpers
              example_queries example_queries (device 10%N) (device 11%N)
              (example_stats 10%N) (example_stats 11%N) new_World
              eq_refl eq_refl eq_refl)
    as (stats & Hfirst & Hsecond & Hstats).
  exists stats. split; [exact Hfirst |]. split; [exact Hsecond |].
  apply (Hstats _ _ _ _ _ _ _ _ _ _ _ eq_refl).
Defined.

(** An instance of X15: a buffer of the example plugin, of three
    dimensions, the dimensions 2 and 0 dynamic. *)
Lemma dynamic_dimension_queries_agree_witness :
  PJRT_Buffer_Dimensions example_queries (buffer_ buffer_of_A)
  = PjrtOk [8; 8; 8]%Z
  /\ exists flags,
       is_dynamic_dimension example_queries buffer_of_A None new_World
       = (Value flags, new_World)
       /\ length flags = 3
       /\ (forall i, flags !! i = Some true <-> i ∈ [2; 0])
       /\ has_dynamic_dimensions example_queries buffer_of_A new_World
          = (Value true, new_World).
Proof.
  split; [reflexivity |].
  destruct (@dynamic_dimension_queries_agree example_helpers example_queries
              buffer_of_A [8; 8; 8]%Z new_World eq_refl)
    as (Hflags & Hreturns & _).
  destruct (Hreturns [2; 0] eq_refl) as [Hwithin _].
  destruct Hwithin as (flags & Hrun);
    [repeat constructor |].
  destruct (Hflags flags new_World Hrun)
    as (_ & Hlen & (has & Hhas & Hiff) & Hset).
  exists flags. split; [exact Hrun |]. split; [exact Hlen |].
  split; [exact Hset |].
  assert (has = true) as <-; [| exact Hhas].
  apply Hiff. exists 0. apply Hset. right. left.
Defined.

(** An instance of X16: the construction against the example plugin. *)
Lemma InitDevicesAndMemorySpaces_mirrors_plugin_witness :
  let run := InitDevicesAndMemorySpaces (example_api 33 3) 1%N
               new_ClientGraph new_World in
  exists g,
    run = (Value g, snd run)
    /\ map device_ (owned_devices_ g) = [10; 11; 12]%N
    /\ devices_ g = [0; 1; 2]
    /\ (forall d, is_Some (c_to_cpp_device_map_ g !! d) <-> d ∈ [10; 11; 12]%N)
    /\ Forall2 (fun d p => c_to_cpp_device_map_ g !! d = Some p)
               [10; 11; 12]%N (addressable_devices_ g)
    /\ map c_memory_ (owned_memory_spaces_ g) = [20%N]
    /\ addressable_memory_spaces_ g = [0].
Proof.
  intros run.
  destruct run as [[g | s | c] w'] eqn:Hrun;
    [| vm_compute in Hrun; discriminate ..].
  exists g. split; [reflexivity |].
  destruct (@InitDevicesAndMemorySpaces_mirrors_plugin example_helpers
              example_client_helpers (example_api 33 3) 1%N g new_World w' Hrun)
    as (devices & addressable & Hdevices & Haddressable & Hown & Hall & _
        & Hmap & Hadd & Hmem).
  injection Hdevices as <-. injection Haddressable as <-.
  cbn in Hmem. destruct Hmem as [Hmem Hspaces]. auto 10.
Defined.

(** An instance of X17: on client A of the example plugin, the device of
    id 1, a device id the plugin does not know, and the device of a
    buffer. *)
Lemma device_lookups_after_construction_witness :
  let run := InitDevicesAndMemorySpaces (c_api_ client_A) (c_client_ client_A)
               new_ClientGraph new_World in
  exists g,
    run = (Value g, snd run)
    /\ (exists cpp_device,
          LookupDevice example_queries client_A g 1 new_World
          = (Value cpp_device, new_World)
          /\ device_handle g cpp_device = Some 11%N)
    /\ (exists s,
          LookupDevice example_queries client_A g 7 new_World
          = (Error s, new_World))
    /\ exists cpp_device,
         PjRtCApiBuffer_device example_queries g buffer_of_A new_World
         = (Value cpp_device, new_World)
         /\ device_handle g cpp_device = Some 11%N.
Proof.
  intros run.
  destruct run as [[g | s | c] w'] eqn:Hrun;
    [| vm_compute in Hrun; discriminate ..].
  exists g. split; [reflexivity |].
  destruct (@device_lookups_after_construction example_helpers
              example_client_helpers example_queries client_A g new_World w' Hrun)
    as (devices & Hdevices & Hlookup & _ & Hbuffer).
  injection Hdevices as <-.
  assert (PJRT_Client_LookupDevice example_queries (c_client_ client_A) 1
          = PjrtOk 11%N) as Hknown by reflexivity.
  assert (exists e,
            PJRT_Client_LookupDevice example_queries (c_client_ client_A) 7
            = PjrtErr e) as [e Hunknown] by (eexists; reflexivity).
  assert (PJRT_Buffer_Device example_queries (buffer_ buffer_of_A)
          = PjrtOk 11%N) as Hdevice by reflexivity.
  pose proof (Hlookup 1%Z new_World) as Hone.
  pose proof (Hlookup 7%Z new_World) as Hseven.
  pose proof (Hbuffer buffer_of_A new_World) as Hof.
  cbv zeta in Hone, Hseven, Hof.
  rewrite Hknown in Hone. rewrite Hunknown in Hseven. rewrite Hdevice in Hof.
  destruct Hone as (Hw & Hfinds & _). destruct Hof as (Hw' & Hfinds' & _).
  destruct Hfinds as (cpp_device & Hvalue & Hhandle);
    [right; left |].
  destruct Hfinds' as (cpp_device' & Hvalue' & Hhandle');
    [right; left |].
  split; [| split].
  - exists cpp_device. split; [| exact Hhandle].
    destruct (LookupDevice _ _ _ _ _) as [result w0].
    cbn [fst snd] in Hw, Hvalue. now rewrite Hw, Hvalue.
  - eexists. exact Hseven.
  - exists cpp_device'. split; [| exact Hhandle'].
    destruct (PjRtCApiBuffer_device _ _ _ _) as [result w0].
    cbn [fst snd] in Hw', Hvalue'. now rewrite Hw', Hvalue'.
Defined.

(** An instance of X18: on client A of the example plugin, the program
    the plugin loads, as executable 50 on the devices 10 and 11, and a
    string it rejects. *)
Lemma DeserializeExecutable_loads_witness :
  let run := InitDevicesAndMemorySpaces (c_api_ client_A) (c_client_ client_A)
               new_ClientGraph new_World in
  let g := match fst run with Value g => g | _ => new_ClientGraph end in
  device_map_sound g
  /\ DeserializeExecutable example_queries client_A g "program" new_World
     = (Value (example_executable, [0; 1]), new_World)
  /\ PJRT_LoadedExecutable_GetExecutable example_queries 50%N
     = PjrtOk (c_executable example_executable)
  /\ Forall2 (fun d p => device_handle g p = Some d) [10; 11]%N [0; 1]
  /\ exists e,
       DeserializeExecutable example_queries client_A g "garbage" new_World
       = (Error (PjrtErrorToStatus e), new_World).
Proof.
  intros run g.
  assert (run = (Value g, snd run)) as Hrun by (vm_compute; reflexivity).
  destruct (InitDevicesAndMemorySpaces_graph _ _ _ _ _ Hrun)
    as (_ & _ & _ & _ & _ & _ & Hsound & _).
  assert (DeserializeExecutable example_queries client_A g "program" new_World
          = (Value (example_executable, [0; 1]), new_World)) as Hload
    by (vm_compute; reflexivity).
  assert (PJRT_Executable_DeserializeAndLoad example_queries
            (c_client_ client_A) "program" = PjrtOk (Some 50%N)) as Hprogram
    by reflexivity.
  assert (exists e,
            PJRT_Executable_DeserializeAndLoad example_queries
              (c_client_ client_A) "garbage" = PjrtErr e) as [e Hgarbage]
    by (eexists; reflexivity).
  pose proof (@DeserializeExecutable_loads example_helpers example_queries
                client_A g "program" new_World Hsound) as Hloads.
  pose proof (@DeserializeExecutable_loads example_helpers example_queries
                client_A g "garbage" new_World Hsound) as Hrejects.
  cbv zeta in Hloads, Hrejects.
  rewrite Hprogram in Hloads. rewrite Hgarbage in Hrejects.
  destruct Hloads as [_ Hloads].
  destruct (Hloads example_executable [0; 1] new_World Hload)
    as (_ & _ & _ & Hexecutable & handles & Hhandles & Hdevices).
  injection Hhandles as <-.
  split; [exact Hsound |]. split; [exact Hload |].
  split; [exact Hexecutable |]. split; [exact Hdevices |].
  exists e. exact Hrejects.
Defined.

(** An instance of X19: the construction against the example plugin,
    whose three devices share the memory space 20. *)
Lemma InitDevicesAndMemorySpaces_attaches_both_ways_witness :
  let api := example_api 33 3 in
  let run := InitDevicesAndMemorySpaces api 1%N new_ClientGraph new_World in
  let g := match fst run with Value g => g | _ => new_ClientGraph end in
  let device := {| device_ := 11%N;
                   description_ := description_ (example_device 11%N);
                   memory_spaces_ := [0] |} in
  let memory := {| c_memory_ := 20%N; memory_devices_ := [0; 1; 2] |} in
  run = (Value g, snd run)
  /\ PJRT_Client_AddressableDevices api 1%N = PjrtOk [10; 11; 12]%N
  /\ NoDup [10; 11; 12]%N
  /\ Forall (fun d => ~ reports_unimplemented
                         (PJRT_Device_AddressableMemories api d))
            [10; 11; 12]%N
  /\ owned_memory_spaces_ g !! 0 = Some memory
  /\ Forall2 (fun d p => device_handle g p = Some d)
             [10; 11; 12]%N (memory_devices_ memory)
  /\ owned_devices_ g !! 1 = Some device
  /\ 1 ∈ addressable_devices_ g
  /\ Forall2 (fun m q => memory_handle g q = Some m)
             [20%N] (memory_spaces_ device).
Proof.
  intros api run g device memory.
  assert (run = (Value g, snd run)) as Hrun by (vm_compute; reflexivity).
  assert (NoDup [10; 11; 12]%N) as Hnodup
    by (apply (bool_decide_unpack _); vm_compute; exact I).
  assert (Forall (fun d => ~ reports_unimplemented
                              (PJRT_Device_AddressableMemories api d))
                 [10; 11; 12]%N) as Hanswers
    by (repeat (apply Forall_cons; split);
        [intros (e & He & _); discriminate He .. | apply List.Forall_nil]).
  assert (owned_memory_spaces_ g !! 0 = Some memory) as Hmemory
    by (vm_compute; reflexivity).
  assert (owned_devices_ g !! 1 = Some device) as Hdevice
    by (vm_compute; reflexivity).
  assert (1 ∈ addressable_devices_ g) as Haddressable
    by (assert (addressable_devices_ g = [0; 1; 2]) as ->
          by (vm_compute; reflexivity); right; left).
  destruct (@InitDevicesAndMemorySpaces_attaches_both_ways example_helpers
              example_client_helpers api 1%N g new_World (snd run) Hrun) as [Hmemories Hdevices].
  destruct (Hmemories 0 memory Hmemory) as (attached & Hattached & Hobjects).
  injection Hattached as <-.
  destruct (Hdevices [10; 11; 12]%N eq_refl Hnodup Hanswers 1 device Hdevice)
    as [Hspaces _].
  destruct (Hspaces Haddressable) as (memories & Hplugin & Hspaces').
  injection Hplugin as <-.
  repeat (split; [assumption || reflexivity |]). exact Hspaces'.
Defined.
